(** * AutoVRS backend: frame pipeline, detection decoding, stream broadcaster

    A shallow embedding of the three services of the backend

      - [src/services/defect_detection_service.py]  (modules [Detector],
                                                     [Inference])
      - [src/services/camera_service.py]            (modules [Camera],
                                                     [Acquisition])
      - [src/services/websocket_service.py]         (modules [Broadcaster],
                                                     [Handlers], [Serial])

    Conventions.  Python floats are idealised as exact rationals ([Q]);
    [int(x)] is truncation toward zero.  A Python call that may raise is a
    value of [outcome]; [try/except Exception] is [try_except].  Python
    sets are [gset], dictionaries with string keys are [gmap string _].
    Library calls (OpenCV, the ASGI transport, the clock) are parameters
    of the functions that use them. *)

From Stdlib Require Import QArith Qround ZArith List Sorted Lia.
From stdpp Require Import gmap strings list fin_maps pretty.
From Equations Require Import Equations.
Import ListNotations.

Local Open Scope Z_scope.

(** ** Exceptions *)

(** An instance of [Exception]: its class name and [str(e)]. *)
Record exn : Type := Exception { exn_type : string; exn_str : string }.

Definition IndexError := Exception "IndexError".
Definition ValueError := Exception "ValueError".
Definition KeyError := Exception "KeyError".
Definition TypeError := Exception "TypeError".
Definition ZeroDivisionError := Exception "ZeroDivisionError".

Inductive outcome (A : Type) : Type :=
| Ok (a : A)
| Raise (e : exn).
Arguments Ok {A} a.
Arguments Raise {A} e.

Definition obind {A B} (m : outcome A) (k : A -> outcome B) : outcome B :=
  match m with
  | Ok a => k a
  | Raise e => Raise e
  end.

#[global] Instance outcome_bind : MBind outcome := fun A B k m => obind m k.
#[global] Instance outcome_ret : MRet outcome := fun A a => Ok a.

(** [try: body except Exception as e: handler e] *)
Definition try_except {A} (body : outcome A) (handler : exn -> outcome A)
  : outcome A :=
  match body with
  | Ok a => Ok a
  | Raise e => handler e
  end.

(** [l[i]] for a non-negative index *)
Definition py_index {A} (l : list A) (i : nat) : outcome A :=
  match nth_error l i with
  | Some a => Ok a
  | None => Raise (IndexError "list index out of range")
  end.

(** [[f(x) for x in l]], left to right, stopping at the first exception *)
Fixpoint for_each {A B} (f : A -> outcome B) (l : list A) : outcome (list B) :=
  match l with
  | [] => Ok []
  | a :: l' => b ← f a; bs ← for_each f l'; Ok (b :: bs)
  end.

(** ** Numbers *)

Definition Qge_bool (a b : Q) : bool := Qle_bool b a.
Definition Qgt_bool (a b : Q) : bool := negb (Qle_bool a b).

(** [int(x)] on a float: truncation toward zero *)
Definition py_int (q : Q) : Z := Z.quot (Qnum q) (Zpos (Qden q)).

(** [a / b] on two Python ints *)
Definition true_div (a b : Z) : outcome Q :=
  if Z.eqb b 0 then Raise (ZeroDivisionError "division by zero")
  else Ok (inject_Z a / inject_Z b)%Q.

(** * Detector: defect_detection_service.py *)

Module Detector.

Record bbox : Type := BBox { bx1 : Z; by1 : Z; bx2 : Z; by2 : Z }.

Record detection : Type := Detection {
  det_bbox : bbox;
  confidence : Q;
  class_id : nat;
  class_name : string;
  color : Z * Z * Z
}.

(** [self.defect_class_names] *)
Definition defect_class_names : gmap nat string :=
  list_to_map
    [ (0%nat, "short_circuit"); (1%nat, "open_circuit");
      (2%nat, "missing_component"); (3%nat, "damaged_track");
      (4%nat, "wrong_component"); (5%nat, "solder_defect");
      (6%nat, "crack"); (7%nat, "scratch") ].

(** [self.defect_colors] *)
Definition defect_colors : gmap nat (Z * Z * Z) :=
  list_to_map
    [ (0%nat, (0, 0, 255)); (1%nat, (255, 0, 0)); (2%nat, (0, 255, 255));
      (3%nat, (255, 0, 255)); (4%nat, (128, 0, 128)); (5%nat, (0, 165, 255));
      (6%nat, (0, 255, 0)); (7%nat, (255, 255, 0)) ].

(** A model output of shape [[B, C, N]]: batch, channel, anchor. *)
Definition tensor := list (list (list Q)).

(** Transpose of a rectangular [C x N] matrix into [N x C]. *)
Definition transpose2 (m : list (list Q)) : list (list Q) :=
  map (fun j => map (fun row => nth j row 0%Q) m)
      (seq 0 (length (hd [] m))).

(** [np.transpose(predictions, (0, 2, 1))] *)
Definition np_transpose_021 (t : tensor) : tensor := map transpose2 t.

(** [np.argmax]: index of the first maximal entry. *)
Fixpoint argmax_from (best_i : nat) (best : Q) (i : nat) (l : list Q) : nat :=
  match l with
  | [] => best_i
  | x :: l' =>
      if Qgt_bool x best then argmax_from i x (S i) l'
      else argmax_from best_i best (S i) l'
  end.

Definition np_argmax (l : list Q) : outcome nat :=
  match l with
  | [] => Raise (ValueError "attempt to get argmax of an empty sequence")
  | x :: l' => Ok (argmax_from 0 x 1 l')
  end.

(** [max(0, min(v, bound))] *)
Definition clamp (v bound : Z) : Z := Z.max 0 (Z.min v bound).

(** Body of the loop [for detection in predictions[0]] (lines 119-150):
    returns the dictionary appended for this candidate, if any. *)
Definition decode_candidate (original_width original_height : Z)
    (scale_x scale_y : Q) (conf_threshold : Q) (row : list Q)
  : outcome (option detection) :=
  match row with
  | center_x :: center_y :: width :: height :: class_scores =>
      cid ← np_argmax class_scores;
      let conf := nth cid class_scores 0%Q in
      if Qge_bool conf conf_threshold
         && (cid <? size defect_class_names)%nat
      then
        let x1 := py_int ((center_x - width / 2) * scale_x)%Q in
        let y1 := py_int ((center_y - height / 2) * scale_y)%Q in
        let x2 := py_int ((center_x + width / 2) * scale_x)%Q in
        let y2 := py_int ((center_y + height / 2) * scale_y)%Q in
        let x1 := clamp x1 original_width in
        let y1 := clamp y1 original_height in
        let x2 := clamp x2 original_width in
        let y2 := clamp y2 original_height in
        let defect_name :=
          default ("defect_" +:+ pretty cid) (defect_class_names !! cid) in
        Ok (Some {| det_bbox := BBox x1 y1 x2 y2;
                    confidence := conf;
                    class_id := cid;
                    class_name := defect_name;
                    color := default (255, 255, 255) (defect_colors !! cid) |})
      else Ok None
  | _ => Raise (ValueError "not enough values to unpack (expected 4)")
  end.

Fixpoint decode_loop (original_width original_height : Z)
    (scale_x scale_y : Q) (conf_threshold : Q) (rows : list (list Q))
  : outcome (list detection) :=
  match rows with
  | [] => Ok []
  | row :: rows' =>
      d ← decode_candidate original_width original_height
             scale_x scale_y conf_threshold row;
      ds ← decode_loop original_width original_height
              scale_x scale_y conf_threshold rows';
      Ok (match d with Some d => d :: ds | None => ds end)
  end.

(** The candidate rows the loop iterates over:
    [np.transpose(outputs[0], (0, 2, 1))[0]]. *)
Definition candidates (outputs : list tensor) : outcome (list (list Q)) :=
  predictions ← py_index outputs 0;
  py_index (np_transpose_021 predictions) 0.

(** ** Suppression

    The source hands suppression to [cv2.dnn.NMSBoxes], which is OpenCV
    library code and not part of the repository.  The definitions of this
    section follow step 5 of the detection engine in the spec: "sort
    surviving candidates by confidence descending; repeatedly keep the
    highest-confidence remaining box and discard every other box whose
    IoU with it exceeds the threshold; continue until no candidates
    remain". *)

Section Suppression.

Context {A : Type}.
Variable score : A -> Q.
Variable box : A -> bbox.
(** overlap ratio of two boxes *)
Variable overlap : bbox -> bbox -> Q.

(** Modelled from the spec: the body of [cv2.dnn.NMSBoxes] is missing;
    "sort ... by confidence descending".  Stable insertion into a list
    sorted by descending score: on a tie the inserted element, which came
    first, stays first. *)
Fixpoint insert_desc (x : A) (l : list A) : list A :=
  match l with
  | [] => [x]
  | y :: l' =>
      if Qge_bool (score x) (score y) then x :: y :: l'
      else y :: insert_desc x l'
  end.

(** Modelled from the spec: the body of [cv2.dnn.NMSBoxes] is missing;
    "sort surviving candidates by confidence descending". *)
Fixpoint sort_desc (l : list A) : list A :=
  match l with
  | [] => []
  | x :: l' => insert_desc x (sort_desc l')
  end.

(** Modelled from the spec: the body of [cv2.dnn.NMSBoxes] is missing;
    a box is discarded when its "IoU with [the kept box] exceeds" the
    threshold, so [y] survives next to the kept box [x] otherwise. *)
Definition compatible (nms_threshold : Q) (x y : A) : bool :=
  negb (Qgt_bool (overlap (box x) (box y)) nms_threshold).

(** Modelled from the spec: the body of [cv2.dnn.NMSBoxes] is missing;
    "repeatedly keep the highest-confidence remaining box and discard
    every other box whose IoU with it exceeds the threshold; continue
    until no candidates remain". *)
Equations? greedy (nms_threshold : Q) (l : list A) : list A
  by wf (length l) lt :=
  greedy nms_threshold [] := [];
  greedy nms_threshold (x :: rest) :=
    x :: greedy nms_threshold (List.filter (compatible nms_threshold x) rest).
Proof.
  simpl. pose proof (List.filter_length_le (compatible nms_threshold x) rest).
  lia.
Qed.

(** Modelled from the spec: the body of [cv2.dnn.NMSBoxes] is missing;
    step 5 applied to the candidates whose confidence is not below the
    threshold (step 3, "discard candidates with confidence below"). *)
Definition suppress (score_threshold nms_threshold : Q) (l : list A)
  : list A :=
  greedy nms_threshold
    (sort_desc (List.filter (fun x => Qge_bool (score x) score_threshold) l)).

End Suppression.

(** Modelled from the spec: the overlap measure of [cv2.dnn.NMSBoxes] is
    missing; area of a corner box [(x1, y1, x2, y2)]. *)
Definition box_area (b : bbox) : Z :=
  Z.max 0 (bx2 b - bx1 b) * Z.max 0 (by2 b - by1 b).

(** Modelled from the spec: the overlap measure of [cv2.dnn.NMSBoxes] is
    missing; area shared by two corner boxes. *)
Definition intersection_area (a b : bbox) : Z :=
  Z.max 0 (Z.min (bx2 a) (bx2 b) - Z.max (bx1 a) (bx1 b))
  * Z.max 0 (Z.min (by2 a) (by2 b) - Z.max (by1 a) (by1 b)).

(** Modelled from the spec: the overlap measure of [cv2.dnn.NMSBoxes] is
    missing; intersection over union (glossary: "overlap ratio between
    two boxes"). *)
Definition iou (a b : bbox) : Q :=
  let inter := intersection_area a b in
  (inject_Z inter / inject_Z (box_area a + box_area b - inter))%Q.

(** Modelled from the spec: [cv2.dnn.NMSBoxes(boxes, scores,
    score_threshold, nms_threshold)] is missing; the suppression step of
    the spec, returning the indices of the kept boxes in keep order. *)
Definition NMSBoxes (boxes : list bbox) (scores : list Q)
    (score_threshold nms_threshold : Q) : list nat :=
  map fst
    (suppress (fun e : nat * (bbox * Q) => snd (snd e))
              (fun e => fst (snd e)) iou
              score_threshold nms_threshold
              (combine (seq 0 (length boxes)) (combine boxes scores))).

Section Postprocess.

(** [cv2.dnn.NMSBoxes(boxes, scores, score_threshold, nms_threshold)]:
    the indices of the boxes that are kept. *)
Variable NMSBoxes : list bbox -> list Q -> Q -> Q -> list nat.

(** Lines 152-165: suppression over the decoded detections. *)
Definition apply_nms (conf_threshold : Q) (detections : list detection)
  : outcome (list detection) :=
  if (0 <? length detections)%nat then
    let boxes := map det_bbox detections in
    let scores := map confidence detections in
    let indices := NMSBoxes boxes scores conf_threshold (4 # 10) in
    if (0 <? length indices)%nat
    then for_each (py_index detections) indices
    else Ok []
  else Ok [].

Definition postprocess_detections (outputs : list tensor)
    (original_size : Z * Z) (input_size : Z * Z) (conf_threshold : Q)
  : outcome (list detection) :=
  let '(original_width, original_height) := original_size in
  let '(input_width, input_height) := input_size in
  predictions ← py_index outputs 0;
  let predictions := np_transpose_021 predictions in
  scale_x ← true_div original_width input_width;
  scale_y ← true_div original_height input_height;
  rows ← py_index predictions 0;
  detections ← decode_loop original_width original_height
                  scale_x scale_y conf_threshold rows;
  apply_nms conf_threshold detections.

End Postprocess.

End Detector.

(** * Camera: camera_service.py *)

Module Camera.

(** ** Images

    A numpy image: its shape [(rows, cols)] and its pixels. *)

Definition pixel : Type := Z * Z * Z.

Record frame : Type := Frame {
  rows : nat;
  cols : nat;
  at_pixel : nat -> nat -> pixel
}.

(** [frame.shape[:2]], as [(h, w)] *)
Definition shape (f : frame) : nat * nat := (rows f, cols f).

(** Length of the slice [a:b] of an axis of length [n], for
    [0 <= a] and [0 <= b]: Python clips both ends to [n]. *)
Definition slice_len (n a b : nat) : nat := (Nat.min b n - Nat.min a n)%nat.

(** [frame[:, a:b]] *)
Definition slice_cols (f : frame) (a b : nat) : frame :=
  {| rows := rows f;
     cols := slice_len (cols f) a b;
     at_pixel := fun i j => at_pixel f i (j + a)%nat |}.

(** [frame[a:b, :]] *)
Definition slice_rows (f : frame) (a b : nat) : frame :=
  {| rows := slice_len (rows f) a b;
     cols := cols f;
     at_pixel := fun i j => at_pixel f (i + a)%nat j |}.

(** ** Python values stored in the dictionaries the service returns *)

(** A detection dictionary: each key may be absent. *)
Record det_dict : Type := DetDict {
  dd_class_name : option string;
  dd_confidence : option Q;
  dd_bbox : option (list Z);
  dd_class_id : option nat;
  dd_color : option (Z * Z * Z)
}.

#[warnings="-register-all"]
Inductive pyval : Type :=
| VNone
| VBool (b : bool)
| VInt (z : Z)
| VStr (s : string)
| VImage (f : frame)
| VDetections (l : list det_dict)
| VCounts (m : gmap string Z)
| VDict (d : gmap string pyval).

Abbreviation pydict := (gmap string pyval).

(** The dictionary [postprocess_detections] builds for a detection. *)
Definition dict_of_detection (d : Detector.detection) : det_dict :=
  let b := Detector.det_bbox d in
  {| dd_class_name := Some (Detector.class_name d);
     dd_confidence := Some (Detector.confidence d);
     dd_bbox := Some [Detector.bx1 b; Detector.by1 b; Detector.bx2 b; Detector.by2 b];
     dd_class_id := Some (Detector.class_id d);
     dd_color := Some (Detector.color d) |}.

(** [d[key]] *)
Definition getitem (d : pydict) (key : string) : outcome pyval :=
  match d !! key with
  | Some v => Ok v
  | None => Raise (KeyError key)
  end.

(** [bool(v)] *)
Definition truthy (v : pyval) : outcome bool :=
  match v with
  | VNone => Ok false
  | VBool b => Ok b
  | VInt z => Ok (negb (z =? 0))
  | VStr s => Ok (negb (String.eqb s ""))
  | VImage _ =>
      Raise (ValueError "The truth value of an array is ambiguous")
  | VDetections l => Ok (negb (Nat.eqb (length l) 0))
  | VCounts m => Ok (negb (Nat.eqb (size m) 0))
  | VDict d => Ok (negb (Nat.eqb (size d) 0))
  end.

(** [key in v] *)
Definition contains (v : pyval) (key : string) : outcome bool :=
  match v with
  | VDict d => Ok (bool_decide (is_Some (d !! key)))
  | VCounts m => Ok (bool_decide (is_Some (m !! key)))
  | _ => Raise (TypeError "argument is not a dictionary")
  end.

(** ** The service and what it calls *)

(** [DefectDetectionService.detect_defects_from_frame], as seen by the
    camera service: an annotated image and the detections, or an
    exception. *)
Definition detector : Type :=
  frame -> outcome (frame * list Detector.detection).

(** The fields of [CameraService] that capture uses. *)
Record camera_service : Type := CameraService {
  current_frame : option frame;
  defect_detector : option detector;
  detection_enabled : bool
}.

(** Library and system calls made by the service. *)
Record world : Type := World {
  (** [os.path.exists("src/models/yolov8n.onnx")] *)
  model_file_exists : outcome bool;
  (** [DefectDetectionService(model_path)] *)
  load_detector : outcome detector;
  (** [time.strftime("%Y%m%d_%H%M%S")] *)
  strftime : string;
  (** [settings.get_full_captures_dir()] *)
  get_full_captures_dir : outcome string;
  (** [os.makedirs(dir, exist_ok=True)] *)
  makedirs : string -> outcome unit;
  (** [cv2.resize(src, (w, h))] *)
  cv2_resize : frame -> Z * Z -> outcome frame;
  (** [cv2.rectangle(img, pt1, pt2, color, thickness)], drawing on [img] *)
  cv2_rectangle : frame -> Z * Z -> Z * Z -> Z * Z * Z -> Z -> outcome frame;
  (** [cv2.putText(img, text, org, FONT_HERSHEY_SIMPLEX, scale, color, thickness)] *)
  cv2_putText : frame -> string -> Z * Z -> Q -> Z * Z * Z -> Z -> outcome frame;
  (** [cv2.imwrite(path, img)] *)
  cv2_imwrite : string -> frame -> outcome bool;
  (** [base64.b64encode(cv2.imencode('.jpg', img, [IMWRITE_JPEG_QUALITY, q])[1]).decode('utf-8')] *)
  encode_jpeg_base64 : frame -> Z -> outcome string
}.

Section Service.

Variable w : world.

(** [CameraService.__init__], lines 23-50 *)
Definition init : camera_service :=
  let det :=
    try_except
      (present ← model_file_exists w;
       if (present : bool) then d ← load_detector w; Ok (Some d)
       else Ok None)
      (fun _ => Ok None) in
  {| current_frame := None;
     defect_detector := match det with Ok d => d | Raise _ => None end;
     detection_enabled := true |}.

(** The frame update of [_capture_loop], lines 118-120 *)
Definition publish (self : camera_service) (f : frame) : camera_service :=
  {| current_frame := Some f;
     defect_detector := defect_detector self;
     detection_enabled := detection_enabled self |}.

Definition set_detection_enabled (self : camera_service) (enabled : bool)
  : camera_service :=
  {| current_frame := current_frame self;
     defect_detector := defect_detector self;
     detection_enabled := enabled |}.

Definition get_current_frame (self : camera_service) : option frame :=
  current_frame self.

(** [resize_to_square], lines 284-299 *)
Definition resize_to_square (f : frame) (size : Z) : outcome frame :=
  let '(h, w') := shape f in
  let cropped :=
    if (h <? w')%nat then
      let start_x := ((w' - h) / 2)%nat in
      slice_cols f start_x (start_x + h)
    else
      let start_y := ((h - w') / 2)%nat in
      slice_rows f start_y (start_y + w') in
  cv2_resize w cropped (size, size).

(** [frame_to_base64], lines 252-265 *)
Definition frame_to_base64 (f : frame) (quality : Z) : outcome string :=
  try_except (encode_jpeg_base64 w f quality) (fun _ => Ok "").

(** The dictionary every [return] of [capture_image] builds. *)
Definition capture_result (success : bool) (message : string)
    (filepath base64_image detection_results : pyval) : pydict :=
  <["success" := VBool success]>
    (<["message" := VStr message]>
       (<["filepath" := filepath]>
          (<["base64_image" := base64_image]>
             (<["detection_results" := detection_results]> ∅)))).

(** The dictionary stored under ["detection_results"] after a run of
    the detector or of the fallback. *)
Definition detection_results_dict (detections : list det_dict)
    (annotated : frame) : pyval :=
  VDict (<["detections" := VDetections detections]>
           (<["num_defects" := VInt (Z.of_nat (length detections))]>
              (<["annotated_image" := VImage annotated]> ∅))).

(** The detection the fallback reports for an image of shape [(h, w)]. *)
Definition test_detection (h w' : Z) : det_dict :=
  {| dd_class_name := Some "test_defect";
     dd_confidence := Some (9 # 10)%Q;
     dd_bbox := Some [w' / 4; h / 4; 3 * w' / 4; 3 * h / 4];
     dd_class_id := None;
     dd_color := None |}.

(** Lines 168-211: the detection step of a capture. *)
Definition detection_step (self : camera_service) (apply_detection : bool)
    (square_frame : frame) : outcome (frame * pyval) :=
  match apply_detection && detection_enabled self, defect_detector self with
  | true, Some detect =>
      try_except
        ('(annotated_frame, detections) ← detect square_frame;
         Ok (annotated_frame,
             detection_results_dict
               (map dict_of_detection detections) annotated_frame))
        (fun e => Ok (square_frame,
                      VDict (<["error" := VStr (exn_str e)]> ∅)))
  | true, None =>
      let test_frame := square_frame in
      let '(h, w') := shape test_frame in
      let h := Z.of_nat h in
      let w' := Z.of_nat w' in
      test_frame ← cv2_rectangle w test_frame (w' / 4, h / 4)
                      (3 * w' / 4, 3 * h / 4) (0, 255, 0) 2;
      test_frame ← cv2_putText w test_frame "TEST DETECTION"
                      (w' / 4, h / 4 - 10) (7 # 10)%Q (0, 255, 0) 2;
      Ok (test_frame,
          detection_results_dict [test_detection h w'] test_frame)
  | false, _ => Ok (square_frame, VNone)
  end.

(** [capture_image], lines 134-250 *)
Definition capture_image (self : camera_service)
    (filename : option string) (apply_detection : bool) : outcome pydict :=
  try_except
    (match get_current_frame self with
     | None =>
         Ok (capture_result false "No frame available" VNone VNone VNone)
     | Some f =>
         let filename :=
           match filename with
           | None => "capture_" +:+ strftime w +:+ ".jpg"
           | Some name => name
           end in
         dir ← get_full_captures_dir w;
         let filepath := dir +:+ "/" +:+ filename in
         dir' ← get_full_captures_dir w;
         _ ← makedirs w dir';
         square_frame ← resize_to_square f 640;
         '(processed_frame, detection_results) ←
           detection_step self apply_detection square_frame;
         success ← cv2_imwrite w filepath processed_frame;
         if (success : bool) then
           base64_image ← frame_to_base64 processed_frame 80;
           Ok (capture_result true ("Image saved as " +:+ filename)
                 (VStr filepath) (VStr base64_image) detection_results)
         else
           Ok (capture_result false "Failed to save image" VNone VNone VNone)
     end)
    (fun e =>
       Ok (capture_result false ("Capture error: " +:+ exn_str e)
             VNone VNone VNone)).

(** [detection.get("class_name", "unknown")] *)
Definition defect_type_of (d : det_dict) : string :=
  default "unknown" (dd_class_name d).

(** The loop of lines 333-336. *)
Definition count_defects (detections : list det_dict) : gmap string Z :=
  foldl (fun defects_by_type d =>
           let defect_type := defect_type_of d in
           <[defect_type := default 0 (defects_by_type !! defect_type) + 1]>
             defects_by_type)
        ∅ detections.

(** [d.get("confidence", 0) > 0.8] *)
Definition is_critical (d : det_dict) : bool :=
  Qgt_bool (default 0%Q (dd_confidence d)) (8 # 10).

(** The dictionary stored under ["analysis"], lines 338-344. *)
Definition analysis_dict (detections : list det_dict) : pyval :=
  VDict (<["total_defects" := VInt (Z.of_nat (length detections))]>
           (<["defects_by_type" := VCounts (count_defects detections)]>
              (<["has_critical_defects" :=
                   VBool (existsb is_critical detections)]> ∅))).

(** [capture_with_detection_analysis], lines 318-349 *)
Definition capture_with_detection_analysis (self : camera_service)
    (filename : option string) : outcome pydict :=
  result ← capture_image self filename true;
  success ← getitem result "success";
  ok ← truthy success;
  proceed ←
    (if (ok : bool) then
       dr ← getitem result "detection_results"; truthy dr
     else Ok false);
  if (proceed : bool) then
    detection_data ← getitem result "detection_results";
    present ← contains detection_data "detections";
    if (present : bool) then
      match detection_data with
      | VDict data =>
          detections ← getitem data "detections";
          match detections with
          | VDetections ds =>
              Ok (<["analysis" := analysis_dict ds]> result)
          | _ => Raise (TypeError "detections is not a list of dictionaries")
          end
      | _ => Raise (TypeError "detection_results is not a dictionary")
      end
    else Ok result
  else Ok result.

End Service.

End Camera.

(** * Broadcaster: websocket_service.py *)

Module Broadcaster.

(** A [WebSocket] object, by identity. *)
Definition websocket : Type := nat.

(** An asyncio task running [_stream_loop]: still running, or finished
    (returned or cancelled). *)
Inductive task_state : Type :=
| Running
| Finished.

(** The [WebSocketManager] together with the tasks of the event loop
    that its methods create.

    [loop_tasks] holds every [_stream_loop] task created so far;
    [stream_task] is an index into it.  [pending_stops] counts the
    [stop_streaming()] tasks created by [disconnect] that have not run
    yet; [pending_connects] lists the [connect] calls suspended in the
    send of the welcome message. *)
Record state : Type := State {
  active_connections : gset websocket;
  is_streaming : bool;
  stream_task : option nat;
  loop_tasks : list task_state;
  pending_stops : nat;
  pending_connects : list websocket
}.

(** [WebSocketManager.__init__] *)
Definition init : state :=
  {| active_connections := ∅;
     is_streaming := false;
     stream_task := None;
     loop_tasks := [];
     pending_stops := 0;
     pending_connects := [] |}.

(** [start_streaming], lines 78-85 *)
Definition start_streaming (s : state) : state :=
  if is_streaming s then s
  else
    {| active_connections := active_connections s;
       is_streaming := true;
       stream_task := Some (length (loop_tasks s));
       loop_tasks := loop_tasks s ++ [Running];
       pending_stops := pending_stops s;
       pending_connects := pending_connects s |}.

(** [stop_streaming], lines 87-100: the flag is cleared, the task is
    cancelled and awaited; the loop ends on the [CancelledError]. *)
Definition stop_streaming (s : state) : state :=
  if negb (is_streaming s) then s
  else
    {| active_connections := active_connections s;
       is_streaming := false;
       stream_task := stream_task s;
       loop_tasks :=
         match stream_task s with
         | Some t => <[t := Finished]> (loop_tasks s)
         | None => loop_tasks s
         end;
       pending_stops := pending_stops s;
       pending_connects := pending_connects s |}.

(** [connect], lines 25-36: the socket is accepted and registered, and
    the call awaits the send of the welcome message. *)
Definition connect_register (ws : websocket) (s : state) : state :=
  {| active_connections := {[ws]} ∪ active_connections s;
     is_streaming := is_streaming s;
     stream_task := stream_task s;
     loop_tasks := loop_tasks s;
     pending_stops := pending_stops s;
     pending_connects := pending_connects s ++ [ws] |}.

Fixpoint remove_first (ws : websocket) (l : list websocket) : list websocket :=
  match l with
  | [] => []
  | x :: l' => if Nat.eqb x ws then l' else x :: remove_first ws l'
  end.

(** [connect], lines 38-41: after the welcome message, streaming is
    started unless the flag is set. *)
Definition connect_resume (ws : websocket) (s : state) : state :=
  let s' :=
    {| active_connections := active_connections s;
       is_streaming := is_streaming s;
       stream_task := stream_task s;
       loop_tasks := loop_tasks s;
       pending_stops := pending_stops s;
       pending_connects := remove_first ws (pending_connects s) |} in
  if negb (is_streaming s') then start_streaming s' else s'.

(** [connect] run without any other task in between. *)
Definition connect (ws : websocket) (s : state) : state :=
  connect_resume ws (connect_register ws s).

(** [disconnect], lines 43-50.  The method is synchronous:
    [asyncio.create_task(self.stop_streaming())] only creates the task. *)
Definition disconnect (ws : websocket) (s : state) : state :=
  let conns := active_connections s ∖ {[ws]} in
  {| active_connections := conns;
     is_streaming := is_streaming s;
     stream_task := stream_task s;
     loop_tasks := loop_tasks s;
     pending_stops :=
       if Nat.eqb (size conns) 0 then S (pending_stops s) else pending_stops s;
     pending_connects := pending_connects s |}.

(** The event loop runs one of the [stop_streaming()] tasks created by
    [disconnect]. *)
Definition run_stop (s : state) : state :=
  stop_streaming
    {| active_connections := active_connections s;
       is_streaming := is_streaming s;
       stream_task := stream_task s;
       loop_tasks := loop_tasks s;
       pending_stops := pred (pending_stops s);
       pending_connects := pending_connects s |}.

(** [_stream_loop], line 106: the loop leaves its [while] when it finds
    the flag cleared or the registry empty, and its task finishes.  The
    flag is not touched. *)
Definition loop_can_exit (s : state) : bool :=
  match stream_task s with
  | Some t =>
      match loop_tasks s !! t with
      | Some Running =>
          negb (is_streaming s) || bool_decide (active_connections s = ∅)
      | _ => false
      end
  | None => false
  end.

Definition loop_exit (s : state) : state :=
  {| active_connections := active_connections s;
     is_streaming := is_streaming s;
     stream_task := stream_task s;
     loop_tasks :=
       match stream_task s with
       | Some t => <[t := Finished]> (loop_tasks s)
       | None => loop_tasks s
       end;
     pending_stops := pending_stops s;
     pending_connects := pending_connects s |}.

(** What the event loop may do next. *)
Inductive event : Type :=
| ConnectRegister (ws : websocket)
| ConnectResume (ws : websocket)
| Disconnect (ws : websocket)
| RunStop
| LoopExit.

(** One step; [None] when the event cannot happen in [s]. *)
Definition step (e : event) (s : state) : option state :=
  match e with
  | ConnectRegister ws => Some (connect_register ws s)
  | ConnectResume ws =>
      if existsb (Nat.eqb ws) (pending_connects s)
      then Some (connect_resume ws s) else None
  | Disconnect ws => Some (disconnect ws s)
  | RunStop =>
      if Nat.eqb (pending_stops s) 0 then None else Some (run_stop s)
  | LoopExit =>
      if loop_can_exit s then Some (loop_exit s) else None
  end.

Fixpoint run (es : list event) (s : state) : option state :=
  match es with
  | [] => Some s
  | e :: es' =>
      match step e s with
      | Some s' => run es' s'
      | None => None
      end
  end.

(** No task of the manager is waiting to run. *)
Definition quiescent (s : state) : Prop :=
  pending_stops s = 0%nat /\ pending_connects s = [].

(** All pending [stop_streaming()] tasks run. *)
Fixpoint drain (n : nat) (s : state) : state :=
  match n with
  | O => s
  | S n' => drain n' (run_stop s)
  end.

(** Attach and detach, each run to completion before the next
    operation starts. *)
Inductive operation : Type :=
| Attach (ws : websocket)
| Detach (ws : websocket).

Definition perform (op : operation) (s : state) : state :=
  match op with
  | Attach ws => connect ws s
  | Detach ws => let s' := disconnect ws s in drain (pending_stops s') s'
  end.

Definition perform_all (ops : list operation) (s : state) : state :=
  foldl (fun s op => perform op s) s ops.

(** ** broadcast *)

(** One [send_text] of a broadcast pass, with the registry as it was
    when the send was issued. *)
Record send_record : Type := SendRecord {
  target : websocket;
  payload : string;
  registry_at_send : gset websocket
}.

Section Broadcast.

Context {Message : Type}.
(** [json.dumps] *)
Variable json_dumps : Message -> string.
(** [websocket.send_text(text)]: completes or raises *)
Variable send_text : websocket -> string -> outcome unit.
(** What other tasks do to the registry while the send to a socket is
    awaited. *)
Variable meanwhile : websocket -> gset websocket -> gset websocket.

(** Body of the loop of lines 67-72, on the live registry, the set
    [disconnected] and the sends made so far. *)
Definition send_one (message_text : string)
    (acc : gset websocket * gset websocket * list send_record)
    (ws : websocket) : gset websocket * gset websocket * list send_record :=
  let '(registry, disconnected, sent) := acc in
  let sent := sent ++ [SendRecord ws message_text registry] in
  let registry := meanwhile ws registry in
  match send_text ws message_text with
  | Ok _ => (registry, disconnected, sent)
  | Raise _ => (registry, {[ws]} ∪ disconnected, sent)
  end.

(** Lines 64-72: the pass over a copy of the registry. *)
Definition send_pass (registry : gset websocket) (message : Message)
  : gset websocket * gset websocket * list send_record :=
  let message_text := json_dumps message in
  foldl (send_one message_text) (registry, ∅, [])
        (elements registry).

(** Lines 75-76 *)
Definition prune (registry disconnected : gset websocket) : gset websocket :=
  foldl (fun reg ws => reg ∖ {[ws]}) registry (elements disconnected).

(** [broadcast], lines 59-76: the registry afterwards and the sends. *)
Definition broadcast (registry : gset websocket) (message : Message)
  : gset websocket * list send_record :=
  if decide (registry = ∅) then (registry, [])
  else
    let '(live, disconnected, sent) := send_pass registry message in
    (prune live disconnected, sent).

End Broadcast.

(** ** _stream_loop *)

Inductive stream_message : Type :=
| VideoFrame (data : string)
| CameraWaiting.

(** One iteration of the loop of lines 106-142, given what
    [get_current_frame] returned: the new wait counter and the message
    broadcast, if any. *)
Definition stream_cycle (w : Camera.world) (camera_wait_count : nat)
    (frame : option Camera.frame)
  : outcome (nat * option stream_message) :=
  match frame with
  | Some f =>
      let camera_wait_count := 0%nat in
      square_frame ← Camera.resize_to_square w f 640;
      frame_base64 ← Camera.frame_to_base64 w square_frame 75;
      if negb (String.eqb frame_base64 "")
      then Ok (camera_wait_count, Some (VideoFrame frame_base64))
      else Ok (camera_wait_count, None)
  | None =>
      let camera_wait_count := (camera_wait_count + 1)%nat in
      if Nat.eqb (camera_wait_count mod 10) 1
      then Ok (camera_wait_count, Some CameraWaiting)
      else Ok (camera_wait_count, None)
  end.

(** The loop, over the frames seen in its successive iterations: the
    message broadcast in each.  An exception ends the loop (line 146). *)
Fixpoint stream_loop_from (w : Camera.world) (camera_wait_count : nat)
    (frames : list (option Camera.frame)) : list (option stream_message) :=
  match frames with
  | [] => []
  | frame :: frames' =>
      match stream_cycle w camera_wait_count frame with
      | Ok (count, message) => message :: stream_loop_from w count frames'
      | Raise _ => []
      end
  end.

Definition stream_loop (w : Camera.world) (frames : list (option Camera.frame))
  : list (option stream_message) :=
  stream_loop_from w 0 frames.

End Broadcaster.

(** * Inference: the detection entry points of defect_detection_service.py *)

Module Inference.
Import Camera.

(** The float tensor fed to the model, shape [[batch, channels, height,
    width]]. *)
Record input_tensor : Type := InputTensor {
  batch : nat;
  channels : nat;
  height : nat;
  width : nat;
  value : nat -> nat -> nat -> nat -> Q
}.

(** The calls of the detection service that the camera service does not
    make itself. *)
Record runtime : Type := Runtime {
  (** [cv2.imread(path)]: [None] when the file cannot be read *)
  imread : string -> option frame;
  (** [self.session.run([self.output_name], {self.input_name: tensor})] *)
  session_run : input_tensor -> outcome (list Detector.tensor);
  (** [cv2.getTextSize(text, FONT_HERSHEY_SIMPLEX, scale, thickness)[0]] *)
  getTextSize : string -> Q -> Z -> outcome (Z * Z);
  (** [f"{confidence:.2f}"] *)
  format_2f : Q -> string
}.

(** [cv2.cvtColor(img, COLOR_BGR2RGB)] and [COLOR_RGB2BGR]: the first and
    the third channel change places; an empty image is rejected. *)
Definition cvtColor (f : frame) : outcome frame :=
  if Nat.eqb (rows f) 0 || Nat.eqb (cols f) 0
  then Raise (Exception "cv2.error" "cvtColor: empty image")
  else Ok {| rows := rows f;
             cols := cols f;
             at_pixel := fun i j =>
               let '(c0, c1, c2) := at_pixel f i j in (c2, c1, c0) |}.

Definition channel (p : pixel) (c : nat) : Z :=
  let '(c0, c1, c2) := p in
  match c with
  | O => c0
  | S O => c1
  | _ => c2
  end.

(** [np.expand_dims(np.transpose(img.astype(np.float32) / 255.0,
    (2, 0, 1)), axis=0)] *)
Definition to_input_tensor (resized : frame) : input_tensor :=
  {| batch := 1;
     channels := 3;
     height := rows resized;
     width := cols resized;
     value := fun _ c i j =>
       (inject_Z (channel (at_pixel resized i j) c) / 255)%Q |}.

Section Service.

Variable w : world.
Variable rt : runtime.
Variable NMSBoxes : list Detector.bbox -> list Q -> Q -> Q -> list nat.

(** Body of the loop of [draw_defect_detections], lines 180-208. *)
Definition draw_one (image_copy : frame) (d : Detector.detection)
  : outcome frame :=
  let b := Detector.det_bbox d in
  let x1 := Detector.bx1 b in
  let y1 := Detector.by1 b in
  let x2 := Detector.bx2 b in
  let y2 := Detector.by2 b in
  let color := Detector.color d in
  image_copy ← cv2_rectangle w image_copy (x1, y1) (x2, y2) color 2;
  let label :=
    Detector.class_name d +:+ ": " +:+ format_2f rt (Detector.confidence d) in
  label_size ← getTextSize rt label (6 # 10)%Q 2;
  image_copy ← cv2_rectangle w image_copy (x1, y1 - snd label_size - 10)
                  (x1 + fst label_size, y1) color (-1);
  image_copy ← cv2_putText w image_copy label (x1, y1 - 5) (6 # 10)%Q
                  (255, 255, 255) 2;
  let defect_width := x2 - x1 in
  let defect_height := y2 - y1 in
  let size_info :=
    "Size: " +:+ pretty defect_width +:+ "x" +:+ pretty defect_height in
  cv2_putText w image_copy size_info (x1, y2 + 20) (4 # 10)%Q color 1.

(** [draw_defect_detections], lines 167-210 *)
Fixpoint draw_defect_detections (image : frame)
    (detections : list Detector.detection) : outcome frame :=
  match detections with
  | [] => Ok image
  | d :: detections' =>
      image ← draw_one image d;
      draw_defect_detections image detections'
  end.

(** [preprocess_image], lines 59-89, with the default input size *)
Definition preprocess_image (image_path : string)
  : outcome (input_tensor * frame * (Z * Z)) :=
  match imread rt image_path with
  | None => Raise (ValueError ("Cannot read image: " +:+ image_path))
  | Some image =>
      image_rgb ← cvtColor image;
      let '(original_height, original_width) := shape image_rgb in
      resized_image ← cv2_resize w image_rgb (640, 640);
      Ok (to_input_tensor resized_image, image_rgb,
          (Z.of_nat original_width, Z.of_nat original_height))
  end.

(** [detect_defects_from_file], lines 212-244; the handler logs and
    raises the exception again. *)
Definition detect_defects_from_file (image_path : string) (conf_threshold : Q)
  : outcome (frame * list Detector.detection) :=
  try_except
    ('(input_tensor, original_image, original_size) ←
        preprocess_image image_path;
     outputs ← session_run rt input_tensor;
     detections ← Detector.postprocess_detections NMSBoxes outputs
                     original_size (640, 640) conf_threshold;
     result_image ← draw_defect_detections original_image detections;
     Ok (result_image, detections))
    (fun e => Raise e).

(** [detect_defects_from_frame], lines 246-283 *)
Definition detect_defects_from_frame (f : frame) (conf_threshold : Q)
  : outcome (frame * list Detector.detection) :=
  try_except
    (frame_rgb ← cvtColor f;
     let '(original_height, original_width) := shape frame_rgb in
     resized_image ← cv2_resize w frame_rgb (640, 640);
     let input_tensor := to_input_tensor resized_image in
     outputs ← session_run rt input_tensor;
     detections ← Detector.postprocess_detections NMSBoxes outputs
                     (Z.of_nat original_width, Z.of_nat original_height)
                     (640, 640) conf_threshold;
     result_image ← draw_defect_detections frame_rgb detections;
     Ok (result_image, detections))
    (fun e => Raise e).

(** [DefectDetectionService.frame_to_base64], lines 285-310: unlike the
    camera's method of the same name it raises the exception again. *)
Definition frame_to_base64 (f : frame) (quality : Z) : outcome string :=
  try_except
    (frame_bgr ← cvtColor f;
     encode_jpeg_base64 w frame_bgr quality)
    (fun e => Raise e).

(** The detector object as the camera service calls it, line 174:
    [detect_defects_from_frame(square_frame)] with the default
    threshold. *)
Definition as_detector : detector :=
  fun f => detect_defects_from_frame f (5 # 10).

End Service.

End Inference.

(** * Acquisition: the capture loop of camera_service.py *)

Module Acquisition.
Import Camera.

(** The fields of [CameraService] the capture loop writes, around the
    fields that capture reads. *)
Record capture_state : Type := CaptureState {
  service : camera_service;
  frame_count : nat;
  last_capture_time : Q
}.

(** What one iteration of the loop gets from the device, from OpenCV and
    from the clock. *)
Record tick : Type := Tick {
  (** [self.camera.read()] *)
  read : outcome (bool * frame);
  (** [cv2.flip(frame, 1)] *)
  flip : frame -> outcome frame;
  (** [cv2.putText(frame, text, org, FONT_HERSHEY_SIMPLEX, scale, color, thickness)] *)
  putText : frame -> string -> Z * Z -> Q -> Z * Z * Z -> Z -> outcome frame;
  (** [time.strftime("%Y-%m-%d %H:%M:%S")] *)
  timestamp : string;
  (** [time.time()] *)
  time : Q
}.

(** [CameraService.__init__], with the counters of lines 29-30 *)
Definition init (w : world) : capture_state :=
  {| service := Camera.init w; frame_count := 0; last_capture_time := 0 |}.

Definition with_count (s : capture_state) (n : nat) : capture_state :=
  {| service := service s; frame_count := n;
     last_capture_time := last_capture_time s |}.

(** Lines 118-120: the update under the lock. *)
Definition publish_frame (s : capture_state) (f : frame) (now : Q)
  : capture_state :=
  {| service := publish (service s) f;
     frame_count := frame_count s;
     last_capture_time := now |}.

(** One pass through the body of the [while] of [_capture_loop], lines
    99-127.  An exception leaves the fields as they are at the point
    where it is raised. *)
Definition capture_iteration (t : tick) (s : capture_state) : capture_state :=
  match read t with
  | Raise _ => s
  | Ok (ret, f) =>
      if (ret : bool) then
        match flip t f with
        | Raise _ => s
        | Ok f =>
            let s := with_count s (frame_count s + 1) in
            let overlay :=
              f ← putText t f ("Frame: " +:+ pretty (frame_count s))
                     (10, 30) (7 # 10)%Q (0, 255, 0) 2;
              f ← putText t f (timestamp t) (10, 60) (5 # 10)%Q (0, 255, 0) 1;
              putText t f "LIVE VRS" (10, 90) (7 # 10)%Q (0, 255, 255) 2 in
            match overlay with
            | Raise _ => s
            | Ok f => publish_frame s f (time t)
            end
        end
      else s
  end.

(** [_capture_loop] over the iterations it makes. *)
Definition capture_loop (ticks : list tick) (s : capture_state) : capture_state :=
  foldl (fun s t => capture_iteration t s) s ticks.

(** [get_current_frame], lines 129-132 *)
Definition get_current_frame (s : capture_state) : option frame :=
  Camera.get_current_frame (service s).

(** What a reader that calls [get_current_frame] after each group of
    iterations sees. *)
Fixpoint observed (groups : list (list tick)) (s : capture_state)
  : list (option frame) :=
  match groups with
  | [] => []
  | ticks :: groups' =>
      let s' := capture_loop ticks s in
      get_current_frame s' :: observed groups' s'
  end.

End Acquisition.

(** * Handlers: the message handlers of websocket_service.py *)

Module Handlers.
Import Camera.

(** ** Values on the wire *)

(** A document as [json.loads] returns it. *)
#[warnings="-register-all"]
Inductive json : Type :=
| JNull
| JBool (b : bool)
| JNum (q : Q)
| JStr (s : string)
| JArr (l : list json)
| JObj (d : gmap string json).

(** [bool(j)] *)
Definition json_truthy (j : json) : bool :=
  match j with
  | JNull => false
  | JBool b => b
  | JNum q => negb (Qeq_bool q 0)
  | JStr s => negb (String.eqb s "")
  | JArr l => negb (Nat.eqb (length l) 0)
  | JObj d => negb (Nat.eqb (size d) 0)
  end.

(** [j == text] for a string literal [text] *)
Definition json_is (j : json) (text : string) : bool :=
  match j with
  | JStr s => String.eqb s text
  | _ => false
  end.

(** [d.get(key)] and [d.get(key, fallback)] *)
Definition get (d : gmap string json) (key : string) : json :=
  default JNull (d !! key).
Definition get_or (d : gmap string json) (key : string) (fallback : json) : json :=
  default fallback (d !! key).

(** A value stored in a dictionary that is sent to a client. *)
#[warnings="-register-all"]
Inductive field : Type :=
| OfRequest (j : json)
| OfCapture (v : pyval)
| Str (s : string)
| Bool (b : bool)
| Int (z : Z)
| Float (q : Q)
| Dict (d : gmap string field).

Abbreviation message := (gmap string field).

(** A numpy array occurs in the value. *)
Fixpoint pyval_has_array (v : pyval) : bool :=
  match v with
  | VImage _ => true
  | VDict d => map_fold (fun _ v' found => pyval_has_array v' || found) false d
  | _ => false
  end.

Fixpoint field_has_array (v : field) : bool :=
  match v with
  | OfCapture v' => pyval_has_array v'
  | Dict d => map_fold (fun _ v' found => field_has_array v' || found) false d
  | _ => false
  end.

Definition has_array (m : message) : bool := field_has_array (Dict m).

(** ** The camera service as the handlers see it *)

(** The module-level [camera_service] object and the sends made so far.
    [enabled_object] is the object stored in [detection_enabled]: the
    handlers store what the client sent, and capture reads its truth
    value. *)
Record context : Type := Context {
  camera : Acquisition.capture_state;
  enabled_object : json;
  outbox : list (Broadcaster.websocket * message * outcome string)
}.

(** An entry of [outbox]: the socket, the dictionary handed to
    [send_personal_message], and the text that reached the socket or the
    exception that was logged instead. *)
Definition attempt : Type := Broadcaster.websocket * message * outcome string.

(** The context after one more send. *)
Definition push (c : context) (a : attempt) : context :=
  {| camera := camera c;
     enabled_object := enabled_object c;
     outbox := outbox c ++ [a] |}.

Definition attempt_target (a : attempt) : Broadcaster.websocket := fst (fst a).
Definition attempt_message (a : attempt) : message := snd (fst a).
Definition attempt_result (a : attempt) : outcome string := snd a.

(** [camera_service.set_detection_enabled(enabled)], lines 301-304 of
    camera_service.py *)
Definition set_detection_enabled (enabled : json) (c : context) : context :=
  {| camera :=
       {| Acquisition.service :=
            Camera.set_detection_enabled
              (Acquisition.service (camera c)) (json_truthy enabled);
          Acquisition.frame_count := Acquisition.frame_count (camera c);
          Acquisition.last_capture_time :=
            Acquisition.last_capture_time (camera c) |};
     enabled_object := enabled;
     outbox := outbox c |}.

(** [is_detection_available], lines 306-308 *)
Definition is_detection_available (c : context) : bool :=
  bool_decide (is_Some (defect_detector (Acquisition.service (camera c)))).

(** [get_detection_status], lines 310-316.  A constructed
    [DefectDetectionService] has its [session] attribute. *)
Definition get_detection_status (c : context) : message :=
  <["available" := Bool (is_detection_available c)]>
    (<["enabled" := OfRequest (enabled_object c)]>
       (<["model_loaded" := Bool (is_detection_available c)]> ∅)).

(** [get_frame_info], lines 267-282 *)
Definition get_frame_info (c : context) : message :=
  match Acquisition.get_current_frame (camera c) with
  | None => <["status" := Str "no_frame"]> ∅
  | Some f =>
      <["status" := Str "active"]>
        (<["frame_count" := Int (Z.of_nat (Acquisition.frame_count (camera c)))]>
           (<["resolution" :=
                Dict (<["width" := Int (Z.of_nat (cols f))]>
                        (<["height" := Int (Z.of_nat (rows f))]> ∅))]>
              (<["last_update" := Float (Acquisition.last_capture_time (camera c))]>
                 (<["is_square" := Bool (Nat.eqb (rows f) (cols f))]> ∅))))
  end.

(** ** Handlers: code that may raise and that changes the context *)

Definition action (A : Type) : Type := context -> outcome A * context.

#[global] Instance action_ret : MRet action := fun A a c => (Ok a, c).
#[global] Instance action_bind : MBind action :=
  fun A B k m c =>
    match m c with
    | (Ok a, c') => k a c'
    | (Raise e, c') => (Raise e, c')
    end.

(** A call that may raise and leaves the context alone. *)
Definition call {A} (o : outcome A) : action A := fun c => (o, c).

(** The context as it is now. *)
Definition current : action context := fun c => (Ok c, c).

Definition update (f : context -> context) : action unit :=
  fun c => (Ok tt, f c).

(** [try: body except Exception as e: handler e] *)
Definition try_action {A} (body : action A) (handler : exn -> action A)
  : action A :=
  fun c =>
    match body c with
    | (Ok a, c') => (Ok a, c')
    | (Raise e, c') => handler e c'
    end.

Definition AttributeError := Exception "AttributeError".

Section Manager.

Variable w : world.
(** [json.loads] *)
Variable json_loads : string -> outcome json.
(** [json.dumps] *)
Variable json_dumps : message -> outcome string.
(** [websocket.send_text(text)] *)
Variable send_text : Broadcaster.websocket -> string -> outcome unit.
(** [str(j)], as an f-string formats a value of the request *)
Variable json_str : json -> string.
(** [time.time()] *)
Variable time_time : Q.

(** [send_personal_message], lines 52-57 *)
Definition send_personal_message (m : message) (ws : Broadcaster.websocket)
  : action unit :=
  update (fun c =>
    push c (ws, m, text ← json_dumps m; _ ← send_text ws text; Ok text)).

(** The [filename] argument of a capture, from the value of the request. *)
Definition filename_of (j : json) : option string :=
  match j with
  | JNull => None
  | JStr s => Some s
  | _ => Some (json_str j)
  end.

(** [_handle_capture_request], lines 171-212.  The logging after the
    send (lines 198-202) reads keys that were read before and does not
    raise. *)
Definition handle_capture_request (ws : Broadcaster.websocket)
    (client_id : string) (data : gmap string json) : action unit :=
  try_action
    (let filename := get data "filename" in
     let enable_detection := get_or data "enable_detection" (JBool true) in
     c ← current;
     let self := Acquisition.service (camera c) in
     capture_result ←
       call (if json_truthy enable_detection && is_detection_available c
             then capture_with_detection_analysis w self (filename_of filename)
             else capture_image w self (filename_of filename) false);
     success ← call (getitem capture_result "success");
     text ← call (getitem capture_result "message");
     filepath ← call (getitem capture_result "filepath");
     image_data ← call (getitem capture_result "base64_image");
     let response : message :=
       <["type" := Str "capture_response"]>
         (<["request_id" := OfRequest (get data "request_id")]>
            (<["success" := OfCapture success]>
               (<["message" := OfCapture text]>
                  (<["filepath" := OfCapture filepath]>
                     (<["image_data" := OfCapture image_data]>
                        (<["detection_results" :=
                             OfCapture (default VNone
                                          (capture_result !! "detection_results"))]>
                           (<["analysis" :=
                                OfCapture (default VNone
                                             (capture_result !! "analysis"))]>
                              (<["timestamp" := Float time_time]> ∅)))))))) in
     send_personal_message response ws)
    (fun e =>
       let error_response : message :=
         <["type" := Str "capture_response"]>
           (<["request_id" := OfRequest (get data "request_id")]>
              (<["success" := Bool false]>
                 (<["message" := Str ("Capture error: " +:+ exn_str e)]>
                    (<["timestamp" := Float time_time]> ∅)))) in
       send_personal_message error_response ws).

(** [_handle_status_request], lines 214-229 *)
Definition handle_status_request (self : Broadcaster.state)
    (ws : Broadcaster.websocket) (client_id : string) : action unit :=
  try_action
    (c ← current;
     let status : message :=
       <["type" := Str "status_response"]>
         (<["camera_info" := Dict (get_frame_info c)]>
            (<["detection_status" := Dict (get_detection_status c)]>
               (<["connections" :=
                    Int (Z.of_nat (size (Broadcaster.active_connections self)))]>
                  (<["streaming" := Bool (Broadcaster.is_streaming self)]>
                     (<["server_time" := Float time_time]> ∅))))) in
     send_personal_message status ws)
    (fun _ => mret tt).

(** [_handle_ping], lines 231-244 *)
Definition handle_ping (ws : Broadcaster.websocket) (client_id : string)
    (data : gmap string json) : action unit :=
  try_action
    (let pong : message :=
       <["type" := Str "pong"]>
         (<["timestamp" := Float time_time]>
            (<["client_timestamp" := OfRequest (get data "timestamp")]>
               (<["client_id" := Str client_id]> ∅))) in
     send_personal_message pong ws)
    (fun _ => mret tt).

(** [_handle_detection_setting], lines 246-274 *)
Definition handle_detection_setting (ws : Broadcaster.websocket)
    (client_id : string) (data : gmap string json) : action unit :=
  try_action
    (let enabled := get_or data "enabled" (JBool true) in
     _ ← update (set_detection_enabled enabled);
     c ← current;
     let response : message :=
       <["type" := Str "detection_setting_response"]>
         (<["request_id" := OfRequest (get data "request_id")]>
            (<["success" := Bool true]>
               (<["enabled" := OfRequest enabled]>
                  (<["detection_status" := Dict (get_detection_status c)]>
                     (<["message" :=
                          Str ("Defect detection " +:+
                               (if json_truthy enabled
                                then "enabled" else "disabled"))]>
                        (<["timestamp" := Float time_time]> ∅)))))) in
     send_personal_message response ws)
    (fun e =>
       let error_response : message :=
         <["type" := Str "detection_setting_response"]>
           (<["request_id" := OfRequest (get data "request_id")]>
              (<["success" := Bool false]>
                 (<["message" :=
                      Str ("Error changing detection setting: " +:+ exn_str e)]>
                    (<["timestamp" := Float time_time]> ∅)))) in
       send_personal_message error_response ws).

(** [handle_message], lines 149-169.  [data.get] exists on a decoded
    object only; both [except] clauses log and return. *)
Definition handle_message (self : Broadcaster.state)
    (ws : Broadcaster.websocket) (client_id : string) (text : string)
  : action unit :=
  try_action
    (data ← call (json_loads text);
     match data with
     | JObj d =>
         let message_type := get d "type" in
         if json_is message_type "capture_image"
         then handle_capture_request ws client_id d
         else if json_is message_type "get_status"
         then handle_status_request self ws client_id
         else if json_is message_type "ping"
         then handle_ping ws client_id d
         else if json_is message_type "set_detection"
         then handle_detection_setting ws client_id d
         else mret tt
     | _ => call (Raise (AttributeError "object has no attribute 'get'"))
     end)
    (fun _ => mret tt).

End Manager.

End Handlers.

(** * Serial: connects, disconnects and broadcast passes, one at a time *)

Module Serial.
Import Broadcaster.

(** A pass of [broadcast] in which the sends to the sockets of [failed]
    raise: these sockets are discarded from the registry (lines 75-76).
    The stream loop then tests its [while] condition (line 106) and
    returns when it finds the registry empty; the flag is not touched. *)
Definition broadcast_pass (failed : gset websocket) (s : state) : state :=
  let s' :=
    {| active_connections := active_connections s ∖ failed;
       is_streaming := is_streaming s;
       stream_task := stream_task s;
       loop_tasks := loop_tasks s;
       pending_stops := pending_stops s;
       pending_connects := pending_connects s |} in
  if loop_can_exit s' then loop_exit s' else s'.

(** What happens to the manager, one thing at a time: a connect or a
    disconnect run to completion together with the stop it schedules, or
    a broadcast pass of the stream loop. *)
Inductive activity : Type :=
| Operation (op : operation)
| BroadcastPass (failed : gset websocket).

Definition act (a : activity) (s : state) : state :=
  match a with
  | Operation op => perform op s
  | BroadcastPass failed => broadcast_pass failed s
  end.

Definition act_all (acts : list activity) (s : state) : state :=
  foldl (fun s a => act a s) s acts.

End Serial.

(** * Verification of the detector *)

Module DetectorSpec.
Import Detector.

(** ** Arithmetic of decoding *)

Lemma Qge_bool_iff (a b : Q) : Qge_bool a b = true <-> (b <= a)%Q.
Proof. unfold Qge_bool. apply Qle_bool_iff. Qed.

Lemma Qge_bool_total (a b : Q) : Qge_bool a b = false -> (a <= b)%Q.
Proof.
  unfold Qge_bool. intros H. apply Qlt_le_weak, Qnot_le_lt.
  intros Hle. apply Qle_bool_iff in Hle. congruence.
Qed.

Lemma clamp_bounds (v bound : Z) : 0 <= bound -> 0 <= clamp v bound <= bound.
Proof. unfold clamp. lia. Qed.

Lemma clamp_mono (u v bound : Z) : u <= v -> clamp u bound <= clamp v bound.
Proof. unfold clamp. lia. Qed.

Lemma py_int_nonneg (q : Q) : (0 <= q)%Q -> py_int q = Qfloor q.
Proof.
  destruct q as [n d]. unfold Qle, py_int, Qfloor. simpl. intros H.
  apply Z.quot_div_nonneg; lia.
Qed.

Lemma py_int_neg (q : Q) : (q <= 0)%Q -> py_int q = Qceiling q.
Proof.
  destruct q as [n d]. unfold Qle, py_int, Qceiling, Qfloor. simpl. intros H.
  rewrite <- (Z.opp_involutive n) at 1. rewrite Z.quot_opp_l by lia.
  f_equal. apply Z.quot_div_nonneg; lia.
Qed.

(** [int] is monotone. *)
Lemma py_int_mono (p q : Q) : (p <= q)%Q -> py_int p <= py_int q.
Proof.
  intros Hpq.
  destruct (Qlt_le_dec p 0) as [Hp | Hp]; destruct (Qlt_le_dec q 0) as [Hq | Hq].
  - rewrite !py_int_neg by (apply Qlt_le_weak; assumption).
    apply Qceiling_resp_le; assumption.
  - rewrite py_int_neg by (apply Qlt_le_weak; assumption).
    rewrite py_int_nonneg by assumption.
    assert (H1 : Qceiling p <= 0).
    { change 0 with (Qceiling 0). apply Qceiling_resp_le, Qlt_le_weak, Hp. }
    assert (H2 : 0 <= Qfloor q).
    { change 0 with (Qfloor 0). apply Qfloor_resp_le, Hq. }
    lia.
  - exfalso. apply (Qlt_irrefl 0).
    apply Qle_lt_trans with q; [| assumption ].
    apply Qle_trans with p; assumption.
  - rewrite !py_int_nonneg by assumption. apply Qfloor_resp_le; assumption.
Qed.

Lemma half_extent_le (c e s : Q) :
  (0 <= e)%Q -> (0 <= s)%Q -> ((c - e / 2) * s <= (c + e / 2) * s)%Q.
Proof.
  intros He Hs. apply Qmult_le_compat_r; [| assumption ].
  assert (Hh : (0 <= e / 2)%Q).
  { apply Qle_shift_div_l; [ reflexivity | ]. rewrite Qmult_0_l. assumption. }
  apply Qle_trans with c.
  - rewrite <- (Qplus_0_r c) at 2. unfold Qminus.
    apply Qplus_le_compat; [ apply Qle_refl | ].
    apply (Qopp_le_compat 0). assumption.
  - rewrite <- (Qplus_0_r c) at 1.
    apply Qplus_le_compat; [ apply Qle_refl | assumption ].
Qed.

Lemma true_div_nonneg (a b : Z) (q : Q) :
  0 <= a -> 0 < b -> true_div a b = Ok q -> (0 <= q)%Q.
Proof.
  unfold true_div. intros Ha Hb. destruct (Z.eqb_spec b 0); [ lia | ].
  intros [= <-]. apply Qle_shift_div_l.
  - change 0%Q with (inject_Z 0). rewrite <- Zlt_Qlt. assumption.
  - rewrite Qmult_0_l. change 0%Q with (inject_Z 0). rewrite <- Zle_Qle. assumption.
Qed.

(** ** What a returned detection satisfies *)

(** every coordinate lies in the frame *)
Definition in_frame (original_width original_height : Z) (d : detection) : Prop :=
  let b := det_bbox d in
  (0 <= bx1 b <= original_width /\ 0 <= bx2 b <= original_width)
  /\ (0 <= by1 b <= original_height /\ 0 <= by2 b <= original_height).

(** the corners are ordered *)
Definition ordered (d : detection) : Prop :=
  bx1 (det_bbox d) <= bx2 (det_bbox d) /\ by1 (det_bbox d) <= by2 (det_bbox d).

Definition confident (conf_threshold : Q) (d : detection) : Prop :=
  (conf_threshold <= confidence d)%Q.

(** centre-box parameters with non-negative width and height *)
Definition nonneg_extent (row : list Q) : Prop :=
  (0 <= nth 2 row 0)%Q /\ (0 <= nth 3 row 0)%Q.

Lemma decode_candidate_in_frame ow oh sx sy thr row d :
  0 <= ow -> 0 <= oh ->
  decode_candidate ow oh sx sy thr row = Ok (Some d) ->
  in_frame ow oh d /\ confident thr d.
Proof.
  intros How Hoh. unfold decode_candidate.
  destruct row as [| cx [| cy [| w [| h scores]]]]; try discriminate.
  destruct (np_argmax scores) as [cid |]; [| discriminate ]. simpl.
  destruct (Qge_bool (nth cid scores 0%Q) thr) eqn:Hc; [| discriminate ].
  destruct (cid <? size defect_class_names)%nat; [| discriminate ].
  simpl. intros [= <-]. unfold in_frame, confident. simpl.
  apply Qge_bool_iff in Hc.
  repeat split; try assumption; apply clamp_bounds; assumption.
Qed.

Lemma decode_candidate_ordered ow oh sx sy thr row d :
  (0 <= sx)%Q -> (0 <= sy)%Q -> nonneg_extent row ->
  decode_candidate ow oh sx sy thr row = Ok (Some d) ->
  ordered d.
Proof.
  intros Hsx Hsy [Hw Hh]. unfold decode_candidate.
  destruct row as [| cx [| cy [| w [| h scores]]]]; try discriminate.
  simpl in Hw, Hh.
  destruct (np_argmax scores) as [cid |]; [| discriminate ]. simpl.
  destruct (Qge_bool (nth cid scores 0%Q) thr && (cid <? size defect_class_names)%nat);
    [| discriminate ].
  intros [= <-]. unfold ordered. simpl.
  split; apply clamp_mono, py_int_mono, half_extent_le; assumption.
Qed.

Lemma decode_loop_in_frame ow oh sx sy thr rows ds :
  0 <= ow -> 0 <= oh ->
  decode_loop ow oh sx sy thr rows = Ok ds ->
  Forall (fun d => in_frame ow oh d /\ confident thr d) ds.
Proof.
  intros How Hoh. revert ds. induction rows as [| row rows IH]; simpl; intros ds.
  - intros [= <-]. constructor.
  - destruct (decode_candidate ow oh sx sy thr row) as [d |] eqn:Hd; [| discriminate ].
    simpl. destruct (decode_loop ow oh sx sy thr rows) as [ds' |]; [| discriminate ].
    simpl. intros [= <-]. specialize (IH ds' eq_refl).
    destruct d as [d |]; [| assumption ].
    constructor; [| assumption ].
    eapply decode_candidate_in_frame; eassumption.
Qed.

Lemma decode_loop_ordered ow oh sx sy thr rows ds :
  (0 <= sx)%Q -> (0 <= sy)%Q -> Forall nonneg_extent rows ->
  decode_loop ow oh sx sy thr rows = Ok ds ->
  Forall ordered ds.
Proof.
  intros Hsx Hsy Hrows. revert ds.
  induction Hrows as [| row rows Hrow Hrows IH]; simpl; intros ds.
  - intros [= <-]. constructor.
  - destruct (decode_candidate ow oh sx sy thr row) as [d |] eqn:Hd; [| discriminate ].
    simpl. destruct (decode_loop ow oh sx sy thr rows) as [ds' |]; [| discriminate ].
    simpl. intros [= <-]. specialize (IH ds' eq_refl).
    destruct d as [d |]; [| assumption ].
    constructor; [| assumption ].
    apply (decode_candidate_ordered ow oh sx sy thr row); assumption.
Qed.

(** Whatever indices the suppression returns, the detections handed back
    are among the decoded ones. *)
Lemma for_each_index_incl {A} (l : list A) (indices : list nat) (out : list A) :
  for_each (py_index l) indices = Ok out -> incl out l.
Proof.
  revert out. induction indices as [| i indices IH]; simpl; intros out.
  - intros [= <-]. intros x [].
  - destruct (py_index l i) as [a |] eqn:Hi; [| discriminate ].
    simpl. destruct (for_each (py_index l) indices) as [bs |]; [| discriminate ].
    simpl. intros [= <-]. intros x [<- | Hx].
    + unfold py_index in Hi. destruct (nth_error l i) as [a' |] eqn:Hn; [| discriminate ].
      injection Hi as ->. eapply nth_error_In; eassumption.
    + apply (IH bs eq_refl). assumption.
Qed.

Lemma apply_nms_incl nms thr ds out :
  apply_nms nms thr ds = Ok out -> incl out ds.
Proof.
  unfold apply_nms. destruct (0 <? length ds)%nat.
  - destruct (0 <? length _)%nat.
    + apply for_each_index_incl.
    + intros [= <-]. intros x [].
  - intros [= <-]. intros x [].
Qed.

Lemma Forall_incl {A} (P : A -> Prop) (l k : list A) :
  incl k l -> Forall P l -> Forall P k.
Proof.
  intros Hi Hl. apply List.Forall_forall. intros x Hx.
  eapply List.Forall_forall in Hl; [ exact Hl | apply Hi, Hx ].
Qed.

Lemma postprocess_inv nms outputs ow oh iw ih thr out :
  postprocess_detections nms outputs (ow, oh) (iw, ih) thr = Ok out ->
  exists rows sx sy ds,
    candidates outputs = Ok rows /\
    true_div ow iw = Ok sx /\ true_div oh ih = Ok sy /\
    decode_loop ow oh sx sy thr rows = Ok ds /\
    apply_nms nms thr ds = Ok out.
Proof.
  unfold postprocess_detections, candidates.
  destruct (py_index outputs 0) as [p |]; [| discriminate ]. simpl.
  destruct (true_div ow iw) as [sx |]; [| discriminate ]. simpl.
  destruct (true_div oh ih) as [sy |]; [| discriminate ]. simpl.
  destruct (py_index (np_transpose_021 p) 0) as [rows |]; [| discriminate ]. simpl.
  destruct (decode_loop ow oh sx sy thr rows) as [ds |] eqn:Hd; [| discriminate ].
  simpl. intros H. exists rows, sx, sy, ds. repeat split; assumption.
Qed.

(** The part of the box invariant that needs nothing of the model output:
    every coordinate of a returned box lies in the frame, and the
    confidence is not below the threshold. *)
Lemma postprocess_detections_in_frame nms outputs ow oh iw ih thr out :
  0 <= ow -> 0 <= oh ->
  postprocess_detections nms outputs (ow, oh) (iw, ih) thr = Ok out ->
  Forall (fun d => in_frame ow oh d /\ confident thr d) out.
Proof.
  intros How Hoh H.
  destruct (postprocess_inv _ _ _ _ _ _ _ _ H) as (rows & sx & sy & ds & _ & _ & _ & Hd & Hn).
  eapply Forall_incl; [ eapply apply_nms_incl; eassumption | ].
  eapply decode_loop_in_frame; eassumption.
Qed.

(** [postprocess_detections] returns whenever the output holds a batch,
    the input size is not zero and every candidate has its four box
    parameters and at least one class score. *)
Lemma decode_loop_returns ow oh sx sy thr rows :
  Forall (fun row => (5 <= length row)%nat) rows ->
  exists ds, decode_loop ow oh sx sy thr rows = Ok ds.
Proof.
  induction 1 as [| row rows Hrow _ [ds IH]]; simpl; [ eauto | ].
  destruct row as [| cx [| cy [| w [| h [| s0 scores]]]]]; simpl in Hrow; try lia.
  unfold decode_candidate, np_argmax. simpl.
  destruct (_ && _); simpl; rewrite IH; simpl; eauto.
Qed.

Lemma postprocess_detections_returns nms outputs ow oh iw ih thr rows :
  candidates outputs = Ok rows ->
  Forall (fun row => (5 <= length row)%nat) rows ->
  iw <> 0 -> ih <> 0 ->
  (forall ds, exists out, apply_nms nms thr ds = Ok out) ->
  exists out, postprocess_detections nms outputs (ow, oh) (iw, ih) thr = Ok out.
Proof.
  unfold candidates, postprocess_detections. intros Hc Hrows Hiw Hih Hnms.
  destruct (py_index outputs 0) as [p |]; [| discriminate ]. simpl in *.
  unfold true_div.
  destruct (Z.eqb_spec iw 0); [ contradiction | ].
  destruct (Z.eqb_spec ih 0); [ contradiction | ]. simpl.
  rewrite Hc. simpl.
  destruct (decode_loop_returns ow oh (inject_Z ow / inject_Z iw)
              (inject_Z oh / inject_Z ih) thr rows Hrows) as [ds ->].
  simpl. apply Hnms.
Qed.

(** The sample tensor used below: one candidate, centre (100, 100), width
    -50, height 20, a single class score 0.9. *)
Definition flipped_output : list tensor :=
  [ [ [ [100%Q]; [100%Q]; [(-50)%Q]; [20%Q]; [(9 # 10)%Q] ] ] ].

(** A tensor with two well-formed candidates. *)
Definition sample_output : list tensor :=
  [ [ [ [100%Q; 300%Q]; [100%Q; 200%Q]; [50%Q; 40%Q]; [20%Q; 80%Q];
        [(9 # 10)%Q; (2 # 10)%Q]; [(1 # 10)%Q; (7 # 10)%Q] ] ] ].

(** C1, as stated, fails: a candidate with a negative width comes back
    with [x2 < x1] (here [x1 = 125], [x2 = 75]) on a 640 x 640 frame. *)
Lemma postprocess_detections_unordered_box :
  exists d,
    postprocess_detections NMSBoxes flipped_output (640, 640) (640, 640) (1 # 2)
      = Ok [d]
    /\ bx1 (det_bbox d) = 125 /\ bx2 (det_bbox d) = 75
    /\ ~ (0 <= bx1 (det_bbox d) <= bx2 (det_bbox d)
          /\ bx2 (det_bbox d) <= 640).
Proof.
  eexists. split; [ vm_compute; reflexivity | ].
  simpl. repeat split; lia.
Qed.

(** C1 (amended): for a frame of non-negative size, a positive input size
    and a model output whose candidates have non-negative width and
    height, every detection returned by [postprocess_detections] has
    [0 <= x1 <= x2 <= width], [0 <= y1 <= y2 <= height] and a confidence
    not below the threshold, whatever indices the suppression selects. *)
Theorem postprocess_detections_box_invariant
    (nms : list bbox -> list Q -> Q -> Q -> list nat)
    (outputs : list tensor) (ow oh iw ih : Z) (thr : Q)
    (out : list detection) :
  0 <= ow -> 0 <= oh -> 0 < iw -> 0 < ih ->
  (forall rows, candidates outputs = Ok rows -> Forall nonneg_extent rows) ->
  postprocess_detections nms outputs (ow, oh) (iw, ih) thr = Ok out ->
  Forall (fun d =>
            0 <= bx1 (det_bbox d) <= bx2 (det_bbox d)
            /\ bx2 (det_bbox d) <= ow
            /\ 0 <= by1 (det_bbox d) <= by2 (det_bbox d)
            /\ by2 (det_bbox d) <= oh
            /\ (thr <= confidence d)%Q) out.
Proof.
  intros How Hoh Hiw Hih Hrows H.
  pose proof (postprocess_detections_in_frame _ _ _ _ _ _ _ _ How Hoh H) as Hf.
  destruct (postprocess_inv _ _ _ _ _ _ _ _ H)
    as (rows & sx & sy & ds & Hc & Hsx & Hsy & Hd & Hn).
  assert (Ho : Forall ordered out).
  { eapply Forall_incl; [ eapply apply_nms_incl; eassumption | ].
    apply (decode_loop_ordered ow oh sx sy thr rows); try assumption.
    - eapply true_div_nonneg; [ | | exact Hsx ]; assumption.
    - eapply true_div_nonneg; [ | | exact Hsy ]; assumption.
    - apply Hrows, Hc. }
  rewrite List.Forall_forall in *. intros d Hin.
  destruct (Hf d Hin) as [[[Hx1 Hx2] [Hy1 Hy2]] Hconf].
  destruct (Ho d Hin) as [Hox Hoy].
  unfold confident in Hconf. repeat split; try assumption; lia.
Qed.

Lemma postprocess_detections_box_invariant_witness :
  exists out,
    postprocess_detections NMSBoxes sample_output (640, 480) (640, 640) (1 # 2)
      = Ok out
    /\ length out = 2%nat
    /\ Forall (fun d =>
            0 <= bx1 (det_bbox d) <= bx2 (det_bbox d)
            /\ bx2 (det_bbox d) <= 640
            /\ 0 <= by1 (det_bbox d) <= by2 (det_bbox d)
            /\ by2 (det_bbox d) <= 480
            /\ (1 # 2 <= confidence d)%Q) out.
Proof.
  eexists. split; [ vm_compute; reflexivity | ]. split; [ reflexivity | ].
  apply (postprocess_detections_box_invariant
           NMSBoxes sample_output 640 480 640 640 (1 # 2)); try lia.
  - intros rows Hr. vm_compute in Hr. injection Hr as <-.
    repeat constructor; discriminate.
  - vm_compute. reflexivity.
Defined.

(** ** Suppression *)

Section SuppressionFacts.

Context {A : Type}.
Variable score : A -> Q.
Variable box : A -> bbox.
Variable overlap : bbox -> bbox -> Q.

Local Abbreviation insert_desc := (insert_desc score).
Local Abbreviation sort_desc := (sort_desc score).
Local Abbreviation compatible := (compatible box overlap).
Local Abbreviation greedy := (greedy box overlap).
Local Abbreviation suppress := (suppress score box overlap).

(** [x] does not score below [y] *)
Definition before (x y : A) : Prop := (score y <= score x)%Q.

Lemma before_trans x y z : before x y -> before y z -> before x z.
Proof using Type. unfold before. intros Hxy Hyz. eapply Qle_trans; eassumption. Qed.

Lemma insert_desc_In x y l : In y (insert_desc x l) <-> y = x \/ In y l.
Proof using Type.
  clear box overlap. induction l as [| z l IH]; simpl.
  - intuition congruence.
  - destruct (Qge_bool (score x) (score z)); simpl; [ intuition congruence | ].
    rewrite IH. intuition congruence.
Qed.

Lemma insert_desc_sorted x l :
  StronglySorted before l -> StronglySorted before (insert_desc x l).
Proof using Type.
  induction 1 as [| z l Hl IH Hz]; simpl.
  - repeat constructor.
  - destruct (Qge_bool (score x) (score z)) eqn:Hxz.
    + apply Qge_bool_iff in Hxz.
      constructor; [ constructor; assumption | ].
      constructor; [ exact Hxz | ].
      eapply List.Forall_impl; [| exact Hz ].
      intros a Ha. eapply before_trans; eassumption.
    + apply Qge_bool_total in Hxz.
      constructor; [ exact IH | ].
      apply List.Forall_forall. intros a Ha.
      apply insert_desc_In in Ha. destruct Ha as [-> | Ha]; [ exact Hxz | ].
      eapply List.Forall_forall in Hz; eassumption.
Qed.

Lemma sort_desc_sorted l : StronglySorted before (sort_desc l).
Proof using Type.
  induction l as [| x l IH]; simpl; [ constructor | ].
  apply insert_desc_sorted, IH.
Qed.

Lemma sort_desc_In x l : In x (sort_desc l) <-> In x l.
Proof using Type.
  clear box overlap. induction l as [| y l IH]; simpl; [ tauto | ].
  rewrite insert_desc_In, IH. intuition congruence.
Qed.

(** Sorting is stable: a list already in descending order is returned
    as it is. *)
Lemma sort_desc_fixed l : StronglySorted before l -> sort_desc l = l.
Proof using Type.
  induction 1 as [| x l Hl IH Hx]; simpl; [ reflexivity | ].
  rewrite IH. destruct Hx as [| y l Hxy _]; simpl; [ reflexivity | ].
  apply Qge_bool_iff in Hxy. rewrite Hxy. reflexivity.
Qed.

Lemma filter_sorted (f : A -> bool) l :
  StronglySorted before l -> StronglySorted before (List.filter f l).
Proof using Type.
  clear box overlap.
  induction 1 as [| x l Hl IH Hx]; simpl; [ constructor | ].
  destruct (f x); [| exact IH ].
  constructor; [ exact IH | ].
  apply List.Forall_forall. intros a Ha. apply List.filter_In in Ha.
  eapply List.Forall_forall in Hx; [ exact Hx | tauto ].
Qed.

Lemma filter_fixed (f : A -> bool) l :
  Forall (fun x => f x = true) l -> List.filter f l = l.
Proof using Type.
  induction 1 as [| x l Hx _ IH]; simpl; [ reflexivity | ].
  rewrite Hx, IH. reflexivity.
Qed.

(** Induction along the recursion of [greedy]. *)
Lemma greedy_induction (t : Q) (P : list A -> list A -> Prop) :
  P [] [] ->
  (forall x rest,
      P (List.filter (compatible t x) rest)
        (greedy t (List.filter (compatible t x) rest)) ->
      P (x :: rest) (x :: greedy t (List.filter (compatible t x) rest))) ->
  forall l, P l (greedy t l).
Proof using Type.
  intros Hnil Hcons l. funelim (greedy t l); simp greedy.
  apply Hcons. apply H; assumption.
Qed.

Lemma greedy_In t x l : In x (greedy t l) -> In x l.
Proof using Type.
  clear score.
  apply (greedy_induction t (fun l k => In x k -> In x l)); [ tauto | ].
  intros y rest IH [-> | Hin]; [ left; reflexivity | ].
  right. apply IH in Hin. apply List.filter_In in Hin. tauto.
Qed.

Lemma greedy_sorted t l :
  StronglySorted before l -> StronglySorted before (greedy t l).
Proof using Type.
  apply (greedy_induction t
           (fun l k => StronglySorted before l -> StronglySorted before k)).
  - intros _. constructor.
  - intros x rest IH Hs. inversion Hs as [| ? ? Hrest Hx]; subst.
    constructor.
    + apply IH, filter_sorted, Hrest.
    + apply List.Forall_forall. intros a Ha. apply greedy_In in Ha.
      apply List.filter_In in Ha.
      eapply List.Forall_forall in Hx; [ exact Hx | tauto ].
Qed.

(** Every kept box is compatible with every box kept before it. *)
Definition pairwise_compatible (t : Q) (l : list A) : Prop :=
  ForallOrdPairs (fun x y => compatible t x y = true) l.

Lemma greedy_pairwise t l : pairwise_compatible t (greedy t l).
Proof using Type.
  clear score.
  apply (greedy_induction t (fun _ k => pairwise_compatible t k)).
  - constructor.
  - intros x rest IH. constructor; [| exact IH ].
    apply List.Forall_forall. intros a Ha. apply greedy_In in Ha.
    apply List.filter_In in Ha. tauto.
Qed.

Lemma greedy_fixed t l : pairwise_compatible t l -> greedy t l = l.
Proof using Type.
  apply (greedy_induction t (fun l k => pairwise_compatible t l -> k = l)).
  - reflexivity.
  - intros x rest IH Hp. inversion Hp as [| ? ? Hx Hrest]; subst.
    rewrite (filter_fixed _ _ Hx) in *. rewrite (IH Hrest). reflexivity.
Qed.

Lemma suppress_In st nt x l :
  In x (suppress st nt l) -> In x l /\ Qge_bool (score x) st = true.
Proof using Type.
  unfold Detector.suppress. intros Hin.
  apply greedy_In, sort_desc_In, List.filter_In in Hin. exact Hin.
Qed.

(** Suppression returns a fixed point of itself. *)
Lemma suppress_idempotent st nt l :
  suppress st nt (suppress st nt l) = suppress st nt l.
Proof using Type.
  set (k := suppress st nt l).
  assert (Hk : Forall (fun x => Qge_bool (score x) st = true) k).
  { apply List.Forall_forall. intros x Hx. apply suppress_In in Hx. tauto. }
  assert (Hs : StronglySorted before k).
  { apply greedy_sorted, sort_desc_sorted. }
  assert (Hp : pairwise_compatible nt k) by apply greedy_pairwise.
  unfold Detector.suppress at 1.
  rewrite (filter_fixed _ _ Hk), (sort_desc_fixed _ Hs).
  apply greedy_fixed, Hp.
Qed.

End SuppressionFacts.

(** Suppression commutes with a relabelling of the candidates that keeps
    scores and boxes. *)
Section SuppressionMap.

Context {A B : Type}.
Variables (scoreA : A -> Q) (boxA : A -> bbox).
Variables (scoreB : B -> Q) (boxB : B -> bbox).
Variable overlap : bbox -> bbox -> Q.
Variable g : A -> B.
Hypothesis score_g : forall a, scoreB (g a) = scoreA a.
Hypothesis box_g : forall a, boxB (g a) = boxA a.

Lemma filter_map (f : B -> bool) (l : list A) :
  List.filter f (map g l) = map g (List.filter (fun a => f (g a)) l).
Proof.
  induction l as [| a l IH]; simpl; [ reflexivity | ].
  rewrite IH. destruct (f (g a)); reflexivity.
Qed.

Lemma insert_desc_map x l :
  insert_desc scoreB (g x) (map g l) = map g (insert_desc scoreA x l).
Proof.
  induction l as [| y l IH]; simpl; [ reflexivity | ].
  rewrite !score_g. destruct (Qge_bool (scoreA x) (scoreA y)); simpl;
    [ reflexivity | rewrite IH; reflexivity ].
Qed.

Lemma sort_desc_map l :
  sort_desc scoreB (map g l) = map g (sort_desc scoreA l).
Proof.
  induction l as [| x l IH]; simpl; [ reflexivity | ].
  rewrite IH. apply insert_desc_map.
Qed.

Lemma greedy_map t l :
  greedy boxB overlap t (map g l) = map g (greedy boxA overlap t l).
Proof.
  apply (greedy_induction boxA overlap t
           (fun l k => greedy boxB overlap t (map g l) = map g k)).
  - simp greedy. reflexivity.
  - intros x rest IH. simpl. simp greedy. rewrite filter_map.
    rewrite (List.filter_ext
               (fun a => compatible boxB overlap t (g x) (g a))
               (compatible boxA overlap t x))
      by (intros a; unfold compatible; rewrite !box_g; reflexivity).
    rewrite IH. reflexivity.
Qed.

Lemma suppress_map st nt l :
  suppress scoreB boxB overlap st nt (map g l)
  = map g (suppress scoreA boxA overlap st nt l).
Proof.
  unfold suppress. rewrite filter_map, sort_desc_map, greedy_map.
  rewrite (List.filter_ext
             (fun a => Qge_bool (scoreB (g a)) st)
             (fun a => Qge_bool (scoreA a) st))
    by (intros a; rewrite score_g; reflexivity).
  reflexivity.
Qed.

End SuppressionMap.

(** Detections paired with their position in the list. *)
Definition enumerate {A} (l : list A) : list (nat * A) :=
  combine (seq 0 (length l)) l.

Lemma enumerate_lookup {A} (l : list A) i a :
  In (i, a) (enumerate l) -> py_index l i = Ok a.
Proof.
  unfold enumerate, py_index. intros Hin.
  assert (H : forall (k : list A) s, In (i, a) (combine (seq s (length k)) k) ->
                                     nth_error k (i - s) = Some a /\ (s <= i)%nat).
  { clear. induction k as [| b k IH]; simpl; intros s; [ tauto | ].
    intros [[= <- <-] | Hin].
    - rewrite Nat.sub_diag. split; [ reflexivity | lia ].
    - apply IH in Hin. destruct Hin as [Hn Hs].
      replace (i - s)%nat with (S (i - S s)) by lia. split; [ exact Hn | lia ]. }
  apply H in Hin. rewrite Nat.sub_0_r in Hin. destruct Hin as [-> _]. reflexivity.
Qed.

Lemma for_each_enumerated {A} (l : list A) (k : list (nat * A)) :
  incl k (enumerate l) ->
  for_each (py_index l) (map fst k) = Ok (map snd k).
Proof.
  induction k as [| [i a] k IH]; simpl; intros Hk; [ reflexivity | ].
  rewrite (enumerate_lookup l i a) by (apply Hk; left; reflexivity). simpl.
  rewrite IH by (intros x Hx; apply Hk; right; exact Hx). reflexivity.
Qed.

Lemma enumerate_boxes_scores (ds : list detection) :
  combine (seq 0 (length (map det_bbox ds)))
          (combine (map det_bbox ds) (map confidence ds))
  = map (fun e : nat * detection => (fst e, (det_bbox (snd e), confidence (snd e))))
        (enumerate ds).
Proof.
  unfold enumerate. rewrite length_map. generalize 0%nat.
  induction ds as [| d ds IH]; simpl; intros s; [ reflexivity | ].
  rewrite IH. reflexivity.
Qed.

Lemma enumerate_snd {A} (l : list A) : map snd (enumerate l) = l.
Proof.
  unfold enumerate. generalize 0%nat.
  induction l as [| a l IH]; simpl; intros s; [ reflexivity | ].
  rewrite IH. reflexivity.
Qed.

(** The indices returned by [NMSBoxes], read back in the list of
    detections, give the suppression of the detections themselves. *)
Lemma nms_indices_select thr nt (ds : list detection) :
  for_each (py_index ds)
    (NMSBoxes (map det_bbox ds) (map confidence ds) thr nt)
  = Ok (suppress confidence det_bbox iou thr nt ds).
Proof.
  unfold NMSBoxes. rewrite enumerate_boxes_scores.
  rewrite (suppress_map (fun e : nat * detection => confidence (snd e))
                        (fun e => det_bbox (snd e)))
    by reflexivity.
  rewrite map_map. simpl.
  rewrite (for_each_enumerated ds).
  - rewrite <- (suppress_map (fun e : nat * detection => confidence (snd e))
                             (fun e => det_bbox (snd e))
                             confidence det_bbox iou snd)
      by reflexivity.
    rewrite enumerate_snd. reflexivity.
  - intros e He. apply suppress_In in He. tauto.
Qed.

Lemma apply_nms_suppress thr (ds : list detection) :
  apply_nms NMSBoxes thr ds
  = Ok (suppress confidence det_bbox iou thr (4 # 10) ds).
Proof.
  unfold apply_nms. destruct ds as [| d ds].
  - simpl. unfold suppress. simpl. simp greedy. reflexivity.
  - change (0 <? length (d :: ds))%nat with true. cbv iota.
    pose proof (nms_indices_select thr (4 # 10) (d :: ds)) as Hsel.
    destruct (NMSBoxes _ _ thr (4 # 10)) as [| i idx] eqn:Hidx.
    + simpl in Hsel. simpl. exact Hsel.
    + change (0 <? length (i :: idx))%nat with true. cbv iota. exact Hsel.
Qed.

(** C4: the suppression step of [postprocess_detections] is idempotent.
    For every list of candidate detections it returns a list, and run
    again on that list it returns the same list, in the same order. *)
Theorem suppression_idempotent (conf_threshold : Q) (detections : list detection) :
  exists kept,
    apply_nms NMSBoxes conf_threshold detections = Ok kept
    /\ apply_nms NMSBoxes conf_threshold kept = Ok kept.
Proof.
  exists (suppress confidence det_bbox iou conf_threshold (4 # 10) detections).
  split; [ apply apply_nms_suppress | ].
  rewrite apply_nms_suppress. f_equal. apply suppress_idempotent.
Qed.

(** The kept detections are in descending order of confidence and no two
    of them overlap by more than the threshold. *)
Lemma suppression_keep_order (conf_threshold : Q) (detections kept : list detection) :
  apply_nms NMSBoxes conf_threshold detections = Ok kept ->
  StronglySorted (before confidence) kept
  /\ pairwise_compatible det_bbox iou (4 # 10) kept
  /\ incl kept detections.
Proof.
  rewrite apply_nms_suppress. intros [= <-]. unfold suppress. repeat split.
  - apply greedy_sorted, sort_desc_sorted.
  - apply greedy_pairwise.
  - intros d Hd. apply greedy_In, sort_desc_In, List.filter_In in Hd. tauto.
Qed.

End DetectorSpec.

(** * Verification of the camera service *)

Module CameraSpec.
Import Camera.

(** ** Sample environment *)

(** A resize by nearest-neighbour sampling; like [cv2.resize] it rejects
    an empty source and a destination size that is not positive. *)
Definition nearest_resize (src : frame) (dsize : Z * Z) : outcome frame :=
  let '(dw, dh) := dsize in
  if (0 <? dw) && (0 <? dh) && (0 <? rows src)%nat && (0 <? cols src)%nat then
    Ok {| rows := Z.to_nat dh;
          cols := Z.to_nat dw;
          at_pixel := fun i j =>
            at_pixel src (i * rows src / Z.to_nat dh)%nat
                         (j * cols src / Z.to_nat dw)%nat |}
  else Raise (Exception "cv2.error" "resize: bad size").

(** A world in which no model file is installed and every call succeeds. *)
Definition plain_world : world :=
  {| model_file_exists := Ok false;
     load_detector := Raise (Exception "FileNotFoundError" "Model not found");
     strftime := "20240101_120000";
     get_full_captures_dir := Ok "captures";
     makedirs := fun _ => Ok tt;
     cv2_resize := nearest_resize;
     cv2_rectangle := fun img _ _ _ _ => Ok img;
     cv2_putText := fun img _ _ _ _ _ => Ok img;
     cv2_imwrite := fun _ _ => Ok true;
     encode_jpeg_base64 := fun _ _ => Ok "/9j/4AAQ" |}.

(** A 640 x 480 camera frame (480 rows, 640 columns). *)
Definition vga_frame : frame :=
  {| rows := 480; cols := 640;
     at_pixel := fun i j => (Z.of_nat i, Z.of_nat j, 0) |}.

(** ** resize_to_square *)

(** What [cv2.resize] promises about shapes. *)
Definition resize_contract (resize : frame -> Z * Z -> outcome frame) : Prop :=
  forall src dw dh,
    (0 < rows src)%nat -> (0 < cols src)%nat -> 0 < dw -> 0 < dh ->
    exists dst, resize src (dw, dh) = Ok dst
                /\ shape dst = (Z.to_nat dh, Z.to_nat dw).

Lemma nearest_resize_contract : resize_contract nearest_resize.
Proof.
  intros src dw dh Hr Hc Hw Hh. unfold nearest_resize.
  destruct (Z.ltb_spec 0 dw); [| lia ]. destruct (Z.ltb_spec 0 dh); [| lia ].
  destruct (Nat.ltb_spec 0 (rows src)); [| lia ].
  destruct (Nat.ltb_spec 0 (cols src)); [| lia ].
  simpl. eexists. split; reflexivity.
Qed.

(** The square the source crops out of an [h x w] image. *)
Definition center_square (f cropped : frame) : Prop :=
  let side := Nat.min (rows f) (cols f) in
  shape cropped = (side, side)
  /\ forall i j,
       at_pixel cropped i j
       = at_pixel f (i + (rows f - side) / 2)%nat (j + (cols f - side) / 2)%nat.

Lemma center_square_shape (f cropped : frame) :
  center_square f cropped ->
  rows cropped = Nat.min (rows f) (cols f)
  /\ cols cropped = Nat.min (rows f) (cols f).
Proof.
  intros [Hsh _]. unfold shape in Hsh. split; congruence.
Qed.

(** C5: for a frame of width and height at least 1 and a target size,
    [resize_to_square] returns an image of exactly [size x size], the
    resize of the square of side [min w h] cut around the centre of the
    frame; this holds for [w > h] and for [h >= w] alike. *)
Theorem resize_to_square_exact (w : world) (f : frame) (size : Z) :
  resize_contract (cv2_resize w) ->
  (1 <= cols f)%nat -> (1 <= rows f)%nat -> 0 < size ->
  exists cropped out,
    center_square f cropped
    /\ cv2_resize w cropped (size, size) = Ok out
    /\ resize_to_square w f size = Ok out
    /\ shape out = (Z.to_nat size, Z.to_nat size).
Proof.
  intros Hres Hc Hr Hs. unfold resize_to_square, shape.
  destruct (Nat.ltb_spec (rows f) (cols f)) as [Hwide | Htall].
  - set (cropped := slice_cols f _ _).
    assert (Hsq : center_square f cropped).
    { assert (Hside : Nat.min (rows f) (cols f) = rows f) by lia.
      assert (Hhalf : ((cols f - rows f) / 2 <= cols f - rows f)%nat)
        by (apply Nat.Div0.div_le_upper_bound; lia).
      unfold center_square. rewrite Hside.
      unfold shape, cropped, slice_cols, slice_len. cbn [rows cols at_pixel]. split.
      - f_equal. lia.
      - intros i j. rewrite Nat.sub_diag, Nat.Div0.div_0_l, Nat.add_0_r. reflexivity. }
    clearbody cropped. destruct (center_square_shape _ _ Hsq) as [Hrc Hcc].
    destruct (Hres cropped size size) as (out & Hout & Hshape);
      try assumption; try lia.
    exists cropped, out. repeat split; try assumption; apply Hsq.
  - set (cropped := slice_rows f _ _).
    assert (Hsq : center_square f cropped).
    { assert (Hside : Nat.min (rows f) (cols f) = cols f) by lia.
      assert (Hhalf : ((rows f - cols f) / 2 <= rows f - cols f)%nat)
        by (apply Nat.Div0.div_le_upper_bound; lia).
      unfold center_square. rewrite Hside.
      unfold shape, cropped, slice_rows, slice_len. cbn [rows cols at_pixel]. split.
      - f_equal. lia.
      - intros i j. rewrite Nat.sub_diag, Nat.Div0.div_0_l, Nat.add_0_r. reflexivity. }
    clearbody cropped. destruct (center_square_shape _ _ Hsq) as [Hrc Hcc].
    destruct (Hres cropped size size) as (out & Hout & Hshape);
      try assumption; try lia.
    exists cropped, out. repeat split; try assumption; apply Hsq.
Qed.

Lemma resize_to_square_exact_witness :
  exists cropped out,
    center_square vga_frame cropped
    /\ cv2_resize plain_world cropped (640, 640) = Ok out
    /\ resize_to_square plain_world vga_frame 640 = Ok out
    /\ shape out = (640%nat, 640%nat).
Proof.
  apply (resize_to_square_exact plain_world vga_frame 640).
  - exact nearest_resize_contract.
  - simpl. lia.
  - simpl. lia.
  - lia.
Defined.

(** ** capture_image *)

Lemma capture_result_success b m f i d :
  capture_result b m f i d !! "success" = Some (VBool b).
Proof. reflexivity. Qed.

Lemma capture_result_message b m f i d :
  capture_result b m f i d !! "message" = Some (VStr m).
Proof. reflexivity. Qed.

Lemma capture_result_detection_results b m f i d :
  capture_result b m f i d !! "detection_results" = Some d.
Proof. reflexivity. Qed.

(** The shapes a capture can return. *)
Inductive capture_shape (w : world) (self : camera_service)
    (apply_detection : bool) : pydict -> Prop :=
| NoFrame :
    get_current_frame self = None ->
    capture_shape w self apply_detection
      (capture_result false "No frame available" VNone VNone VNone)
| Saved f square processed results name path image :
    get_current_frame self = Some f ->
    resize_to_square w f 640 = Ok square ->
    detection_step w self apply_detection square = Ok (processed, results) ->
    cv2_imwrite w path processed = Ok true ->
    capture_shape w self apply_detection
      (capture_result true ("Image saved as " +:+ name)
         (VStr path) (VStr image) results)
| NotSaved f square processed results path :
    get_current_frame self = Some f ->
    resize_to_square w f 640 = Ok square ->
    detection_step w self apply_detection square = Ok (processed, results) ->
    cv2_imwrite w path processed = Ok false ->
    capture_shape w self apply_detection
      (capture_result false "Failed to save image" VNone VNone VNone)
| Failed e :
    capture_shape w self apply_detection
      (capture_result false ("Capture error: " +:+ exn_str e) VNone VNone VNone).

Lemma frame_to_base64_total w f q : exists s, frame_to_base64 w f q = Ok s.
Proof.
  unfold frame_to_base64, try_except.
  destruct (encode_jpeg_base64 w f q); eauto.
Qed.

Lemma capture_image_shape w self filename apply_detection :
  exists r, capture_image w self filename apply_detection = Ok r
            /\ capture_shape w self apply_detection r.
Proof.
  unfold capture_image.
  destruct (get_current_frame self) as [f |] eqn:Hf; simpl.
  2:{ eexists. split; [ reflexivity | ]. apply NoFrame. exact Hf. }
  destruct (get_full_captures_dir w) as [dir | e]; simpl;
    [| eexists; split; [ reflexivity | apply Failed ] ].
  destruct (makedirs w dir) as [[] | e]; simpl;
    [| eexists; split; [ reflexivity | apply Failed ] ].
  destruct (resize_to_square w f 640) as [sq | e] eqn:Hsq; simpl;
    [| eexists; split; [ reflexivity | apply Failed ] ].
  destruct (detection_step w self apply_detection sq) as [[pf dr] | e] eqn:Hd;
    simpl; [| eexists; split; [ reflexivity | apply Failed ] ].
  destruct (cv2_imwrite w _ pf) as [[] | e] eqn:Hw; simpl;
    [ | | eexists; split; [ reflexivity | apply Failed ] ].
  - destruct (frame_to_base64_total w pf 80) as [img ->]. simpl.
    eexists. split; [ reflexivity | ]. eapply Saved; eassumption.
  - eexists. split; [ reflexivity | ]. eapply NotSaved; eassumption.
Qed.

(** C8: [capture_image] never raises.  Whatever the state of the service
    and whatever the calls it makes do (no frame, a failed save, a failed
    detection, any exception), it returns a dictionary holding a boolean
    under ["success"] and a string under ["message"]. *)
Theorem capture_image_structured (w : world) (self : camera_service)
    (filename : option string) (apply_detection : bool) :
  exists (r : pydict) (success : bool) (message : string),
    capture_image w self filename apply_detection = Ok r
    /\ r !! "success" = Some (VBool success)
    /\ r !! "message" = Some (VStr message).
Proof.
  destruct (capture_image_shape w self filename apply_detection) as (r & Hr & Hs).
  destruct Hs; eexists _, _, _;
    (split; [ exact Hr | split; [ apply capture_result_success
                                 | apply capture_result_message ] ]).
Qed.

(** The four situations named by the claim. *)
Lemma capture_image_no_frame w self filename apply_detection :
  get_current_frame self = None ->
  capture_image w self filename apply_detection
  = Ok (capture_result false "No frame available" VNone VNone VNone).
Proof. unfold capture_image. intros ->. reflexivity. Qed.

Lemma detection_failure_is_absorbed w self square detect e :
  defect_detector self = Some detect ->
  detection_enabled self = true ->
  detect square = Raise e ->
  detection_step w self true square
  = Ok (square, VDict (<["error" := VStr (exn_str e)]> ∅)).
Proof.
  unfold detection_step. intros -> -> He. simpl. rewrite He. reflexivity.
Qed.

(** ** The fallback drawn when no model is loaded *)

Lemma detection_step_no_detector w self apply_detection square processed results :
  defect_detector self = None ->
  detection_step w self apply_detection square = Ok (processed, results) ->
  (apply_detection && detection_enabled self = true ->
   results = detection_results_dict
               [test_detection (Z.of_nat (rows square)) (Z.of_nat (cols square))]
               processed)
  /\ (apply_detection && detection_enabled self = false -> results = VNone).
Proof.
  unfold detection_step. intros ->.
  destruct (apply_detection && detection_enabled self).
  - simpl. destruct (cv2_rectangle w square _ _ _ _) as [t1 |]; [| discriminate ].
    simpl. destruct (cv2_putText w t1 _ _ _ _ _) as [t2 |]; [| discriminate ].
    simpl. intros [= <- <-]. split; [ reflexivity | discriminate ].
  - intros [= <- <-]. split; [ discriminate | reflexivity ].
Qed.

(** C9, as stated, fails: a service built with no model file present,
    asked to capture with the default arguments, reports one
    ["test_defect"] of confidence 0.9 in a successful capture. *)
Lemma placeholder_drawn_by_default :
  let self := publish (init plain_world) vga_frame in
  defect_detector self = None
  /\ exists r data,
       capture_image plain_world self None true = Ok r
       /\ r !! "success" = Some (VBool true)
       /\ r !! "detection_results" = Some (VDict data)
       /\ data !! "detections" = Some (VDetections [test_detection 640 640]).
Proof.
  split; [ reflexivity | ].
  eexists _, _. split; [ reflexivity | ].
  split; [ reflexivity | ]. split; reflexivity.
Qed.

(** A successful capture, call by call: the frame that is written and
    encoded is the one the detection step hands back. *)
Lemma capture_image_saved w self filename apply_detection r :
  capture_image w self filename apply_detection = Ok r ->
  r !! "success" = Some (VBool true) ->
  exists f dir square processed results image,
    let name := default ("capture_" +:+ strftime w +:+ ".jpg") filename in
    get_current_frame self = Some f
    /\ get_full_captures_dir w = Ok dir
    /\ resize_to_square w f 640 = Ok square
    /\ detection_step w self apply_detection square = Ok (processed, results)
    /\ cv2_imwrite w (dir +:+ "/" +:+ name) processed = Ok true
    /\ frame_to_base64 w processed 80 = Ok image
    /\ r = capture_result true ("Image saved as " +:+ name)
             (VStr (dir +:+ "/" +:+ name)) (VStr image) results.
Proof.
  unfold capture_image.
  destruct (get_current_frame self) as [f |] eqn:Hf; simpl;
    [| intros [= <-] Hs; discriminate ].
  destruct (get_full_captures_dir w) as [dir | e] eqn:Hdir; simpl;
    [| intros [= <-] Hs; discriminate ].
  destruct (makedirs w dir) as [[] | e]; simpl;
    [| intros [= <-] Hs; discriminate ].
  destruct (resize_to_square w f 640) as [sq | e] eqn:Hsq; simpl;
    [| intros [= <-] Hs; discriminate ].
  destruct (detection_step w self apply_detection sq) as [[pf dr] | e] eqn:Hd;
    simpl; [| intros [= <-] Hs; discriminate ].
  destruct (cv2_imwrite w _ pf) as [[] | e] eqn:Hw; simpl;
    [ | intros [= <-] Hs; discriminate | intros [= <-] Hs; discriminate ].
  destruct (frame_to_base64 w pf 80) as [img | e] eqn:Himg; simpl.
  - intros [= <-] _. exists f, dir, sq, pf, dr, img.
    destruct filename; repeat split; assumption.
  - destruct (frame_to_base64_total w pf 80) as [img Himg']. congruence.
Qed.

(** What the fallback of lines 185-211 draws and reports. *)
Lemma detection_step_placeholder w self apply_detection square processed results :
  defect_detector self = None ->
  apply_detection && detection_enabled self = true ->
  detection_step w self apply_detection square = Ok (processed, results) ->
  let h := Z.of_nat (rows square) in
  let w' := Z.of_nat (cols square) in
  exists boxed,
    cv2_rectangle w square (w' / 4, h / 4) (3 * w' / 4, 3 * h / 4) (0, 255, 0) 2
    = Ok boxed
    /\ cv2_putText w boxed "TEST DETECTION" (w' / 4, h / 4 - 10) (7 # 10)%Q
         (0, 255, 0) 2
       = Ok processed
    /\ results = detection_results_dict [test_detection h w'] processed.
Proof.
  unfold detection_step. intros -> ->. simpl.
  destruct (cv2_rectangle w square _ _ _ _) as [t1 |] eqn:H1; [| discriminate ].
  simpl. destruct (cv2_putText w t1 _ _ _ _ _) as [t2 |] eqn:H2; [| discriminate ].
  simpl. intros [= <- <-]. exists t1. repeat split; assumption.
Qed.

(** C9 (amended): with no model loaded, a successful capture draws the
    placeholder and reports it exactly when [apply_detection] (default
    [True]) and the service's [detection_enabled] flag (initially [True])
    are both set.  Then the green rectangle from [(w//4, h//4)] to
    [(3*w//4, 3*h//4)] and the label ["TEST DETECTION"] are drawn on the
    square frame, the frame so drawn is the one written to the file and
    returned as [base64_image], and the detection results hold the single
    ["test_defect"] with that box and the drawn frame.  The placeholder is
    absent only when the caller passes [apply_detection=False] or the flag
    has been cleared: the plain square frame is written and the detection
    results are [None]. *)
Theorem placeholder_iff_detection_requested (w : world) (self : camera_service)
    (filename : option string) (apply_detection : bool) (r : pydict) :
  defect_detector self = None ->
  capture_image w self filename apply_detection = Ok r ->
  r !! "success" = Some (VBool true) ->
  let name := default ("capture_" +:+ strftime w +:+ ".jpg") filename in
  (apply_detection && detection_enabled self = true ->
   exists f dir square boxed labelled image,
     let h := Z.of_nat (rows square) in
     let w' := Z.of_nat (cols square) in
     get_current_frame self = Some f
     /\ resize_to_square w f 640 = Ok square
     /\ cv2_rectangle w square (w' / 4, h / 4) (3 * w' / 4, 3 * h / 4)
          (0, 255, 0) 2
        = Ok boxed
     /\ cv2_putText w boxed "TEST DETECTION" (w' / 4, h / 4 - 10) (7 # 10)%Q
          (0, 255, 0) 2
        = Ok labelled
     /\ get_full_captures_dir w = Ok dir
     /\ cv2_imwrite w (dir +:+ "/" +:+ name) labelled = Ok true
     /\ frame_to_base64 w labelled 80 = Ok image
     /\ r !! "base64_image" = Some (VStr image)
     /\ r !! "detection_results"
        = Some (detection_results_dict [test_detection h w'] labelled))
  /\ (apply_detection && detection_enabled self = false ->
      r !! "detection_results" = Some VNone
      /\ exists f dir square image,
           get_current_frame self = Some f
           /\ resize_to_square w f 640 = Ok square
           /\ get_full_captures_dir w = Ok dir
           /\ cv2_imwrite w (dir +:+ "/" +:+ name) square = Ok true
           /\ frame_to_base64 w square 80 = Ok image
           /\ r !! "base64_image" = Some (VStr image)).
Proof.
  intros Hnone Hr Hsucc name.
  destruct (capture_image_saved w self filename apply_detection r Hr Hsucc)
    as (f & dir & sq & pf & dr & img & Hf & Hdir & Hsq & Hd & Hw & Himg & ->).
  fold name in Hw. split.
  - intros Hb.
    destruct (detection_step_placeholder _ _ _ _ _ _ Hnone Hb Hd)
      as (boxed & Hbox & Hlabel & ->).
    exists f, dir, sq, boxed, pf, img. repeat split; assumption.
  - intros Hb. unfold detection_step in Hd. rewrite Hb in Hd.
    injection Hd as <- <-. split; [ reflexivity | ].
    exists f, dir, sq, img. repeat split; assumption.
Qed.

Lemma placeholder_iff_detection_requested_witness :
  let self := publish (init plain_world) vga_frame in
  (exists r f dir square boxed labelled image,
      capture_image plain_world self (Some "shot.jpg") true = Ok r
      /\ get_current_frame self = Some f
      /\ resize_to_square plain_world f 640 = Ok square
      /\ cv2_rectangle plain_world square
           (Z.of_nat (cols square) / 4, Z.of_nat (rows square) / 4)
           (3 * Z.of_nat (cols square) / 4, 3 * Z.of_nat (rows square) / 4)
           (0, 255, 0) 2
         = Ok boxed
      /\ cv2_putText plain_world boxed "TEST DETECTION"
           (Z.of_nat (cols square) / 4, Z.of_nat (rows square) / 4 - 10)
           (7 # 10)%Q (0, 255, 0) 2
         = Ok labelled
      /\ get_full_captures_dir plain_world = Ok dir
      /\ cv2_imwrite plain_world (dir +:+ "/" +:+ "shot.jpg") labelled = Ok true
      /\ frame_to_base64 plain_world labelled 80 = Ok image
      /\ r !! "base64_image" = Some (VStr image)
      /\ r !! "detection_results"
         = Some (detection_results_dict
                   [test_detection (Z.of_nat (rows square))
                                   (Z.of_nat (cols square))] labelled))
  /\ (exists r,
         capture_image plain_world (set_detection_enabled self false)
           (Some "shot.jpg") true = Ok r
         /\ r !! "detection_results" = Some VNone).
Proof.
  intros self. split.
  - destruct (placeholder_iff_detection_requested plain_world self
                (Some "shot.jpg") true _ eq_refl eq_refl eq_refl) as [Hon _].
    destruct (Hon eq_refl)
      as (f & dir & square & boxed & labelled & image & H).
    eexists _, f, dir, square, boxed, labelled, image.
    split; [ reflexivity | exact H ].
  - eexists. split; [ reflexivity | ].
    apply (placeholder_iff_detection_requested plain_world
             (set_detection_enabled self false) (Some "shot.jpg") true
             _ eq_refl eq_refl eq_refl).
    reflexivity.
Defined.

(** ** capture_with_detection_analysis *)

(** The detection is one of class [name]: the string stored under
    ["class_name"] is [name]; a detection without that key belongs to
    the class ["unknown"]. *)
Definition has_class_name (name : string) (d : det_dict) : bool :=
  match dd_class_name d with
  | Some class_name => String.eqb class_name name
  | None => String.eqb "unknown" name
  end.

(** Number of detections of the list whose class name is [name]. *)
Definition occurrences (name : string) (ds : list det_dict) : nat :=
  length (List.filter (has_class_name name) ds).

(** [d.get("confidence", 0)] *)
Definition confidence_of (d : det_dict) : Q := default 0%Q (dd_confidence d).

Lemma getitem_lookup (d : pydict) key v : d !! key = Some v -> getitem d key = Ok v.
Proof. unfold getitem. intros ->. reflexivity. Qed.

Lemma counting_loop (m : gmap string Z) (ds : list det_dict) (name : string) :
  foldl (fun defects_by_type d =>
           <[defect_type_of d :=
               default 0 (defects_by_type !! defect_type_of d) + 1]>
             defects_by_type) m ds !! name
  = match occurrences name ds with
    | O => m !! name
    | S n => Some (default 0 (m !! name) + Z.of_nat (S n))
    end.
Proof.
  revert m. induction ds as [| d ds IH]; intros m; [ reflexivity | ].
  cbn [foldl]. rewrite IH. unfold occurrences. cbn [List.filter].
  assert (Hclass : has_class_name name d = String.eqb (defect_type_of d) name).
  { unfold has_class_name, defect_type_of. destruct (dd_class_name d); reflexivity. }
  rewrite Hclass.
  destruct (String.eqb_spec (defect_type_of d) name) as [-> | Hne].
  - cbn [length]. rewrite lookup_insert_eq. cbn [default].
    destruct (length _); unfold id; f_equal; lia.
  - rewrite lookup_insert_ne by exact Hne. reflexivity.
Qed.

Lemma count_defects_spec (ds : list det_dict) (name : string) :
  count_defects ds !! name
  = match occurrences name ds with
    | O => None
    | S n => Some (Z.of_nat (S n))
    end.
Proof.
  unfold count_defects. rewrite counting_loop, lookup_empty.
  destruct (occurrences name ds); reflexivity.
Qed.

Lemma has_critical_spec (ds : list det_dict) :
  existsb is_critical ds = true
  <-> exists d, In d ds /\ (8 # 10 < confidence_of d)%Q.
Proof.
  rewrite List.existsb_exists. split; intros (d & Hin & Hd); exists d; split; try assumption.
  - unfold is_critical, Qgt_bool in Hd. apply negb_true_iff in Hd.
    apply Qnot_le_lt. intros Hle. apply Qle_bool_iff in Hle.
    unfold confidence_of in Hle. congruence.
  - unfold is_critical, Qgt_bool. apply negb_true_iff.
    destruct (Qle_bool _ _) eqn:Hle; [| reflexivity ].
    apply Qle_bool_iff in Hle. exfalso. eapply Qlt_not_le; eassumption.
Qed.

(** The analysis never touches the keys written by [capture_image]. *)
Lemma analysis_keeps_capture w self filename r :
  capture_with_detection_analysis w self filename = Ok r ->
  exists res,
    capture_image w self filename true = Ok res
    /\ r !! "success" = res !! "success"
    /\ r !! "detection_results" = res !! "detection_results".
Proof.
  unfold capture_with_detection_analysis.
  destruct (capture_image w self filename true) as [res |]; [| discriminate ].
  simpl. intros H. exists res. split; [ reflexivity | ].
  assert (Hcases : r = res \/ exists a, r = <["analysis" := a]> res).
  { destruct (getitem res "success") as [sv |]; [| discriminate ]. simpl in H.
    destruct (truthy sv) as [[] |]; try discriminate; simpl in H.
    - destruct (getitem res "detection_results") as [dr |]; [| discriminate ].
      simpl in H. destruct (truthy dr) as [[] |]; try discriminate; simpl in H.
      + destruct (contains dr "detections") as [[] |]; try discriminate; simpl in H.
        * destruct dr; try discriminate.
          destruct (getitem d "detections") as [[] |]; try discriminate.
          simpl in H. injection H as <-. right. eauto.
        * injection H as <-. left. reflexivity.
      + injection H as <-. left. reflexivity.
    - injection H as <-. left. reflexivity. }
  destruct Hcases as [-> | [a ->]]; [ split; reflexivity | ].
  split; apply lookup_insert_ne; discriminate.
Qed.

Lemma detection_step_results w self apply_detection square processed results :
  detection_step w self apply_detection square = Ok (processed, results) ->
  results = VNone
  \/ (exists ds annotated, results = detection_results_dict ds annotated)
  \/ (exists msg, results = VDict (<["error" := VStr msg]> ∅)).
Proof.
  unfold detection_step.
  destruct (apply_detection && detection_enabled self);
    [| intros [= <- <-]; left; reflexivity ].
  destruct (defect_detector self) as [detect |].
  - unfold try_except. destruct (detect square) as [[annotated ds] | e]; simpl.
    + intros [= <- <-]. right. left. eauto.
    + intros [= <- <-]. right. right. eauto.
  - simpl. destruct (cv2_rectangle w square _ _ _ _) as [t1 |]; [| discriminate ].
    simpl. destruct (cv2_putText w t1 _ _ _ _ _) as [t2 |]; [| discriminate ].
    simpl. intros [= <- <-]. right. left. eauto.
Qed.

(** [capture_with_detection_analysis] returns a dictionary too: the
    look-ups it makes in the result of [capture_image] never fail. *)
Lemma capture_with_detection_analysis_returns w self filename :
  exists r, capture_with_detection_analysis w self filename = Ok r.
Proof.
  unfold capture_with_detection_analysis.
  destruct (capture_image_shape w self filename true) as (res & -> & Hs).
  simpl. destruct Hs as [ | f sq pf dr name path img Hf Hsq Hd Hw | | ];
    try (eexists; reflexivity).
  destruct (detection_step_results _ _ _ _ _ _ Hd)
    as [-> | [(ds & annotated & ->) | (msg & ->)]]; eexists; reflexivity.
Qed.

(** C10: for a successful capture whose detection results hold a list
    under ["detections"], the analysis gives the length of the list as
    [total_defects], the number of occurrences of each class name as
    [defects_by_type], and [has_critical_defects] is true exactly when
    some detection has a confidence strictly above 0.8. *)
Theorem analysis_summarises_detections (w : world) (self : camera_service)
    (filename : option string) (r data : pydict) (ds : list det_dict) :
  capture_with_detection_analysis w self filename = Ok r ->
  r !! "success" = Some (VBool true) ->
  r !! "detection_results" = Some (VDict data) ->
  data !! "detections" = Some (VDetections ds) ->
  exists (by_type : gmap string Z) (critical : bool),
    r !! "analysis"
    = Some (VDict (<["total_defects" := VInt (Z.of_nat (length ds))]>
                     (<["defects_by_type" := VCounts by_type]>
                        (<["has_critical_defects" := VBool critical]> ∅))))
    /\ (forall name,
          by_type !! name
          = match occurrences name ds with
            | O => None
            | S n => Some (Z.of_nat (S n))
            end)
    /\ (critical = true
        <-> exists d, In d ds /\ (8 # 10 < confidence_of d)%Q).
Proof.
  intros Hr Hsucc Hres Hdets.
  destruct (analysis_keeps_capture _ _ _ _ Hr) as (res & Hcap & Hs & Hd).
  rewrite Hs in Hsucc. rewrite Hd in Hres.
  exists (count_defects ds), (existsb is_critical ds).
  split; [| split; [ apply count_defects_spec | apply has_critical_spec ] ].
  unfold capture_with_detection_analysis in Hr. rewrite Hcap in Hr. simpl in Hr.
  rewrite (getitem_lookup _ _ _ Hsucc) in Hr. simpl in Hr.
  rewrite (getitem_lookup _ _ _ Hres) in Hr. simpl in Hr.
  assert (Hsize : Nat.eqb (size data) 0 = false).
  { apply Nat.eqb_neq. intros Hz. apply map_size_empty_iff in Hz.
    rewrite Hz, lookup_empty in Hdets. discriminate. }
  rewrite Hsize in Hr. simpl in Hr.
  rewrite bool_decide_eq_true_2 in Hr by (rewrite Hdets; eauto).
  rewrite (getitem_lookup _ _ _ Hdets) in Hr. simpl in Hr.
  injection Hr as <-. rewrite lookup_insert_eq. reflexivity.
Qed.

(** A detector that decodes a fixed model output against the frame. *)
Definition sample_detector : detector :=
  fun f =>
    ds ← Detector.postprocess_detections Detector.NMSBoxes
            DetectorSpec.sample_output
            (Z.of_nat (cols f), Z.of_nat (rows f)) (640, 640) (1 # 2);
    Ok (f, ds).

Definition inspecting_service : camera_service :=
  {| current_frame := Some vga_frame;
     defect_detector := Some sample_detector;
     detection_enabled := true |}.

(** The two detections the sample detector reports on a 640 x 640 image. *)
Definition sample_detections : list det_dict :=
  [ {| dd_class_name := Some "short_circuit";
       dd_confidence := Some (9 # 10)%Q;
       dd_bbox := Some [75; 90; 125; 110];
       dd_class_id := Some 0%nat;
       dd_color := Some (0, 0, 255) |};
    {| dd_class_name := Some "open_circuit";
       dd_confidence := Some (7 # 10)%Q;
       dd_bbox := Some [280; 160; 320; 240];
       dd_class_id := Some 1%nat;
       dd_color := Some (255, 0, 0) |} ].

Lemma analysis_summarises_detections_witness :
  exists r by_type critical,
    capture_with_detection_analysis plain_world inspecting_service None = Ok r
    /\ r !! "analysis"
       = Some (VDict (<["total_defects" := VInt 2]>
                        (<["defects_by_type" := VCounts by_type]>
                           (<["has_critical_defects" := VBool critical]> ∅))))
    /\ (forall name,
          by_type !! name
          = match occurrences name sample_detections with
            | O => None
            | S n => Some (Z.of_nat (S n))
            end)
    /\ (critical = true
        <-> exists d, In d sample_detections /\ (8 # 10 < confidence_of d)%Q).
Proof.
  eexists. 
  destruct (analysis_summarises_detections plain_world inspecting_service None
              _ _ sample_detections eq_refl eq_refl eq_refl eq_refl)
    as (by_type & critical & H).
  exists by_type, critical. split; [ reflexivity | exact H ].
Defined.

End CameraSpec.

(** * Verification of the broadcaster *)

Module BroadcasterSpec.
Import Broadcaster.

(** ** One broadcast pass *)

Section BroadcastFacts.

Context {Message : Type}.
Variable json_dumps : Message -> string.
Variable send_text : websocket -> string -> outcome unit.
Variable meanwhile : websocket -> gset websocket -> gset websocket.

(** The send to [ws] raises. *)
Definition send_fails (text : string) (ws : websocket) : bool :=
  match send_text ws text with
  | Ok _ => false
  | Raise _ => true
  end.

(** The registry after the other tasks have run during the sends to
    the sockets of [l]. *)
Definition others (registry : gset websocket) (l : list websocket)
  : gset websocket :=
  foldl (fun reg ws => meanwhile ws reg) registry l.

Lemma send_pass_from text (l : list websocket) registry disconnected sent :
  foldl (send_one send_text meanwhile text) (registry, disconnected, sent) l
  = (others registry l,
     disconnected ∪ list_to_set (List.filter (send_fails text) l),
     sent ++ imap (fun k ws => SendRecord ws text (others registry (take k l))) l).
Proof.
  revert registry disconnected sent.
  induction l as [| ws l IH]; intros registry disconnected sent.
  - simpl. rewrite app_nil_r. f_equal. f_equal. set_solver.
  - cbn [foldl List.filter imap take].
    unfold send_one at 2. unfold send_fails at 1.
    destruct (send_text ws text) as [u | e]; rewrite IH;
      rewrite <- app_assoc; cbn [app]; f_equal; try (f_equal; set_solver);
      do 2 f_equal; apply imap_ext; intros k x _; reflexivity.
Qed.

Lemma prune_difference (registry disconnected : gset websocket) :
  prune registry disconnected = registry ∖ disconnected.
Proof.
  unfold prune.
  assert (H : forall (l : list websocket) (reg : gset websocket),
             foldl (fun reg ws => reg ∖ {[ws]}) reg l = reg ∖ list_to_set l).
  { induction l as [| x l IH]; intros reg; cbn [foldl].
    - set_solver.
    - rewrite IH. set_solver. }
  rewrite H, list_to_set_elements_L. reflexivity.
Qed.

Lemma sent_targets (g : nat -> gset websocket) (text : string)
    (l : list websocket) :
  map (fun r => (target r, payload r))
      (imap (fun k ws => SendRecord ws text (g k)) l)
  = map (fun ws => (ws, text)) l.
Proof.
  revert g. induction l as [| ws l IH]; intros g; [ reflexivity | ].
  cbn [imap map]. f_equal. apply (IH (fun k => g (S k))).
Qed.

(** The result of a pass, in closed form. *)
Lemma broadcast_result (registry : gset websocket) (message : Message) :
  let text := json_dumps message in
  let conns := elements registry in
  broadcast json_dumps send_text meanwhile registry message
  = (others registry conns ∖ list_to_set (List.filter (send_fails text) conns),
     imap (fun k ws => SendRecord ws text (others registry (take k conns))) conns).
Proof.
  intros text conns. unfold broadcast.
  destruct (decide (registry = ∅)) as [-> | Hne].
  - unfold conns. rewrite elements_empty. simpl. f_equal; set_solver.
  - unfold send_pass. fold text. fold conns.
    rewrite send_pass_from. rewrite prune_difference. cbn [app].
    f_equal. f_equal. set_solver.
Qed.

(** C6: in one pass of [broadcast] the message is serialised once and
    that text is sent once to each connection registered when the pass
    began, in the order of the copy that is iterated.  The registry seen
    at each send differs from the initial one only by what other tasks
    did in the meantime: the pass itself does not touch it while it
    iterates.  The sockets whose send raised are removed together once
    all sends are done. *)
Theorem broadcast_single_pass (registry : gset websocket) (message : Message) :
  let text := json_dumps message in
  let conns := elements registry in
  let '(after, sent) :=
    broadcast json_dumps send_text meanwhile registry message in
  map (fun r => (target r, payload r)) sent = map (fun ws => (ws, text)) conns
  /\ (forall k r, sent !! k = Some r ->
                  registry_at_send r = others registry (take k conns))
  /\ after
     = others registry conns ∖ list_to_set (List.filter (send_fails text) conns).
Proof.
  intros text conns. rewrite broadcast_result. fold text. fold conns.
  split; [| split; [| reflexivity ] ].
  - apply (sent_targets (fun k => others registry (take k conns))).
  - intros k r Hr. apply list_lookup_imap_Some in Hr.
    destruct Hr as (ws & _ & ->). reflexivity.
Qed.

End BroadcastFacts.

(** With no other task touching the registry during the pass, every send
    sees the registry of the start, and the registry afterwards is the
    initial one without the sockets whose send raised. *)
Lemma broadcast_undisturbed {Message} (json_dumps : Message -> string)
    (send_text : websocket -> string -> outcome unit)
    (registry : gset websocket) (message : Message) :
  let text := json_dumps message in
  let '(after, sent) :=
    broadcast json_dumps send_text (fun _ reg => reg) registry message in
  map target sent = elements registry
  /\ Forall (fun r => payload r = text /\ registry_at_send r = registry) sent
  /\ (forall ws, ws ∈ after <-> ws ∈ registry /\ send_fails send_text text ws = false).
Proof.
  intros text. rewrite broadcast_result. fold text.
  assert (Hid : forall l, others (fun _ reg => reg) registry l = registry).
  { induction l as [| x l IH]; [ reflexivity | exact IH ]. }
  split; [| split ].
  - generalize (elements registry). intros l.
    assert (H : forall (f : nat -> websocket -> send_record),
               (forall k ws, target (f k ws) = ws) -> map target (imap f l) = l).
    { induction l as [| x l IH]; intros f Hf; [ reflexivity | ].
      cbn [imap map]. rewrite Hf, IH; [ reflexivity | ].
      intros k ws. apply Hf. }
    apply H. reflexivity.
  - apply List.Forall_forall. intros r Hr. apply list_elem_of_In in Hr.
    apply elem_of_lookup_imap in Hr. destruct Hr as (k & ws & -> & _).
    simpl. rewrite Hid. split; reflexivity.
  - intros ws. rewrite Hid. rewrite elem_of_difference, elem_of_list_to_set.
    rewrite list_elem_of_In, List.filter_In, <- list_elem_of_In, elem_of_elements.
    destruct (send_fails send_text text ws); intuition congruence.
Qed.

(** ** The waiting message of the stream loop *)

Lemma stream_loop_from_cons w c frame frames count message :
  stream_cycle w c frame = Ok (count, message) ->
  stream_loop_from w c (frame :: frames)
  = message :: stream_loop_from w count frames.
Proof. intros H. cbn [stream_loop_from]. rewrite H. reflexivity. Qed.

(** While no frame is available the counter goes up by one per cycle,
    and the cycle [j] broadcasts exactly when the counter is 1 modulo 10. *)
Lemma waiting_stretch w (frames : list (option Camera.frame)) (c j : nat) :
  (forall k, (k <= j)%nat -> frames !! k = Some None) ->
  stream_loop_from w c frames !! j
  = Some (if Nat.eqb ((c + j + 1) mod 10) 1 then Some CameraWaiting else None).
Proof.
  revert frames c. induction j as [| j IH]; intros frames c Hnone.
  - pose proof (Hnone 0%nat (Nat.le_refl _)) as H0.
    destruct frames as [| f frames]; [ discriminate | ].
    injection H0 as ->. cbn [stream_loop_from stream_cycle].
    replace (c + 0 + 1)%nat with (c + 1)%nat by lia.
    destruct (Nat.eqb ((c + 1) mod 10) 1); reflexivity.
  - pose proof (Hnone 0%nat (Nat.le_0_l _)) as H0.
    destruct frames as [| f frames]; [ discriminate | ].
    injection H0 as ->. cbn [stream_loop_from stream_cycle].
    assert (Hrest : stream_loop_from w (c + 1) frames !! j
                    = Some (if Nat.eqb ((c + 1 + j + 1) mod 10) 1
                            then Some CameraWaiting else None)).
    { apply IH. intros k Hk. apply (Hnone (S k)). lia. }
    replace (c + S j + 1)%nat with (c + 1 + j + 1)%nat by lia.
    destruct (Nat.eqb ((c + 1) mod 10) 1); exact Hrest.
Qed.

Lemma waiting_gap w (frames : list (option Camera.frame)) (c i j : nat) :
  (i < j)%nat ->
  stream_loop_from w c frames !! i = Some (Some CameraWaiting) ->
  stream_loop_from w c frames !! j = Some (Some CameraWaiting) ->
  (forall k, (i <= k <= j)%nat -> frames !! k = Some None) ->
  (i + 10 <= j)%nat.
Proof.
  revert frames c j. induction i as [| i IH]; intros frames c j Hij Hi Hj Hnone.
  - rewrite (waiting_stretch w frames c 0) in Hi
      by (intros k Hk; apply Hnone; lia).
    rewrite (waiting_stretch w frames c j) in Hj
      by (intros k Hk; apply Hnone; lia).
    destruct (Nat.eqb_spec ((c + 0 + 1) mod 10) 1) as [H1 |]; [| discriminate ].
    destruct (Nat.eqb_spec ((c + j + 1) mod 10) 1) as [H2 |]; [| discriminate ].
    pose proof (Nat.div_mod_eq (c + 0 + 1) 10) as D1.
    pose proof (Nat.div_mod_eq (c + j + 1) 10) as D2.
    rewrite H1 in D1. rewrite H2 in D2. lia.
  - destruct frames as [| f frames]; [ discriminate | ].
    destruct j as [| j]; [ lia | ].
    cbn [stream_loop_from] in Hi, Hj.
    destruct (stream_cycle w c f) as [[count message] | e]; [| discriminate ].
    assert (i + 10 <= j)%nat; [| lia ].
    apply (IH frames count j); try assumption; try lia.
    intros k Hk. apply (Hnone (S k)). lia.
Qed.

Lemma clock_advance (clock : nat -> Z) (i n : nat) :
  (forall k, clock k + 100 <= clock (S k)) ->
  clock i + 100 * Z.of_nat n <= clock (i + n)%nat.
Proof.
  intros Hsleep. induction n as [| n IH].
  - rewrite Nat.add_0_r. lia.
  - rewrite Nat.add_succ_r. pose proof (Hsleep (i + n)%nat). lia.
Qed.

(** C7: in every run of the stream loop and for every pattern of frame
    availability, two "waiting" messages pushed while no frame is
    available (no cycle from the first to the second finds a frame) are
    at least ten cycles apart, so the message is never pushed on every
    cycle; since every cycle ends with a sleep of 0.1 s ([clock k] is the
    time of cycle [k] in milliseconds), they are at least one second
    apart. *)
Theorem waiting_at_most_once_per_second (w : Camera.world)
    (frames : list (option Camera.frame)) (clock : nat -> Z) (i j : nat) :
  (forall k, clock k + 100 <= clock (S k)) ->
  (i < j)%nat ->
  stream_loop w frames !! i = Some (Some CameraWaiting) ->
  stream_loop w frames !! j = Some (Some CameraWaiting) ->
  (forall k, (i <= k <= j)%nat -> frames !! k = Some None) ->
  (i + 10 <= j)%nat /\ clock i + 1000 <= clock j.
Proof.
  intros Hsleep Hij Hi Hj Hnone.
  assert (Hgap : (i + 10 <= j)%nat) by (eapply waiting_gap; eassumption).
  split; [ exact Hgap | ].
  pose proof (clock_advance clock i (j - i) Hsleep) as Hc.
  replace (i + (j - i))%nat with j in Hc by lia. lia.
Qed.

(** The bound is per stretch without a frame: the counter restarts when
    a frame is seen, so the first cycle without a frame after one with a
    frame pushes the message at once. *)
Lemma waiting_restarts_after_frame :
  stream_loop CameraSpec.plain_world [None; Some CameraSpec.vga_frame; None]
  = [ Some CameraWaiting; Some (VideoFrame "/9j/4AAQ"); Some CameraWaiting ].
Proof. reflexivity. Qed.

(** A cycle that finds a frame never pushes the waiting message. *)
Lemma no_waiting_with_frame w c f count message :
  stream_cycle w c (Some f) = Ok (count, message) ->
  message <> Some CameraWaiting /\ count = 0%nat.
Proof.
  unfold stream_cycle.
  destruct (Camera.resize_to_square w f 640) as [sq |]; [| discriminate ]. simpl.
  destruct (Camera.frame_to_base64 w sq 75) as [b64 |]; [| discriminate ]. simpl.
  destruct (negb (String.eqb b64 "")); intros [= <- <-]; split;
    reflexivity || discriminate.
Qed.

(** The camera publishes frames and never withdraws one: once
    [get_current_frame] has returned a frame it always does. *)
Definition camera_like (frames : list (option Camera.frame)) : Prop :=
  forall k f, frames !! k = Some (Some f) ->
              forall k', (k <= k')%nat -> (k' < length frames)%nat ->
                         exists f', frames !! k' = Some (Some f').

Lemma stream_loop_from_length w c frames :
  (length (stream_loop_from w c frames) <= length frames)%nat.
Proof.
  revert c. induction frames as [| f frames IH]; intros c; simpl; [ lia | ].
  destruct (stream_cycle w c f) as [[count message] |]; simpl; [| lia ].
  specialize (IH count). lia.
Qed.

Lemma waiting_means_no_frame w (frames : list (option Camera.frame)) (c i : nat) :
  stream_loop_from w c frames !! i = Some (Some CameraWaiting) ->
  frames !! i = Some None.
Proof.
  revert frames c. induction i as [| i IH]; intros [| f frames] c; try discriminate.
  - cbn [stream_loop_from].
    destruct (stream_cycle w c f) as [[count message] |] eqn:Hc; [| discriminate ].
    intros [= ->]. destruct f as [f |]; [| reflexivity ].
    apply no_waiting_with_frame in Hc. destruct Hc as [Hc _]. congruence.
  - cbn [stream_loop_from].
    destruct (stream_cycle w c f) as [[count message] |]; [| discriminate ].
    apply IH.
Qed.

(** With the frames a camera delivers, any two waiting messages of a run
    are at least ten cycles, hence one second, apart. *)
Lemma waiting_rate_with_camera (w : Camera.world)
    (frames : list (option Camera.frame)) (clock : nat -> Z) (i j : nat) :
  camera_like frames ->
  (forall k, clock k + 100 <= clock (S k)) ->
  (i < j)%nat ->
  stream_loop w frames !! i = Some (Some CameraWaiting) ->
  stream_loop w frames !! j = Some (Some CameraWaiting) ->
  (i + 10 <= j)%nat /\ clock i + 1000 <= clock j.
Proof.
  intros Hcam Hsleep Hij Hi Hj.
  assert (Hnone : forall k, (i <= k <= j)%nat -> frames !! k = Some None).
  { intros k Hk. pose proof (waiting_means_no_frame _ _ _ _ Hj) as Hjn.
    assert (Hlen : (j < length frames)%nat) by (eapply lookup_lt_Some; eassumption).
    destruct (frames !! k) as [[f |] |] eqn:Hfk; [| reflexivity |].
    - destruct (Hcam k f Hfk j) as [f' Hf']; [ lia | exact Hlen | ]. congruence.
    - apply lookup_ge_None in Hfk. lia. }
  split.
  - apply (waiting_gap w frames 0 i j); assumption.
  - pose proof (waiting_gap w frames 0 i j Hij Hi Hj Hnone) as Hgap.
    pose proof (clock_advance clock i (j - i) Hsleep) as Hc.
    replace (i + (j - i))%nat with j in Hc by lia. lia.
Qed.

Lemma waiting_at_most_once_per_second_witness :
  (0 + 10 <= 10)%nat /\ 100 * Z.of_nat 0 + 1000 <= 100 * Z.of_nat 10.
Proof.
  apply (waiting_at_most_once_per_second CameraSpec.plain_world
           (replicate 12 None) (fun k => 100 * Z.of_nat k) 0 10).
  - intros k. lia.
  - lia.
  - reflexivity.
  - reflexivity.
  - intros k Hk. apply lookup_replicate_2. lia.
Defined.

(** ** Attach, detach and the streaming flag *)

(** Only the task [stream_task] points to can be running, and then the
    flag is set. *)
Definition tasks_tracked (s : state) : Prop :=
  (forall t, loop_tasks s !! t = Some Running ->
             stream_task s = Some t /\ is_streaming s = true)
  /\ (forall t, stream_task s = Some t -> (t < length (loop_tasks s))%nat).

Definition no_loop_running (s : state) : Prop :=
  forall t, loop_tasks s !! t <> Some Running.

Lemma tasks_tracked_init : tasks_tracked init.
Proof. split; intros t; simpl; [ rewrite lookup_nil | ]; discriminate. Qed.

Lemma start_streaming_tracked s : tasks_tracked s -> tasks_tracked (start_streaming s).
Proof.
  intros Htr. unfold start_streaming.
  destruct (is_streaming s) eqn:Hflag; [ exact Htr | ].
  destruct Htr as [Hrun Hlt].
  split; simpl; intros t.
  - intros Ht. destruct (decide (t < length (loop_tasks s))%nat) as [Hin | Hout].
    + rewrite lookup_app_l in Ht by exact Hin.
      destruct (Hrun t Ht) as [_ Hs]. congruence.
    + apply lookup_lt_Some in Ht. rewrite length_app in Ht. simpl in Ht.
      split; [ f_equal; lia | reflexivity ].
  - intros [= <-]. rewrite length_app. simpl. lia.
Qed.

Lemma stop_streaming_idle s :
  tasks_tracked s ->
  is_streaming (stop_streaming s) = false /\ no_loop_running (stop_streaming s)
  /\ tasks_tracked (stop_streaming s).
Proof.
  intros Htr. pose proof Htr as [Hrun Hlt]. unfold stop_streaming, no_loop_running.
  destruct (is_streaming s) eqn:Hflag; simpl.
  - assert (Hnone : forall t,
               match stream_task s with
               | Some t0 => <[t0 := Finished]> (loop_tasks s)
               | None => loop_tasks s
               end !! t <> Some Running).
    { intros t Ht. destruct (stream_task s) as [t0 |] eqn:Htask.
      - destruct (decide (t0 = t)) as [-> | Hne].
        + rewrite list_lookup_insert_eq in Ht by (apply Hlt; reflexivity).
          discriminate.
        + rewrite list_lookup_insert_ne in Ht by exact Hne.
          destruct (Hrun t Ht) as [Hs _]. congruence.
      - destruct (Hrun t Ht) as [Hs _]. congruence. }
    split; [ reflexivity | ]. split; [ exact Hnone | ]. split; simpl.
    + intros t Ht. exfalso. exact (Hnone t Ht).
    + intros t Ht. destruct (stream_task s) as [t0 |]; [| discriminate ].
      rewrite length_insert. apply Hlt. exact Ht.
  - split; [ exact Hflag | ]. split; [| exact Htr ].
    intros t Ht. destruct (Hrun t Ht) as [_ Hs]. congruence.
Qed.

Lemma loop_exit_tracked s : tasks_tracked s -> tasks_tracked (loop_exit s).
Proof.
  intros [Hrun Hlt]. unfold loop_exit. split; simpl.
  - intros t Ht. destruct (stream_task s) as [t0 |] eqn:Htask; [| exact (Hrun t Ht) ].
    destruct (decide (t0 = t)) as [-> | Hne].
    + rewrite list_lookup_insert_eq in Ht by (apply Hlt; reflexivity). discriminate.
    + rewrite list_lookup_insert_ne in Ht by exact Hne.
      destruct (Hrun t Ht) as [Hs _]. congruence.
  - intros t Ht. destruct (stream_task s) as [t0 |]; [| discriminate ].
    rewrite length_insert. apply Hlt. exact Ht.
Qed.

Lemma step_tracked e s s' :
  tasks_tracked s -> step e s = Some s' -> tasks_tracked s'.
Proof.
  intros Htr. destruct e as [ws | ws | ws | |]; simpl.
  - intros [= <-]. exact Htr.
  - destruct (existsb _ _); [| discriminate ]. intros [= <-].
    unfold connect_resume. cbn [is_streaming].
    destruct (negb (is_streaming s)); [| exact Htr ].
    apply start_streaming_tracked. exact Htr.
  - intros [= <-]. exact Htr.
  - destruct (Nat.eqb _ _); [ discriminate | ]. intros [= <-].
    unfold run_stop. apply stop_streaming_idle. exact Htr.
  - destruct (loop_can_exit s); [| discriminate ]. intros [= <-].
    apply loop_exit_tracked, Htr.
Qed.

(** In every state the manager can reach, only the task it holds in
    [stream_task] can be running. *)
Lemma reachable_tracked es s : run es init = Some s -> tasks_tracked s.
Proof.
  generalize tasks_tracked_init. generalize init. revert s.
  induction es as [| e es IH]; intros s s0 H0; simpl.
  - intros [= <-]. exact H0.
  - destruct (step e s0) as [s1 |] eqn:Hstep; [| discriminate ].
    apply IH. eapply step_tracked; eassumption.
Qed.

(** Two clients. *)
Definition client_a : websocket := 1%nat.
Definition client_b : websocket := 2%nat.

(** C2, as stated, fails: when [disconnect] has removed the only
    connection and returned, the flag is still set and the loop task has
    not been cancelled; a [stop_streaming()] task has merely been
    created. *)
Lemma disconnect_returns_before_stop :
  let s := disconnect client_a (connect client_a init) in
  active_connections s = ∅
  /\ is_streaming s = true
  /\ stream_task s = Some 0%nat
  /\ loop_tasks s = [Running]
  /\ pending_stops s = 1%nat.
Proof. vm_compute. repeat split; reflexivity. Qed.

(** C2 (amended): when [disconnect] removes the last connection it only
    creates the [stop_streaming()] task and returns, leaving the flag and
    the loop task as they were.  The transition to idle takes place when
    that task runs: [stop_streaming] clears the flag, cancels the loop
    task and awaits it, and no stream loop is running when it returns. *)
Theorem stop_is_scheduled_then_joined (s : state) (ws : websocket) :
  tasks_tracked s ->
  active_connections s ⊆ {[ws]} ->
  let s1 := disconnect ws s in
  (active_connections s1 = ∅
   /\ pending_stops s1 = S (pending_stops s)
   /\ is_streaming s1 = is_streaming s
   /\ stream_task s1 = stream_task s
   /\ loop_tasks s1 = loop_tasks s)
  /\ exists s2,
       step RunStop s1 = Some s2
       /\ is_streaming s2 = false
       /\ no_loop_running s2
       /\ pending_stops s2 = pending_stops s.
Proof.
  intros Htr Hlast s1.
  assert (Hempty : active_connections s ∖ {[ws]} = ∅) by set_solver.
  assert (Hp : pending_stops s1 = S (pending_stops s)).
  { unfold s1, disconnect. cbn [pending_stops]. rewrite Hempty.
    rewrite size_empty. reflexivity. }
  split.
  - repeat split; try reflexivity; [ exact Hempty | exact Hp ].
  - exists (run_stop s1). unfold step. rewrite Hp. cbn [Nat.eqb].
    split; [ reflexivity | ].
    assert (Htr1 : tasks_tracked
                     {| active_connections := active_connections s1;
                        is_streaming := is_streaming s1;
                        stream_task := stream_task s1;
                        loop_tasks := loop_tasks s1;
                        pending_stops := pred (pending_stops s1);
                        pending_connects := pending_connects s1 |})
      by exact Htr.
    destruct (stop_streaming_idle _ Htr1) as (Hflag & Hnone & _).
    split; [ exact Hflag | ]. split; [ exact Hnone | ].
    unfold run_stop, stop_streaming. rewrite Hp.
    destruct (negb _); reflexivity.
Qed.

Lemma stop_is_scheduled_then_joined_witness :
  let s := connect client_a init in
  let s1 := disconnect client_a s in
  (active_connections s1 = ∅
   /\ pending_stops s1 = 1%nat
   /\ is_streaming s1 = true
   /\ stream_task s1 = Some 0%nat
   /\ loop_tasks s1 = [Running])
  /\ exists s2,
       step RunStop s1 = Some s2
       /\ is_streaming s2 = false
       /\ no_loop_running s2
       /\ pending_stops s2 = 0%nat.
Proof.
  apply (stop_is_scheduled_then_joined (connect client_a init) client_a).
  - apply start_streaming_tracked. exact tasks_tracked_init.
  - vm_compute. set_solver.
Defined.

(** ** Attach and detach, one at a time *)

(** The invariant of the state machine between operations. *)
Definition consistent (s : state) : Prop :=
  quiescent s
  /\ (is_streaming s = true <-> active_connections s <> ∅)
  /\ tasks_tracked s.

Lemma consistent_init : consistent init.
Proof.
  split; [ split; reflexivity | ]. split; [| exact tasks_tracked_init ].
  simpl. split; [ discriminate | intros H; exfalso; apply H; reflexivity ].
Qed.

Lemma attach_state (ws : websocket) (s : state) :
  consistent s ->
  perform (Attach ws) s
  = start_streaming
      {| active_connections := {[ws]} ∪ active_connections s;
         is_streaming := is_streaming s;
         stream_task := stream_task s;
         loop_tasks := loop_tasks s;
         pending_stops := pending_stops s;
         pending_connects := [] |}.
Proof.
  intros ((_ & Hpc) & _ & _). unfold perform, connect, connect_resume, connect_register.
  cbn [is_streaming active_connections stream_task loop_tasks pending_stops
       pending_connects].
  rewrite Hpc. cbn [app remove_first]. rewrite Nat.eqb_refl.
  unfold start_streaming. cbn [is_streaming].
  destruct (is_streaming s); reflexivity.
Qed.

Lemma detach_state (ws : websocket) (s : state) :
  consistent s ->
  perform (Detach ws) s
  = if Nat.eqb (size (active_connections s ∖ {[ws]})) 0
    then stop_streaming
           {| active_connections := active_connections s ∖ {[ws]};
              is_streaming := is_streaming s;
              stream_task := stream_task s;
              loop_tasks := loop_tasks s;
              pending_stops := 0;
              pending_connects := pending_connects s |}
    else
      {| active_connections := active_connections s ∖ {[ws]};
         is_streaming := is_streaming s;
         stream_task := stream_task s;
         loop_tasks := loop_tasks s;
         pending_stops := 0;
         pending_connects := pending_connects s |}.
Proof.
  intros ((Hps & _) & _ & _). unfold perform, disconnect.
  cbn [pending_stops]. rewrite Hps.
  destruct (Nat.eqb (size (active_connections s ∖ {[ws]})) 0); reflexivity.
Qed.

Lemma perform_consistent (op : operation) (s : state) :
  consistent s -> consistent (perform op s).
Proof.
  intros Hc. pose proof Hc as ((Hps & Hpc) & Hflag & Htr).
  destruct op as [ws | ws].
  - rewrite attach_state by exact Hc.
    set (s1 := {| active_connections := {[ws]} ∪ active_connections s |}).
    assert (Htr1 : tasks_tracked s1) by exact Htr.
    split; [| split ].
    + unfold start_streaming. destruct (is_streaming s1); split; simpl;
        reflexivity || exact Hps.
    + unfold start_streaming. destruct (is_streaming s1) eqn:Hf; simpl.
      * split; [ intros _; set_solver | intros _; exact Hf ].
      * split; [ intros _; set_solver | reflexivity ].
    + apply start_streaming_tracked, Htr1.
  - rewrite detach_state by exact Hc.
    destruct (Nat.eqb_spec (size (active_connections s ∖ {[ws]})) 0) as [Hz | Hnz].
    + set (s1 := {| active_connections := active_connections s ∖ {[ws]} |}).
      assert (Htr1 : tasks_tracked s1) by exact Htr.
      destruct (stop_streaming_idle s1 Htr1) as (Hoff & _ & Htr2).
      apply size_empty_iff, leibniz_equiv in Hz.
      assert (Hconn : active_connections (stop_streaming s1) = ∅).
      { unfold stop_streaming. destruct (negb _); exact Hz. }
      split; [| split ].
      * unfold stop_streaming. destruct (negb _); split; simpl;
          reflexivity || exact Hpc.
      * rewrite Hoff, Hconn. split; [ discriminate | congruence ].
      * exact Htr2.
    + split; [| split ].
      * split; [ reflexivity | exact Hpc ].
      * simpl. assert (Hne : active_connections s ∖ {[ws]} <> ∅).
        { intros He. apply Hnz. rewrite He. apply size_empty. }
        split; [ intros _; exact Hne | ].
        intros _. apply Hflag. set_solver.
      * exact Htr.
Qed.

(** After any sequence of attach and detach operations, each run to
    completion before the next begins, the flag is set exactly when the
    registry is not empty. *)
Lemma serial_operations_consistent (ops : list operation) :
  consistent (perform_all ops init).
Proof.
  unfold perform_all. generalize consistent_init. generalize init.
  induction ops as [| op ops IH]; intros s Hs; [ exact Hs | ].
  cbn [foldl]. apply IH, perform_consistent, Hs.
Qed.

(** Attaching to an empty registry starts exactly one stream loop. *)
Lemma attach_first_starts_streaming (ws : websocket) (s : state) :
  consistent s -> active_connections s = ∅ ->
  let s' := perform (Attach ws) s in
  is_streaming s = false /\ is_streaming s' = true
  /\ loop_tasks s' = loop_tasks s ++ [Running].
Proof.
  intros Hc He s'. pose proof Hc as (_ & Hflag & _).
  assert (Hoff : is_streaming s = false).
  { destruct (is_streaming s); [| reflexivity ].
    exfalso. apply (proj1 Hflag); [ reflexivity | exact He ]. }
  unfold s'. rewrite attach_state by exact Hc. unfold start_streaming.
  cbn [is_streaming]. rewrite Hoff. repeat split; reflexivity.
Qed.

(** Attaching while streaming starts nothing. *)
Lemma attach_more_keeps_streaming (ws : websocket) (s : state) :
  consistent s -> active_connections s <> ∅ ->
  let s' := perform (Attach ws) s in
  is_streaming s' = true /\ loop_tasks s' = loop_tasks s
  /\ stream_task s' = stream_task s.
Proof.
  intros Hc Hne s'. pose proof Hc as (_ & Hflag & _).
  assert (Hon : is_streaming s = true) by (apply Hflag, Hne).
  unfold s'. rewrite attach_state by exact Hc. unfold start_streaming.
  cbn [is_streaming]. rewrite Hon. repeat split; reflexivity || exact Hon.
Qed.

(** Attaching a connection that is already registered changes nothing. *)
Lemma attach_present_noop (ws : websocket) (s : state) :
  consistent s -> ws ∈ active_connections s -> perform (Attach ws) s = s.
Proof.
  intros Hc Hin. pose proof Hc as ((_ & Hpc) & Hflag & _).
  assert (Hon : is_streaming s = true) by (apply Hflag; set_solver).
  rewrite attach_state by exact Hc. unfold start_streaming.
  cbn [is_streaming]. rewrite Hon.
  assert (Hsame : {[ws]} ∪ active_connections s = active_connections s)
    by set_solver.
  rewrite Hsame. destruct s; simpl in *. congruence.
Qed.

(** Detaching the last connection stops the stream: flag cleared, no
    loop left running. *)
Lemma detach_last_stops_streaming (ws : websocket) (s : state) :
  consistent s -> active_connections s = {[ws]} ->
  let s' := perform (Detach ws) s in
  is_streaming s = true /\ is_streaming s' = false /\ no_loop_running s'.
Proof.
  intros Hc Hlast s'. pose proof Hc as (_ & Hflag & Htr).
  assert (Hon : is_streaming s = true) by (apply Hflag; set_solver).
  split; [ exact Hon | ].
  unfold s'. rewrite detach_state by exact Hc.
  assert (He : active_connections s ∖ {[ws]} = ∅) by set_solver.
  rewrite He, size_empty. cbn [Nat.eqb].
  set (s1 := {| active_connections := ∅ |}).
  assert (Htr1 : tasks_tracked s1) by exact Htr.
  destruct (stop_streaming_idle s1 Htr1) as (Hoff & Hnone & _).
  split; assumption.
Qed.

(** Detaching a connection that is not registered changes nothing. *)
Lemma detach_absent_noop (ws : websocket) (s : state) :
  consistent s -> ws ∉ active_connections s -> perform (Detach ws) s = s.
Proof.
  intros Hc Hout. pose proof Hc as ((Hps & _) & Hflag & _).
  rewrite detach_state by exact Hc.
  assert (Hsame : active_connections s ∖ {[ws]} = active_connections s)
    by set_solver.
  rewrite Hsame.
  destruct (Nat.eqb_spec (size (active_connections s)) 0) as [Hz | Hnz].
  - apply size_empty_iff, leibniz_equiv in Hz.
    assert (Hoff : is_streaming s = false).
    { destruct (is_streaming s); [| reflexivity ].
      exfalso. apply (proj1 Hflag); [ reflexivity | exact Hz ]. }
    unfold stop_streaming. cbn [is_streaming]. rewrite Hoff. cbn [negb].
    destruct s; simpl in *. congruence.
  - destruct s; simpl in *. congruence.
Qed.

(** ** Attach overtaking a pending stop *)

(** The schedule: client A connects and disconnects; client B connects
    and reaches the test of the flag before the [stop_streaming()] task
    created by the disconnect has run; that task runs last. *)
Definition overtaking_schedule : list event :=
  [ ConnectRegister client_a; ConnectResume client_a;
    Disconnect client_a;
    ConnectRegister client_b; ConnectResume client_b;
    RunStop ].

(** C3 fails on this schedule: nothing is pending any more, client B is
    registered, and yet the flag is cleared and no stream loop runs. *)
Theorem stale_stop_strands_client :
  exists s,
    run overtaking_schedule init = Some s
    /\ quiescent s
    /\ active_connections s = {[client_b]}
    /\ is_streaming s = false
    /\ no_loop_running s.
Proof.
  eexists. split; [ vm_compute; reflexivity | ].
  split; [ split; reflexivity | ].
  split; [ vm_compute; reflexivity | ].
  split; [ reflexivity | ].
  intros [| [| t]]; simpl; discriminate.
Qed.

End BroadcasterSpec.

(** * Decoding: further properties of postprocess_detections *)

Module DecodingSpec.
Import Detector DetectorSpec.

Lemma Qgt_bool_iff (a b : Q) : Qgt_bool a b = true <-> (b < a)%Q.
Proof.
  unfold Qgt_bool. rewrite negb_true_iff. split.
  - intros H. apply Qnot_le_lt. intros Hle. apply Qle_bool_iff in Hle. congruence.
  - intros H. destruct (Qle_bool a b) eqn:Hle; [| reflexivity ].
    apply Qle_bool_iff in Hle. exfalso. eapply Qlt_not_le; eassumption.
Qed.

Lemma Qgt_bool_false (a b : Q) : Qgt_bool a b = false -> (a <= b)%Q.
Proof.
  unfold Qgt_bool. rewrite negb_false_iff. apply Qle_bool_iff.
Qed.

(** [i] is the position of the first maximum of [l], with value [s]. *)
Definition first_maximum (l : list Q) (i : nat) (s : Q) : Prop :=
  nth_error l i = Some s
  /\ (forall j t, nth_error l j = Some t -> (t <= s)%Q)
  /\ (forall j t, (j < i)%nat -> nth_error l j = Some t -> (t < s)%Q).

Lemma argmax_from_first_maximum (l seen : list Q) (best_i : nat) (best : Q) :
  first_maximum seen best_i best ->
  exists s, first_maximum (seen ++ l)
              (argmax_from best_i best (length seen) l) s.
Proof.
  revert seen best_i best. induction l as [| x l IH]; intros seen bi b Hmax.
  - simpl. rewrite app_nil_r. eauto.
  - cbn [argmax_from].
    replace (seen ++ x :: l) with ((seen ++ [x]) ++ l)
      by (rewrite <- app_assoc; reflexivity).
    replace (S (length seen)) with (length (seen ++ [x]))
      by (rewrite length_app; simpl; lia).
    destruct Hmax as (Hb & Hle & Hlt).
    assert (Hbi : (bi < length seen)%nat)
      by (apply nth_error_Some; congruence).
    destruct (Qgt_bool x b) eqn:Hx.
    + apply Qgt_bool_iff in Hx. apply IH. split; [| split ].
      * rewrite nth_error_app2 by lia. rewrite Nat.sub_diag. reflexivity.
      * intros j t Hj. destruct (Nat.lt_ge_cases j (length seen)) as [Hin | Hout].
        -- rewrite nth_error_app1 in Hj by exact Hin.
           apply Qle_trans with b; [ eapply Hle; eassumption | ].
           apply Qlt_le_weak, Hx.
        -- rewrite nth_error_app2 in Hj by exact Hout.
           destruct (j - length seen)%nat as [| k]; simpl in Hj.
           ++ injection Hj as <-. apply Qle_refl.
           ++ destruct k; discriminate.
      * intros j t Hj Ht. rewrite nth_error_app1 in Ht by exact Hj.
        apply Qle_lt_trans with b; [ eapply Hle; eassumption | exact Hx ].
    + apply Qgt_bool_false in Hx. apply IH. split; [| split ].
      * rewrite nth_error_app1 by exact Hbi. exact Hb.
      * intros j t Hj. destruct (Nat.lt_ge_cases j (length seen)) as [Hin | Hout].
        -- rewrite nth_error_app1 in Hj by exact Hin. eapply Hle; eassumption.
        -- rewrite nth_error_app2 in Hj by exact Hout.
           destruct (j - length seen)%nat as [| k]; simpl in Hj.
           ++ injection Hj as <-. exact Hx.
           ++ destruct k; discriminate.
      * intros j t Hj Ht. rewrite nth_error_app1 in Ht by lia.
        eapply Hlt; eassumption.
Qed.

Lemma np_argmax_cases (scores : list Q) :
  match np_argmax scores with
  | Ok i => exists s, first_maximum scores i s
  | Raise _ => scores = []
  end.
Proof.
  destruct scores as [| x l]; simpl; [ reflexivity | ].
  apply (argmax_from_first_maximum l [x] 0 x).
  split; [ reflexivity | split ].
  - intros [| [| j]] t; simpl; try discriminate.
    intros [= <-]. apply Qle_refl.
  - intros j t Hj. lia.
Qed.

(** ** Where a returned detection comes from *)

(** What the loop body stores for a candidate that passes its test. *)
Lemma decode_candidate_fields ow oh sx sy thr row d :
  decode_candidate ow oh sx sy thr row = Ok (Some d) ->
  exists cx cy w h scores,
    row = cx :: cy :: w :: h :: scores
    /\ np_argmax scores = Ok (class_id d)
    /\ confidence d = nth (class_id d) scores 0%Q
    /\ (class_id d < 8)%nat
    /\ det_bbox d
       = BBox (clamp (py_int ((cx - w / 2) * sx)%Q) ow)
              (clamp (py_int ((cy - h / 2) * sy)%Q) oh)
              (clamp (py_int ((cx + w / 2) * sx)%Q) ow)
              (clamp (py_int ((cy + h / 2) * sy)%Q) oh)
    /\ class_name d
       = default ("defect_" +:+ pretty (class_id d))
                 (defect_class_names !! class_id d)
    /\ color d = default (255, 255, 255) (defect_colors !! class_id d).
Proof.
  unfold decode_candidate.
  destruct row as [| cx [| cy [| w [| h scores]]]]; try discriminate.
  destruct (np_argmax scores) as [cid |] eqn:Harg; [| discriminate ]. simpl.
  destruct (Qge_bool (nth cid scores 0%Q) thr); [| discriminate ].
  destruct (Nat.ltb_spec cid (size defect_class_names)) as [Hlt |];
    [| discriminate ].
  assert (Hsize : size defect_class_names = 8%nat) by reflexivity.
  rewrite Hsize in Hlt.
  simpl. intros [= <-]. exists cx, cy, w, h, scores. simpl.
  repeat split; try reflexivity; assumption.
Qed.

Lemma decode_loop_origin ow oh sx sy thr rows ds :
  decode_loop ow oh sx sy thr rows = Ok ds ->
  forall d, In d ds ->
            exists row, In row rows
                        /\ decode_candidate ow oh sx sy thr row = Ok (Some d).
Proof.
  revert ds. induction rows as [| row rows IH]; simpl; intros ds.
  - intros [= <-] d [].
  - destruct (decode_candidate ow oh sx sy thr row) as [o |] eqn:Hd; [| discriminate ].
    simpl. destruct (decode_loop ow oh sx sy thr rows) as [ds' |]; [| discriminate ].
    simpl. intros [= <-] d Hin.
    assert (Htail : In d ds' -> exists row0, (row = row0 \/ In row0 rows)
                      /\ decode_candidate ow oh sx sy thr row0 = Ok (Some d)).
    { intros H. destruct (IH ds' eq_refl d H) as (r & Hr & Hdr). eauto. }
    destruct o as [d0 |]; [| exact (Htail Hin) ].
    destruct Hin as [<- | Hin]; [ eauto | exact (Htail Hin) ].
Qed.

Lemma postprocess_origin nms outputs ow oh iw ih thr out :
  postprocess_detections nms outputs (ow, oh) (iw, ih) thr = Ok out ->
  exists rows sx sy,
    candidates outputs = Ok rows
    /\ true_div ow iw = Ok sx /\ true_div oh ih = Ok sy
    /\ forall d, In d out ->
         exists row, In row rows
                     /\ decode_candidate ow oh sx sy thr row = Ok (Some d).
Proof.
  intros H. destruct (postprocess_inv _ _ _ _ _ _ _ _ H)
    as (rows & sx & sy & ds & Hc & Hsx & Hsy & Hd & Hn).
  exists rows, sx, sy. repeat split; try assumption.
  intros d Hin. apply (decode_loop_origin _ _ _ _ _ _ _ Hd).
  eapply apply_nms_incl; eassumption.
Qed.

(** The class tables cover every class id the filter lets through. *)
Lemma class_tables_cover (cid : nat) :
  (cid < 8)%nat ->
  exists name c, defect_class_names !! cid = Some name
                 /\ defect_colors !! cid = Some c.
Proof.
  intros H. do 8 (destruct cid as [| cid]; [ eexists _, _; split; reflexivity | ]).
  lia.
Qed.

(** Every detection returned by [postprocess_detections] has a class id
    below 8 and carries the name and the colour the two tables give for
    that id: the fallback name ["defect_<id>"] and the fallback colour
    white are never used. *)
Theorem returned_classes_are_tabulated
    (nms : list bbox -> list Q -> Q -> Q -> list nat)
    (outputs : list tensor) (ow oh iw ih : Z) (thr : Q) :
  match postprocess_detections nms outputs (ow, oh) (iw, ih) thr with
  | Ok out =>
      Forall (fun d => (class_id d < 8)%nat
                       /\ defect_class_names !! class_id d = Some (class_name d)
                       /\ defect_colors !! class_id d = Some (color d)) out
  | Raise _ => True
  end.
Proof.
  destruct (postprocess_detections nms outputs (ow, oh) (iw, ih) thr)
    as [out |] eqn:H; [| exact I ].
  destruct (postprocess_origin _ _ _ _ _ _ _ _ H) as (rows & sx & sy & _ & _ & _ & Ho).
  apply List.Forall_forall. intros d Hin.
  destruct (Ho d Hin) as (row & _ & Hd).
  destruct (decode_candidate_fields _ _ _ _ _ _ _ Hd)
    as (cx & cy & w & h & scores & _ & _ & _ & Hlt & _ & Hname & Hcol).
  destruct (class_tables_cover _ Hlt) as (name & c & Hn & Hc).
  rewrite Hn in Hname. rewrite Hc in Hcol. simpl in Hname, Hcol.
  repeat split; congruence.
Qed.

(** Every detection returned stems from one candidate of the output: its
    class is the position of the first maximal class score of that
    candidate, its confidence is that score, and no class score of the
    candidate exceeds it. *)
Theorem returned_confidence_is_best_score
    (nms : list bbox -> list Q -> Q -> Q -> list nat)
    (outputs : list tensor) (ow oh iw ih : Z) (thr : Q) :
  match postprocess_detections nms outputs (ow, oh) (iw, ih) thr,
        candidates outputs with
  | Ok out, Ok rows =>
      Forall (fun d =>
                exists row, In row rows
                  /\ first_maximum (skipn 4 row) (class_id d) (confidence d)) out
  | Ok _, Raise _ => False
  | Raise _, _ => True
  end.
Proof.
  destruct (postprocess_detections nms outputs (ow, oh) (iw, ih) thr)
    as [out |] eqn:H; [| exact I ].
  destruct (postprocess_origin _ _ _ _ _ _ _ _ H) as (rows & sx & sy & -> & _ & _ & Ho).
  apply List.Forall_forall. intros d Hin.
  destruct (Ho d Hin) as (row & Hrow & Hd).
  destruct (decode_candidate_fields _ _ _ _ _ _ _ Hd)
    as (cx & cy & w & h & scores & -> & Harg & Hconf & _).
  exists (cx :: cy :: w :: h :: scores). split; [ exact Hrow | ].
  cbn [skipn]. pose proof (np_argmax_cases scores) as Hmax.
  rewrite Harg in Hmax. destruct Hmax as (s & Hs).
  replace (confidence d) with s; [ exact Hs | ].
  rewrite Hconf. destruct Hs as (Hnth & _).
  symmetry. apply nth_error_nth. exact Hnth.
Qed.

(** ** Edge cases of the decoding *)

Lemma decode_candidate_below ow oh sx sy thr row :
  (5 <= length row)%nat ->
  Forall (fun s => (s < thr)%Q) (skipn 4 row) ->
  decode_candidate ow oh sx sy thr row = Ok None.
Proof.
  intros Hlen Hlow.
  destruct row as [| cx [| cy [| w [| h [| s0 scores]]]]]; simpl in Hlen; try lia.
  cbn [skipn] in Hlow. unfold decode_candidate.
  pose proof (np_argmax_cases (s0 :: scores)) as Hmax.
  destruct (np_argmax (s0 :: scores)) as [cid |]; [| discriminate ].
  destruct Hmax as (s & Hnth & _). unfold mbind, outcome_bind, obind.
  rewrite (nth_error_nth _ _ 0%Q Hnth).
  assert (Hs : (s < thr)%Q).
  { eapply List.Forall_forall in Hlow; [ exact Hlow | ].
    eapply nth_error_In; eassumption. }
  destruct (Qge_bool s thr) eqn:Hge; [| reflexivity ].
  apply Qge_bool_iff in Hge. exfalso. eapply Qlt_not_le; eassumption.
Qed.

(** When no candidate has a class score that reaches the threshold, the
    result is the empty list, and the suppression is not consulted. *)
Theorem nothing_above_threshold_gives_empty
    (nms : list bbox -> list Q -> Q -> Q -> list nat)
    (outputs : list tensor) (ow oh iw ih : Z) (thr : Q)
    (rows : list (list Q)) :
  candidates outputs = Ok rows ->
  iw <> 0 -> ih <> 0 ->
  Forall (fun row => (5 <= length row)%nat
                     /\ Forall (fun s => (s < thr)%Q) (skipn 4 row)) rows ->
  postprocess_detections nms outputs (ow, oh) (iw, ih) thr = Ok [].
Proof.
  unfold candidates, postprocess_detections. intros Hc Hiw Hih Hrows.
  destruct (py_index outputs 0) as [p |]; [| discriminate ]. simpl in *.
  unfold true_div.
  destruct (Z.eqb_spec iw 0); [ contradiction | ].
  destruct (Z.eqb_spec ih 0); [ contradiction | ]. simpl.
  rewrite Hc. simpl.
  assert (Hd : forall sx sy, decode_loop ow oh sx sy thr rows = Ok []).
  { intros sx sy. clear Hc.
    induction Hrows as [| row rows [Hlen Hlow] _ IH]; [ reflexivity | ].
    simpl. rewrite (decode_candidate_below _ _ _ _ _ _ Hlen Hlow). simpl.
    rewrite IH. reflexivity. }
  rewrite Hd. reflexivity.
Qed.

(** A tensor with three candidates whose best scores are 0.3, 0.2, 0.4. *)
Definition faint_output : list tensor :=
  [ [ [ [100%Q; 10%Q; 12%Q]; [100%Q; 10%Q; 11%Q]; [50%Q; 4%Q; 4%Q];
        [20%Q; 4%Q; 4%Q]; [(3 # 10)%Q; (2 # 10)%Q; (4 # 10)%Q] ] ] ].

Lemma nothing_above_threshold_gives_empty_witness :
  postprocess_detections NMSBoxes faint_output (640, 480) (640, 640) (1 # 2)
  = Ok [].
Proof.
  apply (nothing_above_threshold_gives_empty NMSBoxes faint_output
           640 480 640 640 (1 # 2)
           [ [100%Q; 100%Q; 50%Q; 20%Q; (3 # 10)%Q];
             [10%Q; 10%Q; 4%Q; 4%Q; (2 # 10)%Q];
             [12%Q; 11%Q; 4%Q; 4%Q; (4 # 10)%Q] ]).
  - reflexivity.
  - lia.
  - lia.
  - repeat constructor; simpl; lia.
Defined.




(** ** When postprocess_detections returns *)

(** The suppression hands back positions of the list it was given. *)
Lemma decode_loop_rows ow oh sx sy thr rows ds :
  decode_loop ow oh sx sy thr rows = Ok ds ->
  Forall (fun row => (5 <= length row)%nat) rows.
Proof.
  revert ds. induction rows as [| row rows IH]; simpl; intros ds; [ constructor | ].
  destruct (decode_candidate ow oh sx sy thr row) as [o |] eqn:Hd; [| discriminate ].
  simpl. destruct (decode_loop ow oh sx sy thr rows) as [ds' |]; [| discriminate ].
  intros _. constructor; [| apply (IH ds' eq_refl) ].
  unfold decode_candidate in Hd.
  destruct row as [| cx [| cy [| w [| h [| s0 scores]]]]]; try discriminate.
  simpl. lia.
Qed.

(** [postprocess_detections] returns a list only for a well-formed call:
    the output holds a batch whose candidates all have four box
    parameters and at least one class score, and neither side of the
    input size is zero.  In every other case it raises, whatever the
    scores are. *)
Theorem postprocess_detections_rejects_malformed
    (nms : list bbox -> list Q -> Q -> Q -> list nat)
    (outputs : list tensor) (ow oh iw ih : Z) (thr : Q)
    (out : list detection) :
  postprocess_detections nms outputs (ow, oh) (iw, ih) thr = Ok out ->
  (exists rows, candidates outputs = Ok rows
                /\ Forall (fun row => (5 <= length row)%nat) rows)
  /\ iw <> 0 /\ ih <> 0.
Proof.
  intros H. destruct (postprocess_inv _ _ _ _ _ _ _ _ H)
    as (rows & sx & sy & ds & Hc & Hsx & Hsy & Hd & _).
  split; [ exists rows; split; [ exact Hc | eapply decode_loop_rows; eassumption ] | ].
  unfold true_div in Hsx, Hsy.
  destruct (Z.eqb_spec iw 0); [ discriminate | ].
  destruct (Z.eqb_spec ih 0); [ discriminate | ]. split; assumption.
Qed.

Lemma postprocess_detections_rejects_malformed_witness :
  (exists rows, candidates sample_output = Ok rows
                /\ Forall (fun row => (5 <= length row)%nat) rows)
  /\ 640 <> 0 /\ 640 <> 0.
Proof.
  eapply (postprocess_detections_rejects_malformed NMSBoxes sample_output
            640 640 640 640 (1 # 2)).
  reflexivity.
Defined.

End DecodingSpec.

(** * Verification of the detection entry points *)

Module InferenceSpec.
Import Camera Inference.

Lemma cvtColor_shape (f g : frame) : cvtColor f = Ok g -> shape g = shape f.
Proof.
  unfold cvtColor. destruct (_ || _); [ discriminate | ].
  intros [= <-]. reflexivity.
Qed.

(** Converting twice gives back every pixel. *)
Lemma cvtColor_involutive (f g h : frame) :
  cvtColor f = Ok g -> cvtColor g = Ok h ->
  shape h = shape f /\ forall i j, at_pixel h i j = at_pixel f i j.
Proof.
  unfold cvtColor. destruct (_ || _); [ discriminate | ]. intros [= <-].
  cbn [rows cols]. destruct (_ || _); [ discriminate | ]. intros [= <-].
  split; [ reflexivity | ]. intros i j. cbn [at_pixel].
  destruct (at_pixel f i j) as [[c0 c1] c2]. reflexivity.
Qed.

Lemma try_reraise {A} (body : outcome A) : try_except body (fun e => Raise e) = body.
Proof. destruct body; reflexivity. Qed.

Lemma frame_detections_in_frame (w : world) (rt : runtime)
    (nms : list Detector.bbox -> list Q -> Q -> Q -> list nat)
    (f : frame) (thr : Q) :
  match detect_defects_from_frame w rt nms f thr with
  | Ok (_, detections) =>
      Forall (fun d =>
                DetectorSpec.in_frame (Z.of_nat (cols f)) (Z.of_nat (rows f)) d
                /\ DetectorSpec.confident thr d) detections
  | Raise _ => True
  end.
Proof.
  unfold detect_defects_from_frame. rewrite try_reraise.
  destruct (cvtColor f) as [rgb |] eqn:Hrgb; [| exact I ].
  apply cvtColor_shape in Hrgb. unfold shape in Hrgb. injection Hrgb as Hr Hc.
  cbn [mbind outcome_bind obind shape]. rewrite Hr, Hc.
  destruct (cv2_resize w rgb (640, 640)) as [resized |]; [| exact I ].
  cbn [mbind outcome_bind obind].
  destruct (session_run rt (to_input_tensor resized)) as [outputs |]; [| exact I ].
  cbn [mbind outcome_bind obind].
  destruct (Detector.postprocess_detections nms outputs _ _ thr) as [ds |] eqn:Hp;
    [| exact I ].
  cbn [mbind outcome_bind obind].
  destruct (draw_defect_detections w rt rgb ds) as [img |]; [| exact I ].
  cbn [mbind outcome_bind obind].
  eapply DetectorSpec.postprocess_detections_in_frame; [ lia | lia | exact Hp ].
Qed.

(** Whatever the model outputs, the detections that
    [detect_defects_from_frame] returns for a frame have every box corner
    inside that frame and a confidence not below the threshold. *)
Theorem detect_defects_from_frame_in_frame (w : world) (rt : runtime)
    (nms : list Detector.bbox -> list Q -> Q -> Q -> list nat)
    (f : frame) (thr : Q) :
  match detect_defects_from_frame w rt nms f thr with
  | Ok (_, detections) =>
      Forall (fun d =>
                let b := Detector.det_bbox d in
                0 <= Detector.bx1 b <= Z.of_nat (cols f)
                /\ 0 <= Detector.bx2 b <= Z.of_nat (cols f)
                /\ 0 <= Detector.by1 b <= Z.of_nat (rows f)
                /\ 0 <= Detector.by2 b <= Z.of_nat (rows f)
                /\ (thr <= Detector.confidence d)%Q) detections
  | Raise _ => True
  end.
Proof.
  pose proof (frame_detections_in_frame w rt nms f thr) as H.
  destruct (detect_defects_from_frame w rt nms f thr) as [[img ds] |]; [| exact I ].
  eapply List.Forall_impl; [| exact H ].
  intros d [[[Hx1 Hx2] [Hy1 Hy2]] Hconf]. repeat split; tauto.
Qed.

(** [detect_defects_from_file] raises [ValueError] naming the path when
    the image cannot be read; for a readable image the boxes it returns
    lie inside that image. *)
Theorem detect_defects_from_file_checks_image (w : world) (rt : runtime)
    (nms : list Detector.bbox -> list Q -> Q -> Q -> list nat)
    (image_path : string) (thr : Q) :
  match imread rt image_path, detect_defects_from_file w rt nms image_path thr with
  | None, result =>
      result = Raise (ValueError ("Cannot read image: " +:+ image_path))
  | Some image, Ok (_, detections) =>
      Forall (fun d =>
                DetectorSpec.in_frame (Z.of_nat (cols image))
                                      (Z.of_nat (rows image)) d) detections
  | Some _, Raise _ => True
  end.
Proof.
  unfold detect_defects_from_file, preprocess_image. rewrite try_reraise.
  destruct (imread rt image_path) as [image |]; [| reflexivity ].
  destruct (cvtColor image) as [rgb |] eqn:Hrgb; [| exact I ].
  apply cvtColor_shape in Hrgb. unfold shape in Hrgb. injection Hrgb as Hr Hc.
  cbn [mbind outcome_bind obind shape]. rewrite Hr, Hc.
  destruct (cv2_resize w rgb (640, 640)) as [resized |]; [| exact I ].
  cbn [mbind outcome_bind obind].
  destruct (session_run rt (to_input_tensor resized)) as [outputs |]; [| exact I ].
  cbn [mbind outcome_bind obind].
  destruct (Detector.postprocess_detections nms outputs _ _ thr) as [ds |] eqn:Hp;
    [| exact I ].
  cbn [mbind outcome_bind obind].
  destruct (draw_defect_detections w rt rgb ds) as [img |]; [| exact I ].
  cbn [mbind outcome_bind obind].
  assert (Hin : Forall (fun d =>
                  DetectorSpec.in_frame (Z.of_nat (cols image))
                                        (Z.of_nat (rows image)) d
                  /\ DetectorSpec.confident thr d) ds)
    by (eapply DetectorSpec.postprocess_detections_in_frame;
        [ lia | lia | exact Hp ]).
  eapply List.Forall_impl; [| exact Hin ].
  intros d [Hd _]. exact Hd.
Qed.

End InferenceSpec.

(** * Capture: further properties of capture_image and of the analysis *)

Module CaptureSpec.
Import Camera CameraSpec.

(** ** The result of a capture *)

(** A capture either fails, and then carries no path, no image and no
    detection results; or it succeeds, and then names the file it wrote:
    the captures directory, a slash, and the file name given by the caller
    or ["capture_<timestamp>.jpg"]. *)
Theorem capture_image_all_or_nothing (w : world) (self : camera_service)
    (filename : option string) (apply_detection : bool) :
  exists r,
    capture_image w self filename apply_detection = Ok r
    /\ ((r !! "success" = Some (VBool false)
         /\ r !! "filepath" = Some VNone
         /\ r !! "base64_image" = Some VNone
         /\ r !! "detection_results" = Some VNone)
        \/ (exists dir image,
              let name :=
                default ("capture_" +:+ strftime w +:+ ".jpg") filename in
              get_full_captures_dir w = Ok dir
              /\ r !! "success" = Some (VBool true)
              /\ r !! "message" = Some (VStr ("Image saved as " +:+ name))
              /\ r !! "filepath" = Some (VStr (dir +:+ "/" +:+ name))
              /\ r !! "base64_image" = Some (VStr image))).
Proof.
  unfold capture_image.
  destruct (get_current_frame self) as [f |]; simpl;
    [| eexists; split; [ reflexivity | left; repeat split ] ].
  destruct (get_full_captures_dir w) as [dir | e] eqn:Hdir; simpl;
    [| eexists; split; [ reflexivity | left; repeat split ] ].
  destruct (makedirs w dir) as [[] | e]; simpl;
    [| eexists; split; [ reflexivity | left; repeat split ] ].
  destruct (resize_to_square w f 640) as [sq | e]; simpl;
    [| eexists; split; [ reflexivity | left; repeat split ] ].
  destruct (detection_step w self apply_detection sq) as [[pf dr] | e]; simpl;
    [| eexists; split; [ reflexivity | left; repeat split ] ].
  destruct (cv2_imwrite w _ pf) as [[] | e]; simpl;
    [ | eexists; split; [ reflexivity | left; repeat split ]
      | eexists; split; [ reflexivity | left; repeat split ] ].
  destruct (frame_to_base64_total w pf 80) as [img ->]. simpl.
  eexists. split; [ reflexivity | ]. right. exists dir, img.
  destruct filename; repeat split.
Qed.

(** ** Capture without detection *)

(** With [apply_detection=False] the detector and the detection flag play
    no part: the result is the one of a service without detector, and it
    never carries detection results. *)
Theorem capture_without_detection (w : world) (self : camera_service)
    (filename : option string) :
  capture_image w self filename false
  = capture_image w {| current_frame := current_frame self;
                       defect_detector := None;
                       detection_enabled := false |} filename false
  /\ match capture_image w self filename false with
     | Ok r => r !! "detection_results" = Some VNone
     | Raise _ => False
     end.
Proof.
  assert (Hstep : forall s sq, detection_step w s false sq = Ok (sq, VNone))
    by reflexivity.
  unfold capture_image, get_current_frame. cbn [current_frame].
  destruct (current_frame self) as [f |]; simpl; [| split; reflexivity ].
  destruct (get_full_captures_dir w) as [dir | e]; simpl; [| split; reflexivity ].
  destruct (makedirs w dir) as [[] | e]; simpl; [| split; reflexivity ].
  destruct (resize_to_square w f 640) as [sq | e]; simpl; [| split; reflexivity ].
  try rewrite !Hstep. simpl.
  destruct (cv2_imwrite w _ sq) as [[] | e]; simpl; try (split; reflexivity).
  destruct (frame_to_base64_total w sq 80) as [img ->]. simpl.
  split; reflexivity.
Qed.

(** ** A failing detector *)

(** When the detector raises, the capture still succeeds: the plain
    square frame is written, the error text is stored under
    ["detection_results"]["error"], and no analysis is added. *)
Theorem detector_failure_keeps_capture (w : world) (self : camera_service)
    (filename : option string) (f square : frame) (detect : detector)
    (e : exn) (dir : string) :
  let name := default ("capture_" +:+ strftime w +:+ ".jpg") filename in
  current_frame self = Some f ->
  defect_detector self = Some detect ->
  detection_enabled self = true ->
  get_full_captures_dir w = Ok dir ->
  makedirs w dir = Ok tt ->
  resize_to_square w f 640 = Ok square ->
  detect square = Raise e ->
  cv2_imwrite w (dir +:+ "/" +:+ name) square = Ok true ->
  exists r,
    capture_with_detection_analysis w self filename = Ok r
    /\ r !! "success" = Some (VBool true)
    /\ r !! "detection_results"
       = Some (VDict (<["error" := VStr (exn_str e)]> ∅))
    /\ r !! "analysis" = None.
Proof.
  intros name Hf Hdet Hen Hdir Hmk Hsq Hraise Hwrite.
  unfold capture_with_detection_analysis, capture_image, get_current_frame.
  rewrite Hf. simpl. rewrite Hdir. simpl. rewrite Hmk. simpl.
  rewrite Hsq. simpl.
  rewrite (detection_failure_is_absorbed w self square detect e Hdet Hen Hraise).
  simpl. fold name.
  replace (match filename with
           | Some name0 => name0
           | None => "capture_" +:+ strftime w +:+ ".jpg"
           end) with name by (unfold name; destruct filename; reflexivity).
  rewrite Hwrite. simpl.
  destruct (frame_to_base64_total w square 80) as [img ->]. simpl.
  eexists. split; [ reflexivity | ]. repeat split.
Qed.

(** A world whose detector always fails. *)
Definition failing_detector : detector :=
  fun _ => Raise (Exception "RuntimeError" "inference failed").

Definition faulty_service : camera_service :=
  {| current_frame := Some vga_frame;
     defect_detector := Some failing_detector;
     detection_enabled := true |}.

Lemma detector_failure_keeps_capture_witness :
  exists r,
    capture_with_detection_analysis plain_world faulty_service
      (Some "shot.jpg") = Ok r
    /\ r !! "success" = Some (VBool true)
    /\ r !! "detection_results"
       = Some (VDict (<["error" := VStr "inference failed"]> ∅))
    /\ r !! "analysis" = None.
Proof.
  refine (detector_failure_keeps_capture plain_world faulty_service
            (Some "shot.jpg") vga_frame _ failing_detector
            (Exception "RuntimeError" "inference failed") "captures"
            eq_refl eq_refl eq_refl eq_refl eq_refl eq_refl eq_refl eq_refl).
Defined.

(** ** When the analysis is added *)

(** [capture_with_detection_analysis] adds the key ["analysis"] exactly
    when the capture succeeded and its detection results hold a list of
    detections; it leaves the other keys as [capture_image] set them. *)
Theorem analysis_added_iff (w : world) (self : camera_service)
    (filename : option string) :
  exists r,
    capture_with_detection_analysis w self filename = Ok r
    /\ (is_Some (r !! "analysis")
        <-> r !! "success" = Some (VBool true)
            /\ exists data ds,
                 r !! "detection_results" = Some (VDict data)
                 /\ data !! "detections" = Some (VDetections ds)).
Proof.
  unfold capture_with_detection_analysis.
  destruct (capture_image_shape w self filename true) as (res & -> & Hs).
  assert (Hno : forall b m p i d,
             b = false ->
             exists r : pydict,
               Ok (capture_result b m p i d) = Ok r
               /\ (is_Some (r !! "analysis")
                   <-> r !! "success" = Some (VBool true)
                       /\ exists data ds,
                            r !! "detection_results" = Some (VDict data)
                            /\ data !! "detections" = Some (VDetections ds))).
  { intros b m p i d ->. eexists. split; [ reflexivity | ]. split.
    - intros [v Hv]. discriminate.
    - intros [Hsucc _]. discriminate. }
  simpl. destruct Hs as [ | f sq pf dr name path img Hf Hsq Hd Hw | | ];
    try (apply Hno; reflexivity).
  destruct (detection_step_results _ _ _ _ _ _ Hd)
    as [-> | [(ds & annotated & ->) | (msg & ->)]].
  - eexists. split; [ reflexivity | ]. split.
    + intros [v Hv]. discriminate.
    + intros (_ & data & ds & Hdr & _). discriminate.
  - eexists. split; [ reflexivity | ]. split.
    + intros _. split; [ reflexivity | ]. eexists _, ds. split; reflexivity.
    + intros _. eexists. reflexivity.
  - eexists. split; [ reflexivity | ]. split.
    + intros [v Hv]. discriminate.
    + intros (_ & data & ds & Hdr & Hdets).
      change (Some (VDict (<["error" := VStr msg]> ∅)) = Some (VDict data)) in Hdr.
      injection Hdr as <-. discriminate.
Qed.

(** ** The defect counters add up *)

Definition total_of (m : gmap string Z) : Z :=
  map_fold (fun _ v acc => v + acc) 0 m.

Lemma total_of_insert_fresh (m : gmap string Z) k v :
  m !! k = None -> total_of (<[k := v]> m) = v + total_of m.
Proof.
  intros Hk. unfold total_of. apply map_fold_insert_L; [| exact Hk ].
  intros. lia.
Qed.

Lemma total_of_bump (m : gmap string Z) k :
  total_of (<[k := default 0 (m !! k) + 1]> m) = total_of m + 1.
Proof.
  destruct (m !! k) as [v |] eqn:Hk; unfold default, from_option, id.
  - assert (E1 : <[k := v + 1]> m = <[k := v + 1]> (delete k m))
      by (symmetry; apply insert_delete_eq).
    assert (E2 : total_of m = v + total_of (delete k m)).
    { rewrite <- (insert_delete_id m k v Hk) at 1.
      apply total_of_insert_fresh, lookup_delete_eq. }
    rewrite E1, total_of_insert_fresh by apply lookup_delete_eq. lia.
  - rewrite total_of_insert_fresh by exact Hk. lia.
Qed.

(** The counters of [defects_by_type] sum to [total_defects], the
    number of detections. *)
Theorem defects_by_type_sums_to_total (detections : list det_dict) :
  total_of (count_defects detections) = Z.of_nat (length detections).
Proof.
  unfold count_defects.
  assert (H : forall ds (m : gmap string Z),
             total_of
               (foldl (fun defects_by_type d =>
                         <[defect_type_of d :=
                             default 0 (defects_by_type !! defect_type_of d) + 1]>
                           defects_by_type) m ds)
             = total_of m + Z.of_nat (length ds)).
  { induction ds as [| d ds IH]; intros m; cbn [foldl length].
    - lia.
    - rewrite IH, total_of_bump. lia. }
  rewrite H. unfold total_of. rewrite map_fold_empty. lia.
Qed.

End CaptureSpec.

(** * Capture with the detection service plugged in *)

Module PipelineSpec.
Import Camera CameraSpec Inference.

Lemma resize_to_square_shape (w : world) (f square : frame) (size : Z) :
  resize_contract (cv2_resize w) ->
  (1 <= cols f)%nat -> (1 <= rows f)%nat -> 0 < size ->
  resize_to_square w f size = Ok square ->
  shape square = (Z.to_nat size, Z.to_nat size).
Proof.
  intros Hres Hc Hr Hs. unfold resize_to_square, shape.
  assert (Hhalf : forall a b : nat, ((a - b) / 2 <= a - b)%nat)
    by (intros; apply Nat.Div0.div_le_upper_bound; lia).
  destruct (Nat.ltb_spec (rows f) (cols f)) as [Hwide | Htall].
  - pose proof (Hhalf (cols f) (rows f)).
    destruct (Hres (slice_cols f ((cols f - rows f) / 2)
                               ((cols f - rows f) / 2 + rows f)) size size)
      as (dst & Hdst & Hshape); try lia.
    + cbn [rows slice_cols]. lia.
    + unfold slice_cols, slice_len. cbn [cols]. lia.
    + rewrite Hdst. intros [= <-]. exact Hshape.
  - pose proof (Hhalf (rows f) (cols f)).
    destruct (Hres (slice_rows f ((rows f - cols f) / 2)
                               ((rows f - cols f) / 2 + cols f)) size size)
      as (dst & Hdst & Hshape); try lia.
    + unfold slice_rows, slice_len. cbn [rows]. lia.
    + cbn [cols slice_rows]. lia.
    + rewrite Hdst. intros [= <-]. exact Hshape.
Qed.

(** A detection dictionary whose box lies in the 640 x 640 image. *)
Definition box_in_square (d : det_dict) : Prop :=
  exists x1 y1 x2 y2,
    dd_bbox d = Some [x1; y1; x2; y2]
    /\ 0 <= x1 <= 640 /\ 0 <= y1 <= 640
    /\ 0 <= x2 <= 640 /\ 0 <= y2 <= 640.

(** With the detection service as detector, every detection that a
    capture reports has its box inside the 640 x 640 image that is saved,
    whatever the size of the camera frame and whatever the model
    outputs. *)
Theorem captured_boxes_lie_in_saved_image (w : world) (rt : runtime)
    (nms : list Detector.bbox -> list Q -> Q -> Q -> list nat)
    (self : camera_service) (filename : option string) (f : frame)
    (r data : pydict) (ds : list det_dict) :
  resize_contract (cv2_resize w) ->
  current_frame self = Some f ->
  (1 <= cols f)%nat -> (1 <= rows f)%nat ->
  defect_detector self = Some (as_detector w rt nms) ->
  capture_image w self filename true = Ok r ->
  r !! "detection_results" = Some (VDict data) ->
  data !! "detections" = Some (VDetections ds) ->
  Forall box_in_square ds.
Proof.
  intros Hres Hf Hc Hr Hdet Hcap Hdr Hdets.
  destruct (capture_image_shape w self filename true) as (r' & Hr' & Hs).
  rewrite Hcap in Hr'. injection Hr' as <-.
  destruct Hs as [ | f' sq pf dr name path img Hf' Hsq Hd Hw | | ];
    try (rewrite capture_result_detection_results in Hdr; discriminate).
  rewrite capture_result_detection_results in Hdr. injection Hdr as ->.
  unfold get_current_frame in Hf'. rewrite Hf in Hf'. injection Hf' as <-.
  pose proof (resize_to_square_shape w f sq 640 Hres Hc Hr ltac:(lia) Hsq) as Hshape.
  unfold shape in Hshape. injection Hshape as Hrows Hcols.
  unfold detection_step in Hd. rewrite Hdet in Hd.
  destruct (true && detection_enabled self); [| discriminate ].
  unfold as_detector, try_except in Hd.
  pose proof (InferenceSpec.frame_detections_in_frame w rt nms sq (5 # 10))
    as Hin.
  destruct (detect_defects_from_frame w rt nms sq (5 # 10)) as [[annotated dets] | e];
    simpl in Hd.
  - injection Hd as <- Hdata. rewrite <- Hdata in Hdets.
    change (Some (VDetections (map dict_of_detection dets)) = Some (VDetections ds))
      in Hdets.
    injection Hdets as <-.
    rewrite Hrows, Hcols in Hin. apply List.Forall_forall. intros d Hd.
    apply List.in_map_iff in Hd. destruct Hd as (det & <- & Hdet').
    eapply List.Forall_forall in Hin; [| exact Hdet' ].
    destruct Hin as [[[Hx1 Hx2] [Hy1 Hy2]] _].
    eexists _, _, _, _. split; [ reflexivity | ].
    change (Z.of_nat (Z.to_nat 640)) with 640 in *. lia.
  - injection Hd as _ Hdata. rewrite <- Hdata in Hdets. discriminate.
Qed.

(** A session that always answers with the sample output. *)
Definition sample_runtime : runtime :=
  {| imread := fun _ => Some vga_frame;
     session_run := fun _ => Ok DetectorSpec.sample_output;
     getTextSize := fun _ _ _ => Ok (120, 14);
     format_2f := fun _ => "0.90" |}.

Definition detecting_service : camera_service :=
  {| current_frame := Some vga_frame;
     defect_detector :=
       Some (as_detector plain_world sample_runtime Detector.NMSBoxes);
     detection_enabled := true |}.

Lemma captured_boxes_lie_in_saved_image_witness :
  Forall box_in_square sample_detections.
Proof.
  refine (captured_boxes_lie_in_saved_image plain_world sample_runtime
            Detector.NMSBoxes detecting_service None vga_frame _ _
            sample_detections nearest_resize_contract eq_refl _ _
            eq_refl eq_refl eq_refl eq_refl); simpl; lia.
Defined.

End PipelineSpec.

(** * Verification of the capture loop *)

Module AcquisitionSpec.
Import Camera Acquisition.

Lemma capture_iteration_cases (t : tick) (s : capture_state) :
  capture_iteration t s = s
  \/ capture_iteration t s = with_count s (frame_count s + 1)
  \/ exists f now,
       capture_iteration t s
       = publish_frame (with_count s (frame_count s + 1)) f now.
Proof.
  unfold capture_iteration.
  destruct (read t) as [[[] f] |]; auto.
  destruct (flip t f) as [g |]; auto.
  destruct (_ ≫= _) as [h |]; eauto.
Qed.

(** What the loop keeps true: a published frame stays published, the
    counter only grows and is at least 1 once a frame is published, and
    the detector and the detection flag are not touched. *)
Lemma capture_iteration_keeps (t : tick) (s : capture_state) :
  let s' := capture_iteration t s in
  (is_Some (get_current_frame s) -> is_Some (get_current_frame s'))
  /\ (frame_count s <= frame_count s' <= frame_count s + 1)%nat
  /\ ((is_Some (get_current_frame s) -> (1 <= frame_count s)%nat) ->
      is_Some (get_current_frame s') -> (1 <= frame_count s')%nat)
  /\ defect_detector (service s') = defect_detector (service s)
  /\ detection_enabled (service s') = detection_enabled (service s).
Proof.
  intros s'. unfold s'.
  destruct (capture_iteration_cases t s) as [-> | [-> | (f & now & ->)]];
    unfold get_current_frame, Camera.get_current_frame; simpl;
    repeat split; eauto; lia.
Qed.

Lemma capture_loop_keeps (ticks : list tick) (s : capture_state) :
  let s' := capture_loop ticks s in
  (is_Some (get_current_frame s) -> is_Some (get_current_frame s'))
  /\ (frame_count s <= frame_count s' <= frame_count s + length ticks)%nat
  /\ ((is_Some (get_current_frame s) -> (1 <= frame_count s)%nat) ->
      is_Some (get_current_frame s') -> (1 <= frame_count s')%nat)
  /\ defect_detector (service s') = defect_detector (service s)
  /\ detection_enabled (service s') = detection_enabled (service s).
Proof.
  revert s. induction ticks as [| t ticks IH]; intros s; cbn [capture_loop foldl].
  - simpl. repeat split; auto; lia.
  - fold (capture_loop ticks (capture_iteration t s)).
    destruct (capture_iteration_keeps t s) as (H1 & H2 & H3 & H4 & H5).
    destruct (IH (capture_iteration t s)) as (I1 & I2 & I3 & I4 & I5).
    cbn [length]. repeat split; try tauto; try lia; congruence.
Qed.

(** Started on a fresh service, the loop never withdraws a frame it has
    published; the frame counter is at least 1 as soon as a frame can be
    read and never exceeds the number of iterations; and the loop leaves
    the detector and the detection flag alone. *)
Theorem capture_loop_accounting (w : world) (ticks : list tick) :
  let s := capture_loop ticks (init w) in
  (is_Some (get_current_frame s) -> (1 <= frame_count s)%nat)
  /\ (frame_count s <= length ticks)%nat
  /\ defect_detector (service s) = defect_detector (Camera.init w)
  /\ detection_enabled (service s) = true.
Proof.
  intros s. unfold s.
  destruct (capture_loop_keeps ticks (init w)) as (_ & H2 & H3 & H4 & H5).
  repeat split.
  - apply H3. intros [f Hf]. discriminate.
  - simpl in H2. lia.
  - exact H4.
  - exact H5.
Qed.

Lemma observed_length groups s : length (observed groups s) = length groups.
Proof.
  revert s. induction groups as [| g groups IH]; intros s; simpl; [ reflexivity | ].
  rewrite IH. reflexivity.
Qed.

Lemma observed_stays groups s k :
  is_Some (get_current_frame s) -> (k < length groups)%nat ->
  exists f, observed groups s !! k = Some (Some f).
Proof.
  revert s k. induction groups as [| g groups IH]; intros s k Hs Hk; simpl in Hk;
    [ lia | ].
  pose proof (proj1 (capture_loop_keeps g s) Hs) as Hs'.
  destruct k as [| k]; simpl.
  - destruct Hs' as [f Hf]. rewrite Hf. eauto.
  - apply IH; [ exact Hs' | lia ].
Qed.

Lemma frames_are_never_withdrawn_aux (groups : list (list tick))
    (s : capture_state) :
  BroadcasterSpec.camera_like (observed groups s).
Proof.
  revert s. induction groups as [| g groups IH]; intros s k f Hk k' Hle Hlt.
  - destruct k; discriminate.
  - cbn [observed] in *. cbn [length] in Hlt. rewrite observed_length in Hlt.
    destruct k as [| k].
    + simpl in Hk. injection Hk as Hk.
      destruct k' as [| k']; [ simpl; rewrite Hk; eauto | ].
      simpl. apply observed_stays; [| lia ]. rewrite Hk. eauto.
    + destruct k' as [| k']; [ lia | ]. simpl in Hk. simpl.
      apply (IH _ k f Hk k'); [ lia | ].
      rewrite observed_length. lia.
Qed.


(** Whenever a reader has seen a frame, every later call of
    [get_current_frame] returns a frame too. *)
Theorem frames_are_never_withdrawn (groups : list (list tick))
    (s : capture_state) (k k' : nat) (f : frame) :
  observed groups s !! k = Some (Some f) ->
  (k <= k')%nat -> (k' < length groups)%nat ->
  exists f', observed groups s !! k' = Some (Some f').
Proof.
  intros Hk Hle Hlt.
  apply (frames_are_never_withdrawn_aux groups s k f Hk k' Hle).
  rewrite observed_length. exact Hlt.
Qed.

(** An iteration in which the camera delivers a frame, and one in which
    the read fails. *)
Definition good_tick : tick :=
  {| read := Ok (true, CameraSpec.vga_frame);
     flip := fun f => Ok f;
     putText := fun f _ _ _ _ _ => Ok f;
     timestamp := "2024-01-01 12:00:00";
     time := 1704110400 |}.

Definition dead_tick : tick :=
  {| read := Ok (false, CameraSpec.vga_frame);
     flip := fun f => Ok f;
     putText := fun f _ _ _ _ _ => Ok f;
     timestamp := "2024-01-01 12:00:00";
     time := 1704110400 |}.

Lemma frames_are_never_withdrawn_witness :
  exists f',
    observed [[good_tick]; []; [dead_tick; dead_tick]]
      (init CameraSpec.plain_world) !! 2%nat
    = Some (Some f').
Proof.
  apply (frames_are_never_withdrawn [[good_tick]; []; [dead_tick; dead_tick]]
           (init CameraSpec.plain_world) 0 2 CameraSpec.vga_frame).
  - reflexivity.
  - lia.
  - simpl. lia.
Defined.

(** Fed by the capture loop, the stream loop pushes any two waiting
    messages of a run at least ten cycles, hence one second, apart. *)
Theorem waiting_rate_behind_capture_loop (w : world)
    (groups : list (list tick)) (s : capture_state)
    (clock : nat -> Z) (i j : nat) :
  (forall k, clock k + 100 <= clock (S k)) ->
  (i < j)%nat ->
  Broadcaster.stream_loop w (observed groups s) !! i
  = Some (Some Broadcaster.CameraWaiting) ->
  Broadcaster.stream_loop w (observed groups s) !! j
  = Some (Some Broadcaster.CameraWaiting) ->
  (i + 10 <= j)%nat /\ clock i + 1000 <= clock j.
Proof.
  intros Hsleep Hij Hi Hj.
  eapply BroadcasterSpec.waiting_rate_with_camera; try eassumption.
  apply frames_are_never_withdrawn_aux.
Qed.

Lemma waiting_rate_behind_capture_loop_witness :
  (0 + 10 <= 10)%nat /\ 100 * Z.of_nat 0 + 1000 <= 100 * Z.of_nat 10.
Proof.
  apply (waiting_rate_behind_capture_loop CameraSpec.plain_world
           (replicate 12 [dead_tick]) (init CameraSpec.plain_world)
           (fun k => 100 * Z.of_nat k) 0 10).
  - intros k. lia.
  - lia.
  - reflexivity.
  - reflexivity.
Defined.

End AcquisitionSpec.

(** * Further facts about the connection manager *)

Module SchedulingSpec.
Import Broadcaster BroadcasterSpec.

(** Under every schedule of connects, disconnects, stop tasks and loop
    exits, at most one [_stream_loop] task is alive; it is the one held
    in [stream_task], and the streaming flag is set while it lives. *)
Theorem at_most_one_stream_loop (es : list event) (s : state) (t1 t2 : nat) :
  run es init = Some s ->
  loop_tasks s !! t1 = Some Running ->
  loop_tasks s !! t2 = Some Running ->
  t1 = t2 /\ stream_task s = Some t1 /\ is_streaming s = true.
Proof.
  intros Hrun H1 H2.
  destruct (reachable_tracked es s Hrun) as (Htr & _).
  destruct (Htr t1 H1) as (E1 & Hs).
  destruct (Htr t2 H2) as (E2 & _).
  repeat split; congruence.
Qed.

Lemma at_most_one_stream_loop_witness :
  0%nat = 0%nat
  /\ stream_task (connect client_a init) = Some 0%nat
  /\ is_streaming (connect client_a init) = true.
Proof.
  apply (at_most_one_stream_loop
           [ConnectRegister client_a; ConnectResume client_a]
           (connect client_a init) 0 0); reflexivity.
Defined.













(** The flag can indeed stay set without a loop: when the only client's
    send fails, the loop returns on the empty registry with the flag
    still set, and the next client to connect gets no stream loop. *)
Lemma failed_send_strands_next_client (a b : websocket)
    (failed : gset websocket) :
  a ∈ failed ->
  let s := Serial.act_all
             [Serial.Operation (Attach a); Serial.BroadcastPass failed;
              Serial.Operation (Attach b)] init in
  active_connections s = {[b]}
  /\ is_streaming s = true
  /\ no_loop_running s.
Proof.
  intros Ha s.
  assert (Hempty : ({[a]} ∪ ∅) ∖ failed = (∅ : gset websocket)) by set_solver.
  unfold s, Serial.act_all. cbn [foldl Serial.act].
  unfold perform at 2. unfold connect, connect_resume, connect_register.
  cbn. unfold Serial.broadcast_pass. cbn.
  rewrite Hempty. unfold loop_can_exit. cbn.
  rewrite bool_decide_eq_true_2 by reflexivity.
  unfold loop_exit. cbn.
  split; [ set_solver | ]. split; [ reflexivity | ].
  intros t Ht. destruct t as [| t]; cbn in Ht; [ discriminate | ].
  destruct t; discriminate.
Qed.

(** A broadcast pass that no other task disturbs leaves a registry on
    which the same message, sent again with the same outcome per socket,
    reaches every remaining socket and removes none. *)
Theorem broadcast_settles {Message} (json_dumps : Message -> string)
    (send_text : websocket -> string -> outcome unit)
    (registry : gset websocket) (message : Message) :
  let quiet := fun (_ : websocket) (reg : gset websocket) => reg in
  let after := fst (broadcast json_dumps send_text quiet registry message) in
  let again := broadcast json_dumps send_text quiet after message in
  after ⊆ registry
  /\ fst again = after
  /\ map target (snd again) = elements after.
Proof.
  intros quiet after again.
  assert (Hid : forall reg l, others quiet reg l = reg).
  { intros reg l. induction l as [| x l IH]; [ reflexivity | exact IH ]. }
  assert (Hafter : after
            = registry ∖ list_to_set
                (List.filter (send_fails send_text (json_dumps message))
                             (elements registry))).
  { unfold after. rewrite broadcast_result. cbn [fst]. rewrite Hid. reflexivity. }
  split; [ rewrite Hafter; set_solver | ].
  unfold again. rewrite broadcast_result. cbn [fst snd]. rewrite Hid.
  split.
  - apply set_eq. intros ws.
    rewrite elem_of_difference, elem_of_list_to_set.
    rewrite list_elem_of_In, List.filter_In, <- list_elem_of_In, elem_of_elements.
    split; [ tauto | ]. intros Hin. split; [ exact Hin | ].
    intros (_ & Hf). rewrite Hafter in Hin.
    rewrite elem_of_difference, elem_of_list_to_set in Hin.
    rewrite list_elem_of_In, List.filter_In, <- list_elem_of_In, elem_of_elements in Hin.
    tauto.
  - generalize (elements after). intros l.
    assert (H : forall (f : nat -> websocket -> send_record),
               (forall k ws, target (f k ws) = ws) -> map target (imap f l) = l).
    { induction l as [| x l IH]; intros f Hf; [ reflexivity | ].
      cbn [imap map]. rewrite Hf, IH; [ reflexivity | ].
      intros k ws. apply Hf. }
    apply H. reflexivity.
Qed.

End SchedulingSpec.

(** * Verification of the message handlers *)

Module HandlersSpec.
Import Camera CameraSpec Handlers.

(** ** Arrays in a dictionary *)

Lemma map_fold_orb {A} (f : A -> bool) (m : gmap string A) :
  map_fold (fun (_ : string) v found => f v || found) false m = true
  <-> exists k v, m !! k = Some v /\ f v = true.
Proof.
  induction m as [| k v m Hk IH] using map_ind.
  - rewrite map_fold_empty. split; [ discriminate | ].
    intros (k & v & H & _). rewrite lookup_empty in H. discriminate.
  - rewrite map_fold_insert_L; [| | exact Hk ].
    2:{ intros j1 j2 z1 z2 y _ _ _. destruct (f z1), (f z2); reflexivity. }
    rewrite orb_true_iff, IH. split.
    + intros [Hv | (k' & v' & Hl & Hv)].
      * exists k, v. split; [ apply lookup_insert_eq | exact Hv ].
      * exists k', v'. split; [| exact Hv ].
        rewrite lookup_insert_ne; [ exact Hl | ]. intros ->. congruence.
    + intros (k' & v' & Hl & Hv). destruct (decide (k = k')) as [<- | Hne].
      * rewrite lookup_insert_eq in Hl. injection Hl as <-. left. exact Hv.
      * rewrite lookup_insert_ne in Hl by exact Hne. right. eauto.
Qed.

Lemma has_array_iff (m : message) :
  has_array m = true
  <-> exists k v, m !! k = Some v /\ field_has_array v = true.
Proof. apply (map_fold_orb field_has_array). Qed.

Lemma pyval_has_array_dict (d : pydict) :
  pyval_has_array (VDict d) = true
  <-> exists k v, d !! k = Some v /\ pyval_has_array v = true.
Proof. apply (map_fold_orb pyval_has_array). Qed.

Section ManagerFacts.

Variable w : world.
Variable json_loads : string -> outcome json.
Variable json_dumps : message -> outcome string.
Variable send_text : Broadcaster.websocket -> string -> outcome unit.
Variable json_str : json -> string.
Variable time_time : Q.

Abbreviation deliver ws m :=
  (text ← json_dumps m; _ ← send_text ws text; Ok text).

(** ** Every handler returns and sends one message to the caller *)

(** What a handler leaves alone. *)
Definition same_camera (c c' : context) : Prop :=
  Acquisition.get_current_frame (camera c')
  = Acquisition.get_current_frame (camera c)
  /\ defect_detector (Acquisition.service (camera c'))
     = defect_detector (Acquisition.service (camera c))
  /\ Acquisition.frame_count (camera c') = Acquisition.frame_count (camera c)
  /\ Acquisition.last_capture_time (camera c')
     = Acquisition.last_capture_time (camera c).

Definition replies_once (ws : Broadcaster.websocket) (c : context)
    (r : outcome unit * context) : Prop :=
  fst r = Ok tt
  /\ same_camera c (snd r)
  /\ exists m, outbox (snd r) = outbox c ++ [(ws, m, deliver ws m)].

Lemma same_camera_refl c : same_camera c c.
Proof using Type. repeat split. Qed.

Lemma send_personal_message_replies m ws c :
  send_personal_message json_dumps send_text m ws c
  = (Ok tt, push c (ws, m, deliver ws m)).
Proof using Type. reflexivity. Qed.

Lemma handle_ping_replies ws client_id d c :
  replies_once ws c
    (handle_ping json_dumps send_text time_time ws client_id d c).
Proof using Type.
  split; [ reflexivity | ]. split; [ repeat split | ]. eexists. reflexivity.
Qed.

Lemma handle_status_request_replies self ws client_id c :
  replies_once ws c
    (handle_status_request json_dumps send_text time_time self ws client_id c).
Proof using Type.
  split; [ reflexivity | ]. split; [ repeat split | ]. eexists. reflexivity.
Qed.

Lemma handle_detection_setting_replies ws client_id d c :
  replies_once ws c
    (handle_detection_setting json_dumps send_text time_time ws client_id d c).
Proof using Type.
  split; [ reflexivity | ]. split; [ repeat split | ]. eexists. reflexivity.
Qed.

Lemma handle_capture_request_replies ws client_id d c :
  replies_once ws c
    (handle_capture_request w json_dumps send_text json_str time_time
       ws client_id d c).
Proof using Type.
  unfold handle_capture_request, try_action, mbind, action_bind, current, call.
  destruct (if json_truthy _ && _ then _ else _) as [r | e].
  2:{ split; [ reflexivity | ]. split; [ repeat split | ]. eexists. reflexivity. }
  destruct (getitem r "success") as [v1 | e].
  2:{ split; [ reflexivity | ]. split; [ repeat split | ]. eexists. reflexivity. }
  destruct (getitem r "message") as [v2 | e].
  2:{ split; [ reflexivity | ]. split; [ repeat split | ]. eexists. reflexivity. }
  destruct (getitem r "filepath") as [v3 | e].
  2:{ split; [ reflexivity | ]. split; [ repeat split | ]. eexists. reflexivity. }
  destruct (getitem r "base64_image") as [v4 | e].
  2:{ split; [ reflexivity | ]. split; [ repeat split | ]. eexists. reflexivity. }
  split; [ reflexivity | ]. split; [ repeat split | ]. eexists. reflexivity.
Qed.

(** The handler chosen for a decoded object. *)
Definition dispatch (self : Broadcaster.state) (ws : Broadcaster.websocket)
    (client_id : string) (d : gmap string json) : action unit :=
  let message_type := get d "type" in
  if json_is message_type "capture_image"
  then handle_capture_request w json_dumps send_text json_str time_time
         ws client_id d
  else if json_is message_type "get_status"
  then handle_status_request json_dumps send_text time_time self ws client_id
  else if json_is message_type "ping"
  then handle_ping json_dumps send_text time_time ws client_id d
  else if json_is message_type "set_detection"
  then handle_detection_setting json_dumps send_text time_time ws client_id d
  else mret tt.

Lemma handle_message_cases self ws client_id text c :
  handle_message w json_loads json_dumps send_text json_str time_time
    self ws client_id text c
  = match json_loads text with
    | Ok (JObj d) =>
        match dispatch self ws client_id d c with
        | (Ok a, c') => (Ok a, c')
        | (Raise _, c') => (Ok tt, c')
        end
    | _ => (Ok tt, c)
    end.
Proof using Type.
  unfold handle_message, try_action, mbind, action_bind, call, dispatch.
  destruct (json_loads text) as [[| b | q | s | l | d] | e]; reflexivity.
Qed.

(** Whatever text arrives, [handle_message] returns without raising;
    it makes at most one send, addressed to the socket the text came
    from; and it leaves the frame, the detector and the counters of the
    camera service as they were. *)
Theorem handle_message_contained (self : Broadcaster.state)
    (ws : Broadcaster.websocket) (client_id text : string) (c : context) :
  let r := handle_message w json_loads json_dumps send_text json_str time_time
             self ws client_id text c in
  fst r = Ok tt
  /\ same_camera c (snd r)
  /\ exists sent,
       outbox (snd r) = outbox c ++ sent
       /\ (length sent <= 1)%nat
       /\ Forall (fun a => attempt_target a = ws) sent.
Proof using Type.
  assert (Hquiet : forall r : outcome unit * context,
            r = (Ok tt, c) ->
            fst r = Ok tt /\ same_camera c (snd r)
            /\ exists sent, outbox (snd r) = outbox c ++ sent
                            /\ (length sent <= 1)%nat
                            /\ Forall (fun a => attempt_target a = ws) sent).
  { intros r ->. split; [ reflexivity | ]. split; [ apply same_camera_refl | ].
    exists []. rewrite app_nil_r. repeat split; [ simpl; lia | constructor ]. }
  assert (Hone : forall r : outcome unit * context,
            replies_once ws c r ->
            let r' := match r with
                      | (Ok a, c') => (Ok a, c')
                      | (Raise _, c') => (Ok tt, c')
                      end in
            fst r' = Ok tt /\ same_camera c (snd r')
            /\ exists sent, outbox (snd r') = outbox c ++ sent
                            /\ (length sent <= 1)%nat
                            /\ Forall (fun a => attempt_target a = ws) sent).
  { intros [o c'] (Ho & Hcam & m & Hm). simpl in Ho, Hcam, Hm. subst o.
    simpl. split; [ reflexivity | ]. split; [ exact Hcam | ].
    eexists. split; [ exact Hm | ]. split; [ simpl; lia | ].
    repeat constructor. }
  intros r. unfold r. rewrite handle_message_cases.
  destruct (json_loads text) as [[| b | q | s | l | d] | e];
    try (apply Hquiet; reflexivity).
  unfold dispatch.
  destruct (json_is (get d "type") "capture_image").
  { apply Hone, handle_capture_request_replies. }
  destruct (json_is (get d "type") "get_status").
  { apply Hone, handle_status_request_replies. }
  destruct (json_is (get d "type") "ping").
  { apply Hone, handle_ping_replies. }
  destruct (json_is (get d "type") "set_detection").
  { apply Hone, handle_detection_setting_replies. }
  apply Hquiet. reflexivity.
Qed.

(** ** Messages that are not requests *)

(** The document is an object whose ["type"] is one of the four request
    names. *)
Definition recognised (j : json) : bool :=
  match j with
  | JObj d =>
      let message_type := get d "type" in
      json_is message_type "capture_image"
      || json_is message_type "get_status"
      || json_is message_type "ping"
      || json_is message_type "set_detection"
  | _ => false
  end.

(** A text that does not decode, that decodes to something other than an
    object, or whose ["type"] is none of the four request names, is
    dropped: nothing is sent and the camera service is not touched. *)
Theorem unrecognised_message_is_dropped (self : Broadcaster.state)
    (ws : Broadcaster.websocket) (client_id text : string) (c : context) :
  (forall j, json_loads text = Ok j -> recognised j = false) ->
  handle_message w json_loads json_dumps send_text json_str time_time
    self ws client_id text c
  = (Ok tt, c).
Proof using Type.
  intros Hrec. rewrite handle_message_cases.
  destruct (json_loads text) as [[| b | q | s | l | d] | e]; try reflexivity.
  specialize (Hrec _ eq_refl). unfold dispatch. simpl in Hrec.
  apply orb_false_iff in Hrec as [Hrec H4].
  apply orb_false_iff in Hrec as [Hrec H3].
  apply orb_false_iff in Hrec as [H1 H2].
  rewrite H1, H2, H3, H4. reflexivity.
Qed.

(** ** Capture requests *)

(** The capture a request selects, lines 178-181. *)
Definition chosen_capture (d : gmap string json) (c : context)
  : outcome pydict :=
  let self := Acquisition.service (camera c) in
  if json_truthy (get_or d "enable_detection" (JBool true))
     && is_detection_available c
  then capture_with_detection_analysis w self
         (filename_of json_str (get d "filename"))
  else capture_image w self (filename_of json_str (get d "filename")) false.

(** The reply built from the result [r] of the capture, lines 183-193. *)
Definition capture_response (d : gmap string json) (r : pydict) : message :=
  <["type" := Str "capture_response"]>
    (<["request_id" := OfRequest (get d "request_id")]>
       (<["success" := OfCapture (default VNone (r !! "success"))]>
          (<["message" := OfCapture (default VNone (r !! "message"))]>
             (<["filepath" := OfCapture (default VNone (r !! "filepath"))]>
                (<["image_data" :=
                     OfCapture (default VNone (r !! "base64_image"))]>
                   (<["detection_results" :=
                        OfCapture (default VNone (r !! "detection_results"))]>
                      (<["analysis" :=
                           OfCapture (default VNone (r !! "analysis"))]>
                         (<["timestamp" := Float time_time]> ∅)))))))).

Definition capture_keys (r : pydict) : Prop :=
  is_Some (r !! "success") /\ is_Some (r !! "message")
  /\ is_Some (r !! "filepath") /\ is_Some (r !! "base64_image").

Lemma capture_request_reply ws client_id d c r :
  chosen_capture d c = Ok r ->
  capture_keys r ->
  handle_capture_request w json_dumps send_text json_str time_time
    ws client_id d c
  = (Ok tt, push c (ws, capture_response d r, deliver ws (capture_response d r))).
Proof using Type.
  intros Hr ([v1 H1] & [v2 H2] & [v3 H3] & [v4 H4]).
  unfold chosen_capture in Hr.
  unfold handle_capture_request, try_action, mbind, action_bind, current, call.
  rewrite Hr. unfold getitem. rewrite H1, H2, H3, H4.
  unfold capture_response. rewrite H1, H2, H3, H4. reflexivity.
Qed.

Lemma capture_result_keys b msg fp img dr :
  capture_keys (capture_result b msg fp img dr).
Proof using Type. repeat split; eexists; reflexivity. Qed.

Lemma capture_image_form self filename apply_detection :
  exists b msg fp img dr,
    capture_image w self filename apply_detection
    = Ok (capture_result b msg fp img dr)
    /\ (apply_detection && detection_enabled self = false -> dr = VNone).
Proof using Type.
  destruct (capture_image_shape w self filename apply_detection)
    as (r & -> & Hs).
  destruct Hs as [ | f sq pf dr name path img Hf Hsq Hd Hw | | ];
    eexists _, _, _, _, _; (split; [ reflexivity | ]); try reflexivity.
  intros Hoff. unfold detection_step in Hd. rewrite Hoff in Hd.
  injection Hd as _ <-. reflexivity.
Qed.

Lemma analysis_form self filename :
  exists b msg fp img dr,
    capture_image w self filename true = Ok (capture_result b msg fp img dr)
    /\ (capture_with_detection_analysis w self filename
        = Ok (capture_result b msg fp img dr)
        \/ exists ds annotated,
             dr = detection_results_dict ds annotated
             /\ capture_with_detection_analysis w self filename
                = Ok (<["analysis" := analysis_dict ds]>
                        (capture_result b msg fp img dr))).
Proof using Type.
  destruct (capture_image_shape w self filename true) as (r & Hr & Hs).
  unfold capture_with_detection_analysis. rewrite Hr.
  destruct Hs as [ | f sq pf dr name path img Hf Hsq Hd Hw | | ];
    try (eexists _, _, _, _, _; split; [ reflexivity | left; reflexivity ]).
  destruct (detection_step_results _ _ _ _ _ _ Hd)
    as [-> | [(ds & annotated & ->) | (m & ->)]];
    eexists _, _, _, _, _; (split; [ reflexivity | ]).
  - left. reflexivity.
  - right. exists ds, annotated. split; reflexivity.
  - left. reflexivity.
Qed.

Lemma chosen_capture_form d c :
  exists r, chosen_capture d c = Ok r /\ capture_keys r.
Proof using Type.
  unfold chosen_capture.
  destruct (json_truthy _ && _).
  - destruct (analysis_form (Acquisition.service (camera c))
                (filename_of json_str (get d "filename")))
      as (b & msg & fp & img & dr & _ & [-> | (ds & ann & _ & ->)]).
    + eexists. split; [ reflexivity | apply capture_result_keys ].
    + eexists. split; [ reflexivity | ].
      repeat split; eexists; reflexivity.
  - destruct (capture_image_form (Acquisition.service (camera c))
                (filename_of json_str (get d "filename")) false)
      as (b & msg & fp & img & dr & -> & _).
    eexists. split; [ reflexivity | apply capture_result_keys ].
Qed.

(** When the service has no detector or its flag is off, the selected
    capture carries neither detection results nor an analysis. *)
Lemma chosen_capture_plain d c :
  defect_detector (Acquisition.service (camera c)) = None
  \/ detection_enabled (Acquisition.service (camera c)) = false ->
  exists b msg fp img,
    chosen_capture d c = Ok (capture_result b msg fp img VNone).
Proof using Type.
  intros Hoff. unfold chosen_capture.
  destruct (json_truthy _ && is_detection_available c) eqn:Hsel.
  - apply andb_true_iff in Hsel as [_ Hav].
    destruct Hoff as [Hnone | Hflag].
    { unfold is_detection_available in Hav. rewrite Hnone in Hav.
      apply bool_decide_eq_true in Hav. destruct Hav as [x Hx]. discriminate. }
    destruct (capture_image_form (Acquisition.service (camera c))
                (filename_of json_str (get d "filename")) true)
      as (b & msg & fp & img & dr & Hcap & Hdr).
    rewrite (Hdr Hflag) in Hcap.
    exists b, msg, fp, img.
    unfold capture_with_detection_analysis. rewrite Hcap.
    destruct b; reflexivity.
  - destruct (capture_image_form (Acquisition.service (camera c))
                (filename_of json_str (get d "filename")) false)
      as (b & msg & fp & img & dr & Hcap & Hdr).
    rewrite (Hdr eq_refl) in Hcap. eauto.
Qed.

Lemma json_is_true j text : json_is j text = true -> j = JStr text.
Proof using Type.
  clear. destruct j; try discriminate. simpl. intros H.
  apply String.eqb_eq in H. congruence.
Qed.

Lemma handle_message_capture self ws client_id text d c :
  json_loads text = Ok (JObj d) ->
  json_is (get d "type") "capture_image" = true ->
  exists r,
    chosen_capture d c = Ok r
    /\ handle_message w json_loads json_dumps send_text json_str time_time
         self ws client_id text c
       = (Ok tt, push c (ws, capture_response d r,
                         deliver ws (capture_response d r))).
Proof using Type.
  intros Hload Htype. rewrite handle_message_cases, Hload.
  unfold dispatch. rewrite Htype.
  destruct (chosen_capture_form d c) as (r & Hr & Hk).
  exists r. split; [ exact Hr | ].
  rewrite (capture_request_reply ws client_id d c r Hr Hk). reflexivity.
Qed.

(** A capture requested over the socket while no model is loaded never
    reports the placeholder detection: whatever the request asks for,
    the reply has no detection results, no analysis and no array in it. *)
Theorem capture_request_without_model (self : Broadcaster.state)
    (ws : Broadcaster.websocket) (client_id text : string)
    (d : gmap string json) (c : context) :
  json_loads text = Ok (JObj d) ->
  json_is (get d "type") "capture_image" = true ->
  defect_detector (Acquisition.service (camera c)) = None ->
  exists m,
    handle_message w json_loads json_dumps send_text json_str time_time
      self ws client_id text c
    = (Ok tt, push c (ws, m, deliver ws m))
    /\ m !! "type" = Some (Str "capture_response")
    /\ m !! "detection_results" = Some (OfCapture VNone)
    /\ m !! "analysis" = Some (OfCapture VNone).
Proof using Type.
  intros Hload Htype Hnone.
  destruct (handle_message_capture self ws client_id text d c Hload Htype)
    as (r & Hr & ->).
  destruct (chosen_capture_plain d c (or_introl Hnone))
    as (b & msg & fp & img & Hplain).
  rewrite Hplain in Hr. injection Hr as <-.
  eexists. split; [ reflexivity | ]. repeat split.
Qed.

(** A reply that holds a numpy array cannot be serialised, so a capture
    whose detection ran is never answered: [json.dumps] raises on the
    annotated image stored in the detection results, the exception is
    logged by [send_personal_message], and nothing reaches the client. *)
Theorem capture_reply_with_image_is_lost (self : Broadcaster.state)
    (ws : Broadcaster.websocket) (client_id text : string)
    (d : gmap string json) (c : context)
    (r data : pydict) (annotated : frame) :
  (forall m, has_array m = true -> exists e, json_dumps m = Raise e) ->
  json_loads text = Ok (JObj d) ->
  json_is (get d "type") "capture_image" = true ->
  chosen_capture d c = Ok r ->
  r !! "detection_results" = Some (VDict data) ->
  data !! "annotated_image" = Some (VImage annotated) ->
  exists m e,
    handle_message w json_loads json_dumps send_text json_str time_time
      self ws client_id text c
    = (Ok tt, push c (ws, m, Raise e)).
Proof using Type.
  intros Hdumps Hload Htype Hr Hres Himg.
  destruct (handle_message_capture self ws client_id text d c Hload Htype)
    as (r' & Hr' & ->).
  rewrite Hr in Hr'. injection Hr' as <-.
  assert (Harr : has_array (capture_response d r) = true).
  { apply has_array_iff. exists "detection_results", (OfCapture (VDict data)).
    split.
    - unfold capture_response. rewrite Hres. reflexivity.
    - cbn [field_has_array]. apply pyval_has_array_dict.
      exists "annotated_image", (VImage annotated). split; [ exact Himg | reflexivity ]. }
  destruct (Hdumps _ Harr) as [e He].
  exists (capture_response d r), e. rewrite He. reflexivity.
Qed.

(** Once a client has switched detection off, a capture requested by any
    client is answered without detection results and without analysis,
    also when a model is loaded and the request asks for detection. *)
Theorem switching_detection_off_silences_capture (self : Broadcaster.state)
    (ws1 ws2 : Broadcaster.websocket) (id1 id2 text1 text2 : string)
    (d1 d2 : gmap string json) (c : context) :
  json_loads text1 = Ok (JObj d1) ->
  json_is (get d1 "type") "set_detection" = true ->
  json_truthy (get_or d1 "enabled" (JBool true)) = false ->
  json_loads text2 = Ok (JObj d2) ->
  json_is (get d2 "type") "capture_image" = true ->
  let handle := handle_message w json_loads json_dumps send_text json_str
                  time_time self in
  let c1 := snd (handle ws1 id1 text1 c) in
  let c2 := snd (handle ws2 id2 text2 c1) in
  exists m1 m2,
    outbox c2
    = outbox c ++ [(ws1, m1, deliver ws1 m1); (ws2, m2, deliver ws2 m2)]
    /\ m1 !! "success" = Some (Bool true)
    /\ m1 !! "enabled" = Some (OfRequest (get_or d1 "enabled" (JBool true)))
    /\ m2 !! "detection_results" = Some (OfCapture VNone)
    /\ m2 !! "analysis" = Some (OfCapture VNone).
Proof using Type.
  intros Hload1 Htype1 Hoff Hload2 Htype2 handle c1 c2.
  assert (Hc1 : exists m1,
            c1 = push (set_detection_enabled (get_or d1 "enabled" (JBool true)) c)
                      (ws1, m1, deliver ws1 m1)
            /\ m1 !! "success" = Some (Bool true)
            /\ m1 !! "enabled"
               = Some (OfRequest (get_or d1 "enabled" (JBool true)))).
  { unfold c1, handle. rewrite handle_message_cases, Hload1. unfold dispatch.
    apply json_is_true in Htype1. rewrite Htype1.
    eexists. split; [ reflexivity | ]. split; reflexivity. }
  destruct Hc1 as (m1 & Hc1 & Hs1 & He1).
  destruct (handle_message_capture self ws2 id2 text2 d2 c1 Hload2 Htype2)
    as (r & Hr & Hh).
  assert (Hflag : detection_enabled (Acquisition.service (camera c1)) = false).
  { rewrite Hc1. simpl. exact Hoff. }
  destruct (chosen_capture_plain d2 c1 (or_intror Hflag))
    as (b & msg & fp & img & Hplain).
  rewrite Hplain in Hr. injection Hr as <-.
  exists m1, (capture_response d2 (capture_result b msg fp img VNone)).
  split; [| repeat split; assumption ].
  unfold c2, handle. rewrite Hh. cbn [snd push outbox].
  rewrite Hc1. cbn [push outbox set_detection_enabled].
  rewrite <- app_assoc. reflexivity.
Qed.

End ManagerFacts.

(** ** A sample server *)

(** Three texts a client may send, already decoded. *)
Definition capture_request : gmap string json :=
  <["type" := JStr "capture_image"]> (<["request_id" := JNum 7]> ∅).

Definition detection_off_request : gmap string json :=
  <["type" := JStr "set_detection"]> (<["enabled" := JBool false]> ∅).

Definition requests : gmap string json :=
  <["capture" := JObj capture_request]>
    (<["detection off" := JObj detection_off_request]>
       (<["hello" := JObj (<["type" := JStr "hello"]> ∅)]> ∅)).

Definition sample_loads (text : string) : outcome json :=
  match requests !! text with
  | Some j => Ok j
  | None => Raise (Exception "JSONDecodeError" "Expecting value")
  end.

Definition sample_dumps (m : message) : outcome string :=
  if has_array m
  then Raise (TypeError "Object of type ndarray is not JSON serializable")
  else Ok "{}".

Definition sample_send (ws : Broadcaster.websocket) (text : string)
  : outcome unit := Ok tt.

Definition sample_str (j : json) : string := "value".

Definition sample_context (self : camera_service) : context :=
  {| camera := {| Acquisition.service := self;
                  Acquisition.frame_count := 1;
                  Acquisition.last_capture_time := 0 |};
     enabled_object := JBool true;
     outbox := [] |}.

Definition sample_handle : Broadcaster.websocket -> string -> string -> action unit :=
  handle_message plain_world sample_loads sample_dumps sample_send sample_str 0
    Broadcaster.init.

Lemma sample_dumps_rejects_arrays (m : message) :
  has_array m = true -> exists e, sample_dumps m = Raise e.
Proof. intros H. unfold sample_dumps. rewrite H. eexists. reflexivity. Defined.

Lemma unrecognised_message_is_dropped_witness :
  sample_handle BroadcasterSpec.client_a "a" "hello"
    (sample_context inspecting_service)
  = (Ok tt, sample_context inspecting_service).
Proof.
  apply (unrecognised_message_is_dropped plain_world sample_loads sample_dumps
           sample_send sample_str 0 Broadcaster.init BroadcasterSpec.client_a
           "a" "hello" (sample_context inspecting_service)).
  intros j [= <-]. reflexivity.
Defined.

Lemma capture_request_without_model_witness :
  let c := sample_context (publish (Camera.init plain_world) vga_frame) in
  exists m,
    sample_handle BroadcasterSpec.client_a "a" "capture" c
    = (Ok tt, push c (BroadcasterSpec.client_a, m,
                      text ← sample_dumps m;
                      _ ← sample_send BroadcasterSpec.client_a text; Ok text))
    /\ m !! "type" = Some (Str "capture_response")
    /\ m !! "detection_results" = Some (OfCapture VNone)
    /\ m !! "analysis" = Some (OfCapture VNone).
Proof.
  intros c.
  apply (capture_request_without_model plain_world sample_loads sample_dumps
           sample_send sample_str 0 Broadcaster.init BroadcasterSpec.client_a
           "a" "capture" capture_request c); reflexivity.
Defined.

Lemma capture_reply_with_image_is_lost_witness :
  let c := sample_context inspecting_service in
  exists m e,
    sample_handle BroadcasterSpec.client_a "a" "capture" c
    = (Ok tt, push c (BroadcasterSpec.client_a, m, Raise e)).
Proof.
  intros c.
  eapply (capture_reply_with_image_is_lost plain_world sample_loads sample_dumps
            sample_send sample_str 0 Broadcaster.init BroadcasterSpec.client_a
            "a" "capture" capture_request c _ _ _
            sample_dumps_rejects_arrays);
    reflexivity.
Defined.

Lemma switching_detection_off_silences_capture_witness :
  let c := sample_context inspecting_service in
  let c1 := snd (sample_handle BroadcasterSpec.client_a "a" "detection off" c) in
  let c2 := snd (sample_handle BroadcasterSpec.client_b "b" "capture" c1) in
  exists m1 m2,
    outbox c2
    = [(BroadcasterSpec.client_a, m1,
        text ← sample_dumps m1;
        _ ← sample_send BroadcasterSpec.client_a text; Ok text);
       (BroadcasterSpec.client_b, m2,
        text ← sample_dumps m2;
        _ ← sample_send BroadcasterSpec.client_b text; Ok text)]
    /\ m1 !! "success" = Some (Bool true)
    /\ m1 !! "enabled" = Some (OfRequest (JBool false))
    /\ m2 !! "detection_results" = Some (OfCapture VNone)
    /\ m2 !! "analysis" = Some (OfCapture VNone).
Proof.
  intros c.
  apply (switching_detection_off_silences_capture plain_world sample_loads
           sample_dumps sample_send sample_str 0 Broadcaster.init
           BroadcasterSpec.client_a BroadcasterSpec.client_b "a" "b"
           "detection off" "capture" detection_off_request capture_request c);
    reflexivity.
Defined.

End HandlersSpec.

(** * Further facts about the stream loop and the service constructor *)

Module StreamSpec.
Import Camera Broadcaster.

Lemma stream_loop_from_lookup w c frames k message :
  stream_loop_from w c frames !! k = Some message ->
  exists c' c'' frame,
    frames !! k = Some frame
    /\ stream_cycle w c' frame = Ok (c'', message).
Proof.
  revert c k. induction frames as [| frame frames IH]; intros c k;
    [ destruct k; discriminate | ].
  cbn [stream_loop_from].
  destruct (stream_cycle w c frame) as [[count m] |] eqn:Hc;
    [| destruct k; discriminate ].
  destruct k as [| k]; simpl.
  - intros [= <-]. eauto.
  - intros H. destruct (IH _ _ H) as (c' & c'' & fr & Hfr & Hcy). eauto.
Qed.

(** Every message the stream loop broadcasts matches what the camera
    gave in that cycle: a video frame is sent only in a cycle that got a
    frame, and it carries the non-empty encoding of that frame cut to a
    square; a waiting message is sent only in a cycle without a frame. *)
Theorem stream_messages_match_frames (w : world)
    (frames : list (option frame)) (k : nat) (message : stream_message) :
  stream_loop w frames !! k = Some (Some message) ->
  match message with
  | VideoFrame data =>
      data <> ""
      /\ exists f square,
           frames !! k = Some (Some f)
           /\ resize_to_square w f 640 = Ok square
           /\ frame_to_base64 w square 75 = Ok data
  | CameraWaiting => frames !! k = Some None
  end.
Proof.
  intros H. apply stream_loop_from_lookup in H.
  destruct H as (c' & c'' & frame & Hfr & Hcy).
  unfold stream_cycle in Hcy. destruct frame as [f |].
  - destruct (resize_to_square w f 640) as [sq |] eqn:Hsq; [| discriminate ].
    unfold mbind, outcome_bind, obind in Hcy.
    destruct (frame_to_base64 w sq 75) as [data |] eqn:Hdata; [| discriminate ].
    destruct (String.eqb data "") eqn:Hne; simpl in Hcy; [ discriminate | ].
    injection Hcy as _ <-. split.
    + intros ->. discriminate.
    + exists f, sq. auto.
  - destruct (Nat.eqb _ 1); [| discriminate ].
    injection Hcy as _ <-. exact Hfr.
Qed.

Lemma stream_messages_match_frames_witness :
  "/9j/4AAQ" <> ""
  /\ exists f square,
       [None; Some CameraSpec.vga_frame] !! 1%nat = Some (Some f)
       /\ resize_to_square CameraSpec.plain_world f 640 = Ok square
       /\ frame_to_base64 CameraSpec.plain_world square 75 = Ok "/9j/4AAQ".
Proof.
  apply (stream_messages_match_frames CameraSpec.plain_world
           [None; Some CameraSpec.vga_frame] 1 (VideoFrame "/9j/4AAQ")).
  reflexivity.
Defined.

(** An exception raised in a cycle ends the stream loop for good: when
    cutting the frame of cycle [k] to a square fails, the loop completes
    at most the [k] cycles before it and none afterwards, whatever
    frames arrive later. *)
Theorem stream_loop_ends_at_first_exception (w : world)
    (frames : list (option frame)) (k : nat) (f : frame) (e : exn) :
  frames !! k = Some (Some f) ->
  resize_to_square w f 640 = Raise e ->
  (length (stream_loop w frames) <= k)%nat.
Proof.
  intros Hk Hraise. unfold stream_loop. generalize 0%nat as c.
  revert k Hk. induction frames as [| frame frames IH]; intros k Hk c;
    [ simpl; lia | ].
  cbn [stream_loop_from]. destruct k as [| k].
  - injection Hk as ->. unfold stream_cycle. rewrite Hraise. simpl. lia.
  - destruct (stream_cycle w c frame) as [[count m] |]; simpl; [| lia ].
    specialize (IH k Hk count). lia.
Qed.

(** A world whose [cv2.resize] rejects every image. *)
Definition broken_resize_world : world :=
  {| model_file_exists := Ok false;
     load_detector := Raise (Exception "FileNotFoundError" "Model not found");
     strftime := "20240101_120000";
     get_full_captures_dir := Ok "captures";
     makedirs := fun _ => Ok tt;
     cv2_resize := fun _ _ => Raise (Exception "cv2.error" "resize failed");
     cv2_rectangle := fun img _ _ _ _ => Ok img;
     cv2_putText := fun img _ _ _ _ _ => Ok img;
     cv2_imwrite := fun _ _ => Ok true;
     encode_jpeg_base64 := fun _ _ => Ok "/9j/4AAQ" |}.

Lemma stream_loop_ends_at_first_exception_witness :
  (length (stream_loop broken_resize_world
             [None; Some CameraSpec.vga_frame; None; None]) <= 1)%nat.
Proof.
  apply (stream_loop_ends_at_first_exception broken_resize_world
           [None; Some CameraSpec.vga_frame; None; None] 1
           CameraSpec.vga_frame (Exception "cv2.error" "resize failed"));
    reflexivity.
Defined.

(** The constructor of the camera service never fails: the service gets
    a detector exactly when the model file exists and loading it
    succeeds, and in every case it starts without a frame and with
    detection switched on. *)
Theorem init_detector_iff (w : world) (d : detector) :
  (defect_detector (Camera.init w) = Some d
   <-> model_file_exists w = Ok true /\ load_detector w = Ok d)
  /\ current_frame (Camera.init w) = None
  /\ detection_enabled (Camera.init w) = true.
Proof.
  split; [| split; reflexivity ].
  unfold Camera.init. cbn [defect_detector].
  destruct (model_file_exists w) as [[] | e]; simpl.
  - destruct (load_detector w) as [d' | e]; simpl.
    + split; [ intros [= ->]; auto | intros [_ [= ->]]; reflexivity ].
    + split; [ discriminate | intros [_ H]; discriminate ].
  - split; [ discriminate | intros [H _]; discriminate ].
  - split; [ discriminate | intros [H _]; discriminate ].
Qed.

End StreamSpec.
